(** * NEMWeb: a shallow embedding of the ingestion pipeline of [NEMWeb.py]

    The development follows the order of the source file: the remote
    listing sanitation and the three-tier merge of [NEMWebCommon], the
    interval index of [read_interval_zip], the record parsers of
    [DispatchSCADA] and [RooftopPV], the window selection, the master grid,
    the resampler and the aggregator of [NEMWeb], and the gap repair of
    [repair_missing_periods] / [repair].

    Conventions.
    - Python [str] is [string]; comparisons of strings are the
      lexicographic order of [String.compare].
    - Python exceptions are [None] in an [option] result.
    - Floating point values are exact rationals ([Qc]): rounding of IEEE
      doubles is outside the model.
    - A Python index may be negative; [py_index] writes the wrap-around
      out. *)

From Stdlib Require Import String Ascii OrdersEx.
From Stdlib Require Import ZArith QArith Qcanon Qround Qabs List.
From Stdlib Require Import Lia Bool Arith Sorted Permutation.
From Equations Require Import Equations.
Import ListNotations.

Set Implicit Arguments.

Open Scope string_scope.
Open Scope list_scope.
Open Scope nat_scope.

(** ** Python sequences *)

Module Py.

(** [seq[i]] for an integer [i]: negative indices count from the end, and
    an index outside [-len, len) raises [IndexError]. *)
Definition py_index (len : nat) (i : Z) : option nat :=
  if ((0 <=? i) && (i <? Z.of_nat len))%Z then Some (Z.to_nat i)
  else if ((- Z.of_nat len <=? i) && (i <? 0))%Z
       then Some (Z.to_nat (i + Z.of_nat len))
       else None.

Definition getitem {A} (l : list A) (i : Z) : option A :=
  match py_index (length l) i with
  | Some n => nth_error l n
  | None => None
  end.

(** [l[i] = v] on a list. *)
Fixpoint set_nth {A} (l : list A) (n : nat) (v : A) : list A :=
  match l, n with
  | [], _ => []
  | _ :: t, O => v :: t
  | h :: t, S n' => h :: set_nth t n' v
  end.

Definition setitem {A} (l : list A) (i : Z) (v : A) : option (list A) :=
  match py_index (length l) i with
  | Some n => Some (set_nth l n v)
  | None => None
  end.

(** [s[a:b]] with [a] and [b] possibly negative: both bounds are clamped
    to [0, len]. *)
Definition clamp (len : nat) (i : Z) : nat :=
  if (i <? 0)%Z then Z.to_nat (Z.max 0 (i + Z.of_nat len))
  else Nat.min (Z.to_nat i) len.

Definition slice (s : string) (a b : Z) : string :=
  let n := String.length s in
  let lo := clamp n a in
  let hi := clamp n b in
  substring lo (hi - lo) s.

(** [s[a:]]. *)
Definition slice_from (s : string) (a : nat) : string :=
  substring a (String.length s - a) s.

(** [int(s)] for a string of ASCII decimal digits. Other spellings that
    [int] accepts (a sign, surrounding blanks, underscores) are not part of
    the model: they give [None], like the strings on which [int] raises
    [ValueError]. *)
Definition digit_of (c : ascii) : option Z :=
  let n := nat_of_ascii c in
  if (48 <=? n) && (n <=? 57) then Some (Z.of_nat (n - 48)) else None.

Fixpoint int_digits (acc : Z) (s : string) : option Z :=
  match s with
  | EmptyString => Some acc
  | String c r =>
      match digit_of c with
      | Some d => int_digits (10 * acc + d)%Z r
      | None => None
      end
  end.

Definition py_int (s : string) : option Z :=
  match s with
  | EmptyString => None
  | _ => int_digits 0 s
  end.

(** Sequencing of computations that may raise. *)
Definition obind {A B} (e : option A) (k : A -> option B) : option B :=
  match e with
  | Some x => k x
  | None => None
  end.

Lemma obind_Some {A B} (e : option A) (k : A -> option B) b :
  obind e k = Some b -> exists a, e = Some a /\ k a = Some b.
Proof. destruct e as [a|]; [eauto | discriminate]. Qed.

Lemma py_index_lt len i n : py_index len i = Some n -> n < len.
Proof.
  unfold py_index.
  destruct ((0 <=? i) && (i <? Z.of_nat len))%Z eqn:E1.
  - intros [= <-]. lia.
  - destruct ((- Z.of_nat len <=? i) && (i <? 0))%Z eqn:E2; [|discriminate].
    intros [= <-]. lia.
Qed.

Lemma py_index_nonneg len i :
  (0 <= i < Z.of_nat len)%Z -> py_index len i = Some (Z.to_nat i).
Proof.
  intros H. unfold py_index.
  replace ((0 <=? i) && (i <? Z.of_nat len))%Z with true; [reflexivity|].
  symmetry. apply andb_true_iff. split; lia.
Qed.

Lemma py_index_neg len i :
  (- Z.of_nat len <= i < 0)%Z ->
  py_index len i = Some (Z.to_nat (i + Z.of_nat len)).
Proof.
  intros H. unfold py_index.
  replace ((0 <=? i) && (i <? Z.of_nat len))%Z with false
    by (symmetry; apply andb_false_iff; left; lia).
  replace ((- Z.of_nat len <=? i) && (i <? 0))%Z with true; [reflexivity|].
  symmetry. apply andb_true_iff. split; lia.
Qed.

Lemma py_index_out len i :
  (i < - Z.of_nat len \/ Z.of_nat len <= i)%Z -> py_index len i = None.
Proof.
  intros H. unfold py_index.
  replace ((0 <=? i) && (i <? Z.of_nat len))%Z with false
    by (symmetry; apply andb_false_iff; lia).
  replace ((- Z.of_nat len <=? i) && (i <? 0))%Z with false; [reflexivity|].
  symmetry. apply andb_false_iff. lia.
Qed.

Lemma getitem_0 {A} (l : list A) : getitem l 0 = hd_error l.
Proof.
  destruct l as [|h t]; [reflexivity|].
  unfold getitem. rewrite py_index_nonneg by (simpl length; lia). reflexivity.
Qed.

Lemma getitem_last {A} (l : list A) (e : A) : getitem (l ++ [e]) (-1) = Some e.
Proof.
  unfold getitem.
  rewrite py_index_neg by (rewrite length_app; simpl; lia).
  rewrite length_app. cbn [length].
  replace (Z.to_nat (-1 + Z.of_nat (length l + 1))) with (length l) by lia.
  rewrite nth_error_app2 by lia. now rewrite Nat.sub_diag.
Qed.

Lemma getitem_last_nil {A} : getitem (@nil A) (-1) = None.
Proof. reflexivity. Qed.

Lemma py_index_of_nat len n :
  n < len -> py_index len (Z.of_nat n) = Some n.
Proof.
  intros H. rewrite py_index_nonneg by lia. now rewrite Nat2Z.id.
Qed.

Lemma length_set_nth {A} (l : list A) n v : length (set_nth l n v) = length l.
Proof.
  revert n; induction l as [|h t IH]; intros [|n]; simpl; auto.
Qed.

Lemma nth_error_set_nth_eq {A} (l : list A) n v :
  n < length l -> nth_error (set_nth l n v) n = Some v.
Proof.
  revert n; induction l as [|h t IH]; intros [|n] H; simpl in *; try lia; auto.
  apply IH; lia.
Qed.

Lemma nth_error_set_nth_ne {A} (l : list A) n m v :
  n <> m -> nth_error (set_nth l n v) m = nth_error l m.
Proof.
  revert n m; induction l as [|h t IH]; intros [|n] [|m] H; simpl; auto.
  congruence.
Qed.

End Py.

Notation "'let?' x ':=' e 'in' k" := (Py.obind e (fun x => k))
  (at level 10, x pattern, e at level 100, k at level 200).

(** ** Remote listing sanitation ([NEMWebCommon.build_file_lists]) *)

Module Listing.

(** [rzlist.sort()]: the model is an insertion sort for the order of
    [String.leb]. *)
Fixpoint insert_sorted (s : string) (l : list string) : list string :=
  match l with
  | [] => [s]
  | h :: t => if String.leb s h then s :: l else h :: insert_sorted s t
  end.

Definition sort (l : list string) : list string :=
  fold_right insert_sorted [] l.

(** [rzlist[-1]]. *)
Definition last_item (l : list string) : option string := Py.getitem l (-1).

(** The loop
[[
    while len(rzlist[-1]) != valid_len:
        rzlist.pop()
]]
    An empty list has no [rzlist[-1]]: the result is then [None]. *)
Equations? trim_loop (valid_len : nat) (rzlist : list string)
  : option (list string) by wf (length rzlist) lt :=
  trim_loop valid_len [] := None;
  trim_loop valid_len (h :: t) with last_item (h :: t) := {
    | None => None
    | Some e =>
        if String.length e =? valid_len then Some (h :: t)
        else trim_loop valid_len (removelast (h :: t)) }.
Proof.
  change (length (removelast (h :: t)) < length (h :: t)).
  rewrite (@app_removelast_last _ (h :: t) h) at 2 by discriminate.
  rewrite length_app. simpl. lia.
Qed.

(** The remote part of [build_file_lists], from the scraped list of URLs:
[[
    rzlist.sort()
    valid_len = len(rzlist[0])
    while len(rzlist[-1]) != valid_len: rzlist.pop()
    self.remote_zipfile_list = rzlist
]] *)
Definition remote_zipfile_list (scraped : list string) : option (list string) :=
  let rzlist := sort scraped in
  match Py.getitem rzlist 0 with
  | None => None
  | Some first => trim_loop (String.length first) rzlist
  end.

Lemma last_item_snoc l e : last_item (l ++ [e]) = Some e.
Proof. apply Py.getitem_last. Qed.

Lemma trim_loop_snoc v l e :
  trim_loop v (l ++ [e]) =
  if String.length e =? v then Some (l ++ [e]) else trim_loop v l.
Proof.
  destruct (l ++ [e]) as [|h t] eqn:E.
  - destruct l; discriminate.
  - simp trim_loop.
    replace (last_item (h :: t)) with (Some e)
      by (rewrite <- E; symmetry; apply last_item_snoc).
    cbn [trim_loop_unfold_clause_2].
    destruct (String.length e =? v); [reflexivity|].
    now rewrite <- E, removelast_last.
Qed.

(** The loop on a list whose first entry has the valid length: it stops
    with that entry still in the list, and what it popped had another
    length. *)
Lemma trim_loop_total v first rest :
  String.length first = v ->
  exists kept dropped,
    trim_loop v (first :: rest) = Some (first :: kept) /\
    rest = kept ++ dropped /\
    (exists e, last_item (first :: kept) = Some e /\ String.length e = v) /\
    Forall (fun e => String.length e <> v) dropped.
Proof.
  intros Hv. induction rest as [|e rest IH] using rev_ind.
  - exists [], []. repeat split; auto.
    + change [first] with ([] ++ [first]).
      now rewrite trim_loop_snoc, Hv, Nat.eqb_refl.
    + exists first. split; auto.
  - rewrite app_comm_cons, trim_loop_snoc.
    destruct (String.length e =? v) eqn:E.
    + exists (rest ++ [e]), []. rewrite app_nil_r. repeat split; auto.
      exists e. split; [|now apply Nat.eqb_eq].
      rewrite app_comm_cons. apply last_item_snoc.
    + destruct IH as (kept & dropped & H1 & H2 & H3 & H4).
      exists kept, (dropped ++ [e]). repeat split; auto.
      * rewrite H2. now rewrite app_assoc.
      * apply Forall_app. split; auto. constructor; auto.
        now apply Nat.eqb_neq.
Qed.

Lemma insert_sorted_perm s l : Permutation (s :: l) (insert_sorted s l).
Proof.
  induction l as [|h t IH]; simpl; auto.
  destruct (String.leb s h); auto.
  rewrite perm_swap. now constructor.
Qed.

Lemma sort_perm l : Permutation l (sort l).
Proof.
  induction l as [|h t IH]; simpl; auto.
  rewrite <- insert_sorted_perm. now constructor.
Qed.

(** C10. Trailing-variant trim safety: on a non-empty remote listing the
    trimming loop of [build_file_lists] returns (it terminates without an
    index error), the list it leaves is not empty and still starts with the
    first entry of the sorted listing, only entries of another length were
    popped from the end, and the last entry left has the length of the
    first. On an empty listing the first access [rzlist[0]] has no result. *)
Theorem trim_keeps_first_entry (scraped : list string) :
  Py.getitem (sort []) 0 = None /\ remote_zipfile_list [] = None /\
  (scraped <> [] ->
   exists first kept dropped last_kept,
     sort scraped = (first :: kept) ++ dropped /\
     remote_zipfile_list scraped = Some (first :: kept) /\
     Py.getitem (first :: kept) 0 = Some first /\
     Py.getitem (first :: kept) (-1) = Some last_kept /\
     String.length last_kept = String.length first /\
     Forall (fun e => String.length e <> String.length first) dropped).
Proof.
  split; [reflexivity|]. split; [reflexivity|]. intros Hne.
  unfold remote_zipfile_list.
  destruct (sort scraped) as [|first rest] eqn:E.
  - exfalso. pose proof (sort_perm scraped) as P. rewrite E in P.
    apply Permutation_sym, Permutation_nil in P. contradiction.
  - rewrite Py.getitem_0. cbn [hd_error].
    destruct (@trim_loop_total (String.length first) first rest eq_refl)
      as (kept & dropped & H1 & H2 & (e & H3 & H4) & H5).
    exists first, kept, dropped, e. repeat split; auto.
    now rewrite H2.
Qed.

Lemma trim_keeps_first_entry_witness :
  exists first kept dropped last_kept,
    sort ["b_20240102.zip"; "a_20240101.zip"; "c_SATELLITE_20240103.zip"]
      = (first :: kept) ++ dropped /\
    remote_zipfile_list
      ["b_20240102.zip"; "a_20240101.zip"; "c_SATELLITE_20240103.zip"]
      = Some (first :: kept) /\
    Py.getitem (first :: kept) 0 = Some first /\
    Py.getitem (first :: kept) (-1) = Some last_kept /\
    String.length last_kept = String.length first /\
    Forall (fun e => String.length e <> String.length first) dropped.
Proof.
  apply (proj2 (proj2 (trim_keeps_first_entry
    ["b_20240102.zip"; "a_20240101.zip"; "c_SATELLITE_20240103.zip"]))).
  intro H. discriminate H.
Defined.

Example trim_satellite :
  remote_zipfile_list
    ["b_20240102.zip"; "a_20240101.zip"; "c_SATELLITE_20240103.zip"]
  = Some ["a_20240101.zip"; "b_20240102.zip"].
Proof. reflexivity. Qed.

End Listing.

(** ** Dates ([datetime.datetime] at midnight, [datetime.timedelta] in days)

    The functions below are those of CPython's [datetime] module
    ([_is_leap], [_days_before_year], [_days_in_month],
    [_days_before_month], [_ymd2ord], [_ord2ymd]) in the proleptic
    Gregorian calendar. *)

Module Calendar.

Local Open Scope Z_scope.

Record date : Type := mkdate { year : Z; month : Z; day : Z }.

Definition MINYEAR : Z := 1.
Definition MAXYEAR : Z := 9999.
Definition MAXORDINAL : Z := 3652059.

Definition is_leap (y : Z) : bool :=
  (y mod 4 =? 0) && (negb (y mod 100 =? 0) || (y mod 400 =? 0)).

Definition DAYS_IN_MONTH (m : Z) : Z :=
  match m with
  | 1 => 31 | 2 => 28 | 3 => 31 | 4 => 30 | 5 => 31 | 6 => 30
  | 7 => 31 | 8 => 31 | 9 => 30 | 10 => 31 | 11 => 30 | 12 => 31
  | _ => -1
  end.

Definition DAYS_BEFORE_MONTH (m : Z) : Z :=
  match m with
  | 1 => 0 | 2 => 31 | 3 => 59 | 4 => 90 | 5 => 120 | 6 => 151
  | 7 => 181 | 8 => 212 | 9 => 243 | 10 => 273 | 11 => 304 | 12 => 334
  | _ => -1
  end.

Definition days_before_year (y : Z) : Z :=
  let y := y - 1 in y * 365 + y / 4 - y / 100 + y / 400.

Definition days_in_month (y m : Z) : Z :=
  if (m =? 2) && is_leap y then 29 else DAYS_IN_MONTH m.

Definition days_before_month (y m : Z) : Z :=
  DAYS_BEFORE_MONTH m + (if (2 <? m) && is_leap y then 1 else 0).

Definition ymd2ord (y m d : Z) : Z :=
  days_before_year y + days_before_month y m + d.

Definition DI400Y : Z := 146097.
Definition DI100Y : Z := 36524.
Definition DI4Y : Z := 1461.

Definition ord2ymd (n : Z) : Z * Z * Z :=
  let n := n - 1 in
  let n400 := n / DI400Y in
  let n := n mod DI400Y in
  let year := n400 * 400 + 1 in
  let n100 := n / DI100Y in
  let n := n mod DI100Y in
  let n4 := n / DI4Y in
  let n := n mod DI4Y in
  let n1 := n / 365 in
  let n := n mod 365 in
  let year := year + n100 * 100 + n4 * 4 + n1 in
  if (n1 =? 4) || (n100 =? 4) then (year - 1, 12, 31)
  else
    let leapyear := (n1 =? 3) && (negb (n4 =? 24) || (n100 =? 3)) in
    let month := Z.shiftr (n + 50) 5 in
    let preceding :=
      DAYS_BEFORE_MONTH month + (if (2 <? month) && leapyear then 1 else 0) in
    if n <? preceding then
      let month := month - 1 in
      let preceding :=
        preceding
        - (DAYS_IN_MONTH month + (if (month =? 2) && leapyear then 1 else 0)) in
      (year, month, n - preceding + 1)
    else (year, month, n - preceding + 1).

(** [_check_date_fields]: the constructor raises [ValueError] outside
    these ranges. *)
Definition valid_ymd (y m d : Z) : bool :=
  (MINYEAR <=? y) && (y <=? MAXYEAR) && (1 <=? m) && (m <=? 12)
  && (1 <=? d) && (d <=? days_in_month y m).

(** [datetime(y, m, d)]. *)
Definition datetime (y m d : Z) : option date :=
  if valid_ymd y m d then Some (mkdate y m d) else None.

Definition toordinal (dt : date) : Z := ymd2ord (year dt) (month dt) (day dt).

Definition fromordinal (n : Z) : date :=
  let '(y, m, d) := ord2ymd n in mkdate y m d.

(** [dt.weekday()]: Monday is 0, Thursday is 3. *)
Definition weekday (dt : date) : Z := (toordinal dt + 6) mod 7.

(** [dt + timedelta(days=k)]; [OverflowError] outside [1, MAXORDINAL]. *)
Definition add_days (dt : date) (k : Z) : option date :=
  let o := toordinal dt + k in
  if (0 <? o) && (o <=? MAXORDINAL) then Some (fromordinal o) else None.

(** [dt.replace(day=d)]. *)
Definition replace_day (dt : date) (d : Z) : option date :=
  datetime (year dt) (month dt) d.

(** Comparison of two datetimes at midnight: the lexicographic order of
    (year, month, day). *)
Definition date_compare (a b : date) : comparison :=
  match year a ?= year b with
  | Eq => match month a ?= month b with
          | Eq => day a ?= day b
          | c => c
          end
  | c => c
  end.

Definition date_ltb (a b : date) : bool :=
  match date_compare a b with Lt => true | _ => false end.

Definition date_leb (a b : date) : bool :=
  match date_compare a b with Gt => false | _ => true end.

Definition valid_date (dt : date) : Prop :=
  valid_ymd (year dt) (month dt) (day dt) = true.

Ltac div_lia := Z.to_euclidean_division_equations; lia.

Ltac tables :=
  cbn [DAYS_BEFORE_MONTH DAYS_IN_MONTH Z.eqb Z.ltb Z.compare Pos.eqb
       Pos.compare Pos.compare_cont andb orb negb] in *.

Lemma is_leap_spec y :
  is_leap y = true <-> (y mod 4 = 0 /\ (y mod 100 <> 0 \/ y mod 400 = 0)).
Proof.
  unfold is_leap.
  rewrite andb_true_iff, orb_true_iff, negb_true_iff, !Z.eqb_eq, Z.eqb_neq.
  tauto.
Qed.

Lemma days_before_year_decomp a b c d :
  0 <= b <= 3 -> 0 <= c <= 24 -> 0 <= d <= 3 ->
  days_before_year (400 * a + 100 * b + 4 * c + d + 1)
  = 146097 * a + 36524 * b + 1461 * c + 365 * d.
Proof.
  intros Hb Hc Hd. unfold days_before_year. cbv zeta. div_lia.
Qed.

Lemma is_leap_decomp a b c d :
  0 <= b <= 3 -> 0 <= c <= 24 -> 0 <= d <= 3 ->
  is_leap (400 * a + 100 * b + 4 * c + d + 1)
  = (d =? 3) && (negb (c =? 24) || (b =? 3)).
Proof.
  intros Hb Hc Hd.
  apply eq_true_iff_eq. rewrite is_leap_spec.
  rewrite andb_true_iff, orb_true_iff, negb_true_iff, !Z.eqb_eq, Z.eqb_neq.
  div_lia.
Qed.

(** The month and day of the [n]-th day (from 0) of a year. *)
Lemma month_estimate (leap : bool) (n : Z) :
  0 <= n < 365 ->
  let month := Z.shiftr (n + 50) 5 in
  let preceding :=
    DAYS_BEFORE_MONTH month + (if (2 <? month) && leap then 1 else 0) in
  let '(m, p) :=
    if n <? preceding
    then (month - 1,
          preceding - (DAYS_IN_MONTH (month - 1)
                       + (if (month - 1 =? 2) && leap then 1 else 0)))
    else (month, preceding) in
  1 <= m <= 12 /\
  p = DAYS_BEFORE_MONTH m + (if (2 <? m) && leap then 1 else 0) /\
  1 <= n - p + 1 <= (if (m =? 2) && leap then 29 else DAYS_IN_MONTH m).
Proof.
  intros Hn. cbv zeta. rewrite Z.shiftr_div_pow2 by lia.
  change (2 ^ 5) with 32.
  assert (Hm : 1 <= (n + 50) / 32 <= 12) by div_lia.
  remember ((n + 50) / 32) as m eqn:Em.
  assert (Hcases : m = 1 \/ m = 2 \/ m = 3 \/ m = 4 \/ m = 5 \/ m = 6 \/
                   m = 7 \/ m = 8 \/ m = 9 \/ m = 10 \/ m = 11 \/ m = 12) by lia.
  assert (Hlo : 32 * m - 50 <= n <= 32 * m - 19) by (subst m; div_lia).
  clear Em.
  destruct leap;
  repeat (destruct Hcases as [-> | Hcases]); try subst m; cbn;
  match goal with |- context [n <? ?p] => destruct (n <? p) eqn:E end;
  cbn; lia.
Qed.

Lemma days_in_month_12 y : days_in_month y 12 = 31.
Proof. reflexivity. Qed.

Lemma days_before_month_12 y :
  days_before_month y 12 = 334 + (if is_leap y then 1 else 0).
Proof. reflexivity. Qed.

Lemma ord2ymd_spec n :
  1 <= n ->
  let '(y, m, d) := ord2ymd n in
  1 <= y /\ 1 <= m <= 12 /\ 1 <= d <= days_in_month y m /\ ymd2ord y m d = n.
Proof.
  intros Hn. unfold ord2ymd, DI400Y, DI100Y, DI4Y. cbv zeta.
  remember ((n - 1) / 146097) as a eqn:Ea.
  remember ((n - 1) mod 146097) as r eqn:Er.
  remember (r / 36524) as b eqn:Eb.
  remember (r mod 36524) as r1 eqn:Er1.
  remember (r1 / 1461) as c eqn:Ec.
  remember (r1 mod 1461) as r2 eqn:Er2.
  remember (r2 / 365) as d eqn:Ed.
  remember (r2 mod 365) as e eqn:Ee.
  assert (Hdec : n - 1 = 146097 * a + 36524 * b + 1461 * c + 365 * d + e
                 /\ 0 <= a /\ 0 <= b <= 4 /\ 0 <= c <= 24 /\ 0 <= d <= 4
                 /\ 0 <= e < 365
                 /\ (b = 4 -> c = 0 /\ d = 0 /\ e = 0)
                 /\ (d = 4 -> e = 0 /\ c <= 23))
    by (subst; div_lia).
  clear Ea Er Eb Er1 Ec Er2 Ed Ee r r1 r2.
  destruct Hdec as (HN & Ha & Hb & Hc & Hd & He & Hb4 & Hd4).
  destruct ((d =? 4) || (b =? 4)) eqn:Hlast.
  - (* the last day of a leap year *)
    apply orb_true_iff in Hlast. rewrite !Z.eqb_eq in Hlast.
    remember (a * 400 + 1 + b * 100 + c * 4 + d - 1) as Y eqn:EY.
    assert (Hleap : is_leap Y = true) by (apply is_leap_spec; div_lia).
    assert (Hdby : days_before_year Y = n - 1 - 365)
      by (unfold days_before_year; div_lia).
    unfold ymd2ord. rewrite days_in_month_12, days_before_month_12.
    rewrite Hleap, Hdby. lia.
  - apply orb_false_iff in Hlast. rewrite !Z.eqb_neq in Hlast.
    pose proof (@month_estimate ((d =? 3) && (negb (c =? 24) || (b =? 3))) e He)
      as Hme.
    cbv zeta in Hme.
    remember ((d =? 3) && (negb (c =? 24) || (b =? 3))) as leap eqn:El.
    assert (Hy : a * 400 + 1 + b * 100 + c * 4 + d
                 = 400 * a + 100 * b + 4 * c + d + 1) by lia.
    rewrite Hy.
    assert (Hleap : is_leap (400 * a + 100 * b + 4 * c + d + 1) = leap)
      by (rewrite El; apply is_leap_decomp; lia).
    assert (Hdby : days_before_year (400 * a + 100 * b + 4 * c + d + 1)
                   = 146097 * a + 36524 * b + 1461 * c + 365 * d)
      by (apply days_before_year_decomp; lia).
    destruct (e <? _) eqn:Elt;
      unfold ymd2ord, days_in_month, days_before_month;
      rewrite Hleap, Hdby;
      destruct Hme as (Hm & Hp & Hday);
      (split; [lia|]); (split; [lia|]); (split; [exact Hday|]);
      try rewrite <- Hp; lia.
Qed.

Lemma toordinal_fromordinal n : 1 <= n -> toordinal (fromordinal n) = n.
Proof.
  intros Hn. pose proof (ord2ymd_spec Hn) as H.
  unfold fromordinal, toordinal. destruct (ord2ymd n) as [[y m] d].
  cbn. tauto.
Qed.

(** The month and the day of a date are in range ([year] is not bounded
    here). *)
Definition in_calendar (dt : date) : Prop :=
  1 <= month dt <= 12 /\ 1 <= day dt <= days_in_month (year dt) (month dt).

Lemma fromordinal_in_calendar n :
  1 <= n -> in_calendar (fromordinal n) /\ 1 <= year (fromordinal n).
Proof.
  intros Hn. pose proof (ord2ymd_spec Hn) as H.
  unfold fromordinal, in_calendar. destruct (ord2ymd n) as [[y m] d].
  cbn. tauto.
Qed.

Lemma valid_ymd_spec y m d :
  valid_ymd y m d = true <->
  (1 <= y <= 9999 /\ 1 <= m <= 12 /\ 1 <= d <= days_in_month y m).
Proof.
  unfold valid_ymd, MINYEAR, MAXYEAR.
  rewrite !andb_true_iff, !Z.leb_le. tauto.
Qed.

Lemma valid_in_calendar dt : valid_date dt -> in_calendar dt.
Proof.
  unfold valid_date, in_calendar. rewrite valid_ymd_spec. tauto.
Qed.

Lemma datetime_Some y m d dt :
  datetime y m d = Some dt ->
  dt = mkdate y m d /\ valid_date dt.
Proof.
  unfold datetime, valid_date. destruct (valid_ymd y m d) eqn:E; [|discriminate].
  intros [= <-]. auto.
Qed.

Lemma days_before_year_succ y :
  days_before_year (y + 1)
  = days_before_year y + 365 + (if is_leap y then 1 else 0).
Proof.
  unfold days_before_year. cbv zeta.
  destruct (is_leap y) eqn:E.
  - apply is_leap_spec in E. div_lia.
  - assert (N : ~ (y mod 4 = 0 /\ (y mod 100 <> 0 \/ y mod 400 = 0))).
    { intro H. apply is_leap_spec in H. congruence. }
    div_lia.
Qed.

Lemma days_before_year_mono y1 y2 :
  y1 <= y2 -> days_before_year y1 <= days_before_year y2.
Proof. intros H. unfold days_before_year. cbv zeta. div_lia. Qed.

(** The position of a day in its year. *)
Lemma day_of_year_bounds y m d :
  1 <= m <= 12 -> 1 <= d <= days_in_month y m ->
  1 <= days_before_month y m + d <= 365 + (if is_leap y then 1 else 0).
Proof.
  intros Hm Hd. unfold days_before_month, days_in_month in *.
  assert (Hc : m = 1 \/ m = 2 \/ m = 3 \/ m = 4 \/ m = 5 \/ m = 6 \/
               m = 7 \/ m = 8 \/ m = 9 \/ m = 10 \/ m = 11 \/ m = 12) by lia.
  destruct (is_leap y);
    repeat (destruct Hc as [-> | Hc]); try subst m; tables; lia.
Qed.

Lemma days_before_month_mono y m1 m2 d :
  1 <= m1 -> m1 < m2 <= 12 -> 1 <= d <= days_in_month y m1 ->
  days_before_month y m1 + d <= days_before_month y m2.
Proof.
  intros H1 H2 Hd. unfold days_before_month, days_in_month in *.
  assert (Hc : m1 = 1 \/ m1 = 2 \/ m1 = 3 \/ m1 = 4 \/ m1 = 5 \/ m1 = 6 \/
               m1 = 7 \/ m1 = 8 \/ m1 = 9 \/ m1 = 10 \/ m1 = 11) by lia.
  assert (Hc2 : m2 = 2 \/ m2 = 3 \/ m2 = 4 \/ m2 = 5 \/ m2 = 6 \/
               m2 = 7 \/ m2 = 8 \/ m2 = 9 \/ m2 = 10 \/ m2 = 11 \/ m2 = 12) by lia.
  destruct (is_leap y);
    repeat (destruct Hc as [-> | Hc]); try subst m1;
    repeat (destruct Hc2 as [-> | Hc2]); try subst m2; tables; lia.
Qed.

Lemma toordinal_lt a b :
  in_calendar a -> in_calendar b ->
  date_compare a b = Lt -> toordinal a < toordinal b.
Proof.
  intros [Hma Hda] [Hmb Hdb]. unfold date_compare, toordinal, ymd2ord.
  destruct a as [ya ma da], b as [yb mb db]. cbn [year month day] in *.
  destruct (Z.compare_spec ya yb) as [-> | Hy | Hy]; try discriminate.
  - destruct (Z.compare_spec ma mb) as [-> | Hm | Hm]; try discriminate.
    + intros H. rewrite Z.compare_lt_iff in H. lia.
    + intros _. pose proof (@days_before_month_mono yb ma mb da). lia.
  - intros _.
    pose proof (@day_of_year_bounds ya ma da Hma Hda).
    pose proof (@day_of_year_bounds yb mb db Hmb Hdb).
    pose proof (days_before_year_succ ya).
    pose proof (@days_before_year_mono (ya + 1) yb). lia.
Qed.

Lemma date_compare_eq a b : date_compare a b = Eq -> a = b.
Proof.
  unfold date_compare. destruct a as [ya ma da], b as [yb mb db]. cbn [year month day].
  destruct (Z.compare_spec ya yb); try discriminate.
  destruct (Z.compare_spec ma mb); try discriminate.
  intros Hd. apply Z.compare_eq in Hd. congruence.
Qed.

Lemma date_compare_antisym a b :
  date_compare b a = CompOpp (date_compare a b).
Proof.
  unfold date_compare. destruct a as [ya ma da], b as [yb mb db]. cbn [year month day].
  rewrite (Z.compare_antisym ya yb), (Z.compare_antisym ma mb),
    (Z.compare_antisym da db).
  destruct (ya ?= yb), (ma ?= mb), (da ?= db); reflexivity.
Qed.

(** On the calendar the order of datetimes is the order of ordinals. *)
Lemma date_leb_toordinal a b :
  in_calendar a -> in_calendar b ->
  (date_leb a b = true <-> toordinal a <= toordinal b).
Proof.
  intros Ha Hb. unfold date_leb.
  destruct (date_compare a b) eqn:E.
  - apply date_compare_eq in E. subst. split; auto; lia.
  - pose proof (toordinal_lt Ha Hb E). split; auto; lia.
  - assert (E' : date_compare b a = Lt) by (rewrite date_compare_antisym, E; auto).
    pose proof (toordinal_lt Hb Ha E'). split; [discriminate | lia].
Qed.

Lemma date_ltb_toordinal a b :
  in_calendar a -> in_calendar b ->
  (date_ltb a b = true <-> toordinal a < toordinal b).
Proof.
  intros Ha Hb. unfold date_ltb.
  destruct (date_compare a b) eqn:E.
  - apply date_compare_eq in E. subst. split; [discriminate | lia].
  - pose proof (toordinal_lt Ha Hb E). split; auto; lia.
  - assert (E' : date_compare b a = Lt) by (rewrite date_compare_antisym, E; auto).
    pose proof (toordinal_lt Hb Ha E'). split; [discriminate | lia].
Qed.

Lemma toordinal_pos dt : in_calendar dt -> 1 <= year dt -> 1 <= toordinal dt.
Proof.
  intros [Hm Hd] Hy. unfold toordinal, ymd2ord.
  pose proof (@day_of_year_bounds (year dt) (month dt) (day dt) Hm Hd).
  pose proof (@days_before_year_mono 1 (year dt) Hy).
  change (days_before_year 1) with 0 in *. lia.
Qed.

Lemma toordinal_max dt :
  in_calendar dt -> year dt <= 9999 -> toordinal dt <= MAXORDINAL.
Proof.
  intros [Hm Hd] Hy. unfold toordinal, ymd2ord.
  pose proof (@day_of_year_bounds (year dt) (month dt) (day dt) Hm Hd).
  pose proof (days_before_year_succ (year dt)).
  pose proof (@days_before_year_mono (year dt + 1) 10000).
  change (days_before_year 10000) with MAXORDINAL in *. lia.
Qed.

(** The year of a day is fixed by the ordinals of the surrounding first of
    January. *)
Lemma year_of_ordinal dt y :
  in_calendar dt ->
  days_before_year y < toordinal dt <= days_before_year (y + 1) ->
  year dt = y.
Proof.
  intros [Hm Hd] H. unfold toordinal, ymd2ord in H.
  pose proof (@day_of_year_bounds (year dt) (month dt) (day dt) Hm Hd).
  pose proof (days_before_year_succ (year dt)).
  destruct (Z.lt_trichotomy (year dt) y) as [L | [E | G]]; auto.
  - pose proof (@days_before_year_mono (year dt + 1) y). lia.
  - pose proof (@days_before_year_mono (y + 1) (year dt)). lia.
Qed.

Lemma weekday_fromordinal n : 1 <= n -> weekday (fromordinal n) = (n + 6) mod 7.
Proof. intros H. unfold weekday. now rewrite toordinal_fromordinal. Qed.

End Calendar.

(** ** Window selection ([NEMWeb.calculate_most_recent_full_twelve_months]) *)

Module Window.

Import Calendar.
Local Open Scope Z_scope.

(** A file descriptor [(is_zip, filepath)]. *)
Definition descriptor : Type := (bool * string)%type.

(** The period key [filepath[-12:-4]]. *)
Definition ymd_of (filepath : string) : string := Py.slice filepath (-12) (-4).

(** [NEMWeb.dateof]:
    [datetime(int(s[:4]), int(s[4:6]), int(s[6:8]))]. *)
Definition dateof (s : string) : option date :=
  let? y := Py.py_int (Py.slice s 0 4) in
  let? m := Py.py_int (Py.slice s 4 6) in
  let? d := Py.py_int (Py.slice s 6 8) in
  datetime y m d.

Record window : Type := mkwindow {
  daily_start : date;     (* dispatch_scada.start_date *)
  daily_end : date;       (* dispatch_scada.end_date *)
  weekly_start : date;    (* rooftop_pv.start_date *)
  weekly_end : date       (* rooftop_pv.end_date *)
}.

(** The earlier of the two candidate end dates:
[[
    if earliest_end_date > weekly:
        earliest_end_date = weekly
]] *)
Definition earlier (earliest_end_date weekly : date) : date :=
  if date_ltb weekly earliest_end_date then weekly else earliest_end_date.

(** The function returns the four dates it stores and whether it printed
    the "full twelve months is not available" warning. *)
Definition calculate_most_recent_full_twelve_months
    (day_list week_list : list descriptor) : option (window * bool) :=
  let? day_last := Py.getitem day_list (-1) in
  let? week_last := Py.getitem week_list (-1) in
  let? last_day := dateof (ymd_of (snd day_last)) in
  let? earliest_end_date := add_days last_day 1 in
  let? last_week := dateof (ymd_of (snd week_last)) in
  let? weekly := add_days last_week 7 in
  let earliest_end_date := earlier earliest_end_date weekly in
  let? end_daily_day := replace_day earliest_end_date 1 in
  let? start_daily_day :=
    datetime (year end_daily_day - 1) (month end_daily_day) 1 in
  let i := (weekday start_daily_day - 3) mod 7 in
  let? start_weekly_day := add_days start_daily_day (- i) in
  let i := (3 - weekday end_daily_day) mod 7 in
  let? end_weekly_day := add_days end_daily_day i in
  let? day_first := Py.getitem day_list 0 in
  let? week_first := Py.getitem week_list 0 in
  let? first_day := dateof (ymd_of (snd day_first)) in
  let? warning :=
    (if date_ltb start_daily_day first_day then Some true
     else let? first_week := dateof (ymd_of (snd week_first)) in
          Some (date_ltb start_weekly_day first_week)) in
  Some (mkwindow start_daily_day end_daily_day start_weekly_day end_weekly_day,
        warning).

Example window_2025 :
  calculate_most_recent_full_twelve_months
    [(false, "PUBLIC_DISPATCHSCADA_20240101.pkl");
     (true, "PUBLIC_DISPATCHSCADA_20250212.zip")]
    [(false, "PUBLIC_ROOFTOP_PV_ACTUAL_MEASUREMENT_20231228.pkl");
     (true, "PUBLIC_ROOFTOP_PV_ACTUAL_MEASUREMENT_20250206.zip")]
  = Some (mkwindow (mkdate 2024 2 1) (mkdate 2025 2 1)
                   (mkdate 2024 2 1) (mkdate 2025 2 6), false).
Proof. vm_compute. reflexivity. Qed.

Ltac peel H :=
  repeat match type of H with
         | Py.obind _ _ = Some _ =>
             let x := fresh "x" in
             let Hx := fresh "Hx" in
             apply Py.obind_Some in H; destruct H as (x & Hx & H)
         end.

Lemma add_days_Some dt k r :
  add_days dt k = Some r ->
  1 <= toordinal dt + k /\ r = fromordinal (toordinal dt + k).
Proof.
  unfold add_days.
  destruct ((0 <? toordinal dt + k) && (toordinal dt + k <=? MAXORDINAL)) eqn:E;
    [|discriminate].
  apply andb_true_iff in E. destruct E as [E _]. apply Z.ltb_lt in E.
  intros [= <-]. split; [lia | reflexivity].
Qed.

Lemma add_days_facts dt k r :
  add_days dt k = Some r ->
  in_calendar r /\ toordinal r = toordinal dt + k
  /\ weekday r = (toordinal dt + k + 6) mod 7.
Proof.
  intros H. apply add_days_Some in H. destruct H as [Hpos ->].
  split; [apply fromordinal_in_calendar; lia|].
  split; [apply toordinal_fromordinal; lia|].
  apply weekday_fromordinal; lia.
Qed.

(** The earlier of two dates of the calendar is the one with the smaller
    ordinal. *)
Lemma earlier_is_min (e1 e2 : date) :
  in_calendar e1 -> in_calendar e2 ->
  (earlier e1 e2 = e1 \/ earlier e1 e2 = e2) /\
  toordinal (earlier e1 e2) = Z.min (toordinal e1) (toordinal e2).
Proof.
  intros H1 H2. unfold earlier.
  pose proof (date_ltb_toordinal H2 H1) as L.
  destruct (date_ltb e2 e1).
  - split; [now right|]. assert (toordinal e2 < toordinal e1) by now apply L.
    lia.
  - split; [now left|].
    assert (~ toordinal e2 < toordinal e1) by (intros G; apply L in G; discriminate).
    lia.
Qed.

(** The first day of the month of a date lies [day - 1] days before it. *)
Lemma first_of_month_ordinal (dt : date) :
  toordinal dt - toordinal (mkdate (year dt) (month dt) 1) = day dt - 1.
Proof. unfold toordinal, ymd2ord. cbn [year month day]. lia. Qed.

(** C4. Window selection: whenever the function computes a window, the
    date [e] is the minimum of (last daily period + 1 day) and (last weekly
    period + 7 days): it is one of the two, its ordinal is the smaller of
    their ordinals, so it is the date of the ordinal
    min (last daily + 1, last weekly + 7). The daily end is the first day of
    the month of [e], [day e - 1] days before [e]; the daily start is the
    first day of the same month one year before, so both daily bounds fall
    on a first of the month, one year apart with equal months; the weekly
    window contains the daily one, its two bounds are Thursdays
    ([weekday() = 3]) and each lies less than a week outside the daily
    bound. *)
Theorem window_alignment (day_list week_list : list descriptor)
    (w : window) (warning : bool) :
  calculate_most_recent_full_twelve_months day_list week_list
    = Some (w, warning) ->
  (exists day_last week_last last_day last_week e1 e2 e,
      Py.getitem day_list (-1) = Some day_last /\
      Py.getitem week_list (-1) = Some week_last /\
      dateof (ymd_of (snd day_last)) = Some last_day /\
      dateof (ymd_of (snd week_last)) = Some last_week /\
      add_days last_day 1 = Some e1 /\ add_days last_week 7 = Some e2 /\
      toordinal e1 = toordinal last_day + 1 /\
      toordinal e2 = toordinal last_week + 7 /\
      e = earlier e1 e2 /\ (e = e1 \/ e = e2) /\
      toordinal e = Z.min (toordinal e1) (toordinal e2) /\
      e = fromordinal
            (Z.min (toordinal last_day + 1) (toordinal last_week + 7)) /\
      daily_end w = mkdate (year e) (month e) 1 /\
      toordinal e - toordinal (daily_end w) = day e - 1 /\
      1 <= day e) /\
  daily_start w = mkdate (year (daily_end w) - 1) (month (daily_end w)) 1 /\
  day (daily_start w) = 1 /\ day (daily_end w) = 1 /\
  year (daily_end w) - year (daily_start w) = 1 /\
  month (daily_end w) = month (daily_start w) /\
  date_leb (weekly_start w) (daily_start w) = true /\
  date_leb (daily_end w) (weekly_end w) = true /\
  weekday (weekly_start w) = 3 /\ weekday (weekly_end w) = 3 /\
  toordinal (daily_start w) - toordinal (weekly_start w) < 7 /\
  toordinal (weekly_end w) - toordinal (daily_end w) < 7.
Proof.
  unfold calculate_most_recent_full_twelve_months. intros H. peel H.
  injection H as Hw _. subst w.
  cbn [daily_start daily_end weekly_start weekly_end].
  rename x into day_last, x0 into week_last, x1 into last_day, x2 into e1,
    x3 into last_week, x4 into e2, x5 into end_daily, x6 into start_daily,
    x7 into start_weekly, x8 into end_weekly.
  unfold replace_day in Hx5.
  apply datetime_Some in Hx5. destruct Hx5 as [Eend Vend].
  apply datetime_Some in Hx6. destruct Hx6 as [Estart Vstart].
  apply add_days_facts in Hx7. destruct Hx7 as (Csw & Osw & Wsw).
  apply add_days_facts in Hx8. destruct Hx8 as (Cew & Oew & Wew).
  pose proof (valid_in_calendar Vend) as Cend.
  pose proof (valid_in_calendar Vstart) as Cstart.
  unfold weekday in *.
  split.
  { pose proof (add_days_facts _ _ Hx2) as (C1 & O1 & _).
    pose proof (add_days_facts _ _ Hx4) as (C2 & O2 & _).
    destruct (earlier_is_min C1 C2) as [Hor Hmin].
    assert (Cmin : in_calendar (earlier e1 e2))
      by (destruct Hor as [-> | ->]; assumption).
    exists day_last, week_last, last_day, last_week, e1, e2, (earlier e1 e2).
    repeat (split; [assumption || reflexivity|]).
    split.
    { rewrite <- O1, <- O2, <- Hmin.
      apply add_days_Some in Hx2, Hx4.
      destruct Hx2 as [P1 F1], Hx4 as [P2 F2].
      destruct Hor as [E | E]; rewrite E.
      - rewrite O1. exact F1.
      - rewrite O2. exact F2. }
    split; [exact Eend|]. split.
    { rewrite Eend. apply first_of_month_ordinal. }
    destruct Cmin as [_ Hd]. lia. }
  split; [exact Estart|].
  split; [now rewrite Estart|]. split; [now rewrite Eend|].
  split; [rewrite Estart; cbn [year]; lia|].
  split; [now rewrite Estart|].
  split; [apply date_leb_toordinal; auto; rewrite Osw; div_lia|].
  split; [apply date_leb_toordinal; auto; rewrite Oew; div_lia|].
  split; [rewrite Osw; div_lia|].
  split; [rewrite Oew; div_lia|].
  split; [rewrite Osw | rewrite Oew]; div_lia.
Qed.

(** The last daily file is of 5 March 2025 and the last weekly file of
    20 February 2025: the end is cut from 27 February, the earlier of
    6 March and 27 February. *)
Example window_weekly_first :
  calculate_most_recent_full_twelve_months
    [(false, "PUBLIC_DISPATCHSCADA_20240101.pkl");
     (true, "PUBLIC_DISPATCHSCADA_20250305.zip")]
    [(false, "PUBLIC_ROOFTOP_PV_ACTUAL_MEASUREMENT_20231228.pkl");
     (true, "PUBLIC_ROOFTOP_PV_ACTUAL_MEASUREMENT_20250220.zip")]
  = Some (mkwindow (mkdate 2024 2 1) (mkdate 2025 2 1)
                   (mkdate 2024 2 1) (mkdate 2025 2 6), false).
Proof. vm_compute. reflexivity. Qed.

Lemma window_alignment_witness :
  let day_list :=
    [(false, "PUBLIC_DISPATCHSCADA_20240101.pkl");
     (true, "PUBLIC_DISPATCHSCADA_20250305.zip")] in
  let week_list :=
    [(false, "PUBLIC_ROOFTOP_PV_ACTUAL_MEASUREMENT_20231228.pkl");
     (true, "PUBLIC_ROOFTOP_PV_ACTUAL_MEASUREMENT_20250220.zip")] in
  let w := mkwindow (mkdate 2024 2 1) (mkdate 2025 2 1)
                    (mkdate 2024 2 1) (mkdate 2025 2 6) in
  (exists day_last week_last last_day last_week e1 e2 e,
      Py.getitem day_list (-1) = Some day_last /\
      Py.getitem week_list (-1) = Some week_last /\
      dateof (ymd_of (snd day_last)) = Some last_day /\
      dateof (ymd_of (snd week_last)) = Some last_week /\
      add_days last_day 1 = Some e1 /\ add_days last_week 7 = Some e2 /\
      toordinal e1 = toordinal last_day + 1 /\
      toordinal e2 = toordinal last_week + 7 /\
      e = earlier e1 e2 /\ (e = e1 \/ e = e2) /\
      toordinal e = Z.min (toordinal e1) (toordinal e2) /\
      e = fromordinal
            (Z.min (toordinal last_day + 1) (toordinal last_week + 7)) /\
      daily_end w = mkdate (year e) (month e) 1 /\
      toordinal e - toordinal (daily_end w) = day e - 1 /\
      1 <= day e) /\
  daily_start w = mkdate (year (daily_end w) - 1) (month (daily_end w)) 1 /\
  day (daily_start w) = 1 /\ day (daily_end w) = 1 /\
  year (daily_end w) - year (daily_start w) = 1 /\
  month (daily_end w) = month (daily_start w) /\
  date_leb (weekly_start w) (daily_start w) = true /\
  date_leb (daily_end w) (weekly_end w) = true /\
  weekday (weekly_start w) = 3 /\ weekday (weekly_end w) = 3 /\
  toordinal (daily_start w) - toordinal (weekly_start w) < 7 /\
  toordinal (weekly_end w) - toordinal (daily_end w) < 7.
Proof.
  apply (@window_alignment
    [(false, "PUBLIC_DISPATCHSCADA_20240101.pkl");
     (true, "PUBLIC_DISPATCHSCADA_20250305.zip")]
    [(false, "PUBLIC_ROOFTOP_PV_ACTUAL_MEASUREMENT_20231228.pkl");
     (true, "PUBLIC_ROOFTOP_PV_ACTUAL_MEASUREMENT_20250220.zip")]
    _ false).
  vm_compute. reflexivity.
Defined.

End Window.

(** ** The two feeds and the interval index ([read_interval_zip]) *)

Module Feed.

Import Calendar.
Local Open Scope Z_scope.

(** The class constants of [DispatchSCADA] and [RooftopPV]. *)
Record feed : Type := mkfeed {
  FILENAME_PREFIX : string;
  MINUTES_PER_INTERVAL : Z;
  BEGIN_MINUTE : Z;
  INTERVALS_PER_FILE : Z
}.

Definition DispatchSCADA : feed :=
  mkfeed "PUBLIC_DISPATCHSCADA_" 5 5 (24 * (60 / 5)).

Definition RooftopPV : feed :=
  mkfeed "PUBLIC_ROOFTOP_PV_ACTUAL_MEASUREMENT_" 30 0 (7 * 24 * (60 / 30)).

(** [datetime(year, month, day, hour, minute)]. *)
Record stamp : Type := mkstamp { on_day : date; hour : Z; minute : Z }.

Definition datetime_hm (y m d h mi : Z) : option stamp :=
  let? dt := datetime y m d in
  if (0 <=? h) && (h <=? 23) && (0 <=? mi) && (mi <=? 59)
  then Some (mkstamp dt h mi) else None.

(** [(a - b).total_seconds()]: a whole number of seconds, since the stamps
    carry no seconds. *)
Definition total_seconds (a b : stamp) : Z :=
  (toordinal (on_day a) - toordinal (on_day b)) * 86400
  + ((hour a * 3600 + minute a * 60) - (hour b * 3600 + minute b * 60)).

(** [int(x)] for a float [x]: truncation towards zero. *)
Definition py_int_of (x : Q) : Z := Z.quot (Qnum x) (Z.pos (Qden x)).

(** [load.start_stamp], from the name of the outer archive:
[[
    o.year = int(load.filename[-12:-8]) ...
    load.start_stamp = datetime(o.year, o.month, o.day,
                                hour=0, minute=self.BEGIN_MINUTE)
]] *)
Definition start_stamp (f : feed) (filename : string) : option stamp :=
  let? y := Py.py_int (Py.slice filename (-12) (-8)) in
  let? m := Py.py_int (Py.slice filename (-8) (-6)) in
  let? d := Py.py_int (Py.slice filename (-6) (-4)) in
  datetime_hm y m d 0 (BEGIN_MINUTE f).

(** The stamp in the name of the inner payload:
[[
    tail = filename[len(self.FILENAME_PREFIX):]
    csv_stamp = datetime(int(tail[:4]), int(tail[4:6]), int(tail[6:8]),
                         int(tail[8:10]), int(tail[10:12]))
]] *)
Definition csv_stamp (f : feed) (filename : string) : option stamp :=
  let tail := Py.slice_from filename (String.length (FILENAME_PREFIX f)) in
  let? y := Py.py_int (Py.slice tail 0 4) in
  let? m := Py.py_int (Py.slice tail 4 6) in
  let? d := Py.py_int (Py.slice tail 6 8) in
  let? h := Py.py_int (Py.slice tail 8 10) in
  let? mi := Py.py_int (Py.slice tail 10 12) in
  datetime_hm y m d h mi.

(** [int(seconds / (60 * self.MINUTES_PER_INTERVAL) + 0.5)]. *)
Definition interval_index (f : feed) (seconds : Z) : Z :=
  py_int_of (inject_Z seconds / inject_Z (60 * MINUTES_PER_INTERVAL f) + (1 # 2))%Q.

(** [load.interval] for the payload [csv_filename] of the outer archive
    [filename]. *)
Definition interval_of (f : feed) (filename csv_filename : string) : option Z :=
  let? start := start_stamp f filename in
  let? stamp := csv_stamp f csv_filename in
  Some (interval_index f (total_seconds stamp start)).

(** What the spec asks of the index: an integer nearest to
    (payload_timestamp - period_start_timestamp) / interval_length, both in
    seconds. Any rounding to the nearest integer satisfies it, whichever way
    it breaks ties. *)
Definition rounds_to (seconds interval_length : Z) (index : Z) : Prop :=
  (Qabs (inject_Z seconds / inject_Z interval_length - inject_Z index) <= 1 # 2)%Q.

Example first_daily_payload :
  interval_of DispatchSCADA "PUBLIC_DISPATCHSCADA_20240725.zip"
    "PUBLIC_DISPATCHSCADA_202407250005_0000000367567721.CSV" = Some 0.
Proof. vm_compute. reflexivity. Qed.

Example last_daily_payload :
  interval_of DispatchSCADA "PUBLIC_DISPATCHSCADA_20240725.zip"
    "PUBLIC_DISPATCHSCADA_202407260000_0000000367567721.CSV" = Some 287.
Proof. vm_compute. reflexivity. Qed.

Example second_weekly_payload :
  interval_of RooftopPV "PUBLIC_ROOFTOP_PV_ACTUAL_MEASUREMENT_20240118.zip"
    "PUBLIC_ROOFTOP_PV_ACTUAL_MEASUREMENT_20240118003000_0000000408687300.csv"
  = Some 1.
Proof. vm_compute. reflexivity. Qed.


Lemma interval_index_quot (f : feed) (s : Z) :
  0 < MINUTES_PER_INTERVAL f ->
  interval_index f s
  = Z.quot (2 * s + 60 * MINUTES_PER_INTERVAL f)
           (2 * (60 * MINUTES_PER_INTERVAL f)).
Proof.
  intros Hpos. unfold interval_index.
  destruct (60 * MINUTES_PER_INTERVAL f) as [|p|p] eqn:E; try lia.
  unfold py_int_of, Qdiv, Qinv, Qmult, Qplus, inject_Z.
  cbn [Qnum Qden]. f_equal; lia.
Qed.

Lemma rounds_to_iff (s L i : Z) :
  0 < L -> (rounds_to s L i <-> Z.abs (2 * s - 2 * i * L) <= L).
Proof.
  intros HL. unfold rounds_to. rewrite Qabs_Qle_condition.
  destruct L as [|p|p]; try lia.
  unfold Qle, Qminus, Qdiv, Qinv, Qmult, Qplus, Qopp, inject_Z.
  cbn [Qnum Qden]. lia.
Qed.

Lemma floor_half_up (s L : Z) :
  0 < L ->
  Qfloor (inject_Z s / inject_Z L + (1 # 2)) = (2 * s + L) / (2 * L).
Proof.
  intros HL. destruct L as [|p|p]; try lia.
  unfold Qfloor, Qdiv, Qinv, Qmult, Qplus, inject_Z.
  cbn [Qnum Qden]. f_equal; lia.
Qed.

(** C8, as amended. For both feeds (intervals of 5 and of 30 minutes) and
    every payload stamp that is not more than half an interval before the
    start stamp of the period, in particular every stamp at or after it,
    the index [int(seconds / (60 * MINUTES_PER_INTERVAL) + 0.5)] is the
    integer nearest to (payload - start) / interval_length, a tie going
    up: it is [floor (x + 1/2)]. *)
Theorem interval_index_rounds (f : feed) (filename csv_filename : string)
    (start stamp : stamp) :
  f = DispatchSCADA \/ f = RooftopPV ->
  start_stamp f filename = Some start ->
  csv_stamp f csv_filename = Some stamp ->
  - (60 * MINUTES_PER_INTERVAL f) <= 2 * total_seconds stamp start ->
  MINUTES_PER_INTERVAL DispatchSCADA = 5 /\
  MINUTES_PER_INTERVAL RooftopPV = 30 /\
  exists i,
    interval_of f filename csv_filename = Some i /\
    rounds_to (total_seconds stamp start) (60 * MINUTES_PER_INTERVAL f) i /\
    i = Qfloor (inject_Z (total_seconds stamp start)
                / inject_Z (60 * MINUTES_PER_INTERVAL f) + (1 # 2)).
Proof.
  intros Hf Hs Hc Hoff. split; [reflexivity|]. split; [reflexivity|].
  assert (Hpos : 0 < MINUTES_PER_INTERVAL f)
    by (destruct Hf as [-> | ->]; reflexivity).
  exists (interval_index f (total_seconds stamp start)).
  split; [unfold interval_of; rewrite Hs, Hc; reflexivity|].
  rewrite rounds_to_iff, floor_half_up, interval_index_quot by lia.
  destruct Hf as [-> | ->]; cbn [MINUTES_PER_INTERVAL DispatchSCADA RooftopPV] in *;
    split; div_lia.
Qed.

Lemma interval_index_rounds_witness :
  exists i,
    interval_of RooftopPV "PUBLIC_ROOFTOP_PV_ACTUAL_MEASUREMENT_20240118.zip"
      "PUBLIC_ROOFTOP_PV_ACTUAL_MEASUREMENT_20240118004500_0000000408687300.csv"
    = Some i /\
    rounds_to 2700 (60 * MINUTES_PER_INTERVAL RooftopPV) i /\
    i = Qfloor (inject_Z 2700
                / inject_Z (60 * MINUTES_PER_INTERVAL RooftopPV) + (1 # 2)).
Proof.
  apply (@interval_index_rounds RooftopPV
    "PUBLIC_ROOFTOP_PV_ACTUAL_MEASUREMENT_20240118.zip"
    "PUBLIC_ROOFTOP_PV_ACTUAL_MEASUREMENT_20240118004500_0000000408687300.csv"
    (mkstamp (mkdate 2024 1 18) 0 0) (mkstamp (mkdate 2024 1 18) 0 45)).
  - right. reflexivity.
  - vm_compute. reflexivity.
  - vm_compute. reflexivity.
  - vm_compute. discriminate.
Defined.

(** C8, as stated, fails: a payload stamped one interval before the start
    stamp of its period (00:00 in the daily archive, whose start stamp is
    00:05) gets the index 0, and no rounding of -1 is 0. *)
Lemma interval_index_before_start :
  ~ (forall (f : feed) (filename csv_filename : string) (start stamp : stamp)
            (i : Z),
        f = DispatchSCADA \/ f = RooftopPV ->
        start_stamp f filename = Some start ->
        csv_stamp f csv_filename = Some stamp ->
        interval_of f filename csv_filename = Some i ->
        rounds_to (total_seconds stamp start) (60 * MINUTES_PER_INTERVAL f) i).
Proof.
  intros H.
  specialize (H DispatchSCADA "PUBLIC_DISPATCHSCADA_20240725.zip"
                "PUBLIC_DISPATCHSCADA_202407250000_0000000367567720.CSV"
                (mkstamp (mkdate 2024 7 25) 0 5)
                (mkstamp (mkdate 2024 7 25) 0 0) 0
                (or_introl eq_refl)).
  assert (Hr : rounds_to (-300) 300 0).
  { apply H; vm_compute; reflexivity. }
  apply rounds_to_iff in Hr; lia.
Qed.

End Feed.

(** ** Source-list merge ([NEMWebCommon.select_files]) *)

Module Catalog.

Import Calendar Window.

(** Python's [a > b], [a < b] and [a == b] on strings. *)
Definition gtb (a b : string) : bool := String.ltb b a.
Definition ltb (a b : string) : bool := String.ltb a b.

Inductive tier : Type := LP | LZ | RZ.

(** One of the three cursors: the index ([lp], [lz], [rz]), its flag
    ([lpflag], ...) and the period key under it ([lp_ymd], ...). The key
    is only read when the flag is set. *)
Record cursor : Type := mkcursor { idx : nat; flag : bool; cur_ymd : string }.

(** [l[i]], read under the guard [i < len(l)]. *)
Definition item (l : list string) (i : nat) : string := nth i l "".

(** The last entry [l[-1]] of a non-empty list. *)
Definition last_entry (l : list string) : string := last l "".

(** The start of [select_files]: the cursor of a list, and the running
    first and last keys. *)
Definition initial (l : list string) : cursor :=
  let f := 0 <? length l in
  mkcursor 0 f (if f then ymd_of (item l 0) else "").

(** [[
    if lzflag:
        first = lzlist[0][-12:-4]
        last = lzlist[-1][-12:-4]
        if first_ymd > first: first_ymd = first
        if last_ymd < last: last_ymd = last
]] *)
Definition widen (l : list string) (range : string * string) : string * string :=
  let '(first_ymd, last_ymd) := range in
  if 0 <? length l then
    let first := ymd_of (item l 0) in
    let last := ymd_of (last_entry l) in
    (if gtb first_ymd first then first else first_ymd,
     if ltb last_ymd last then last else last_ymd)
  else range.

(** [[
    first_ymd = "9"; last_ymd = "0"
    if lpflag:
        first_ymd = lplist[0][-12:-4]
        last_ymd = lplist[-1][-12:-4]
]] *)
Definition range_of_pkl (l : list string) : string * string :=
  if 0 <? length l then (ymd_of (item l 0), ymd_of (last_entry l))
  else ("9", "0").

(** [[
    first = datetime(int(first_ymd[0:4]), int(first_ymd[4:6]), ...)
    last = datetime(...)
    total_days = (last - first).days + 1
]] *)
Definition total_days (range : string * string) : option Z :=
  let? first := dateof (fst range) in
  let? last := dateof (snd range) in
  Some (toordinal last - toordinal first + 1)%Z.

Section Merge.

Variables lplist lzlist rzlist : list string.

(** The selection at the top of the loop body:
[[
    choice = None
    ymd = "9"
    if lpflag and ymd > lp_ymd: ymd = lp_ymd; choice = "lp"
    if lzflag and ymd > lz_ymd: ymd = lz_ymd; choice = "lz"
    if rzflag and ymd > rz_ymd: ymd = rz_ymd; choice = "rz"
]] *)
Definition consider (t : tier) (c : cursor) (sel : string * option tier)
  : string * option tier :=
  if flag c && gtb (fst sel) (cur_ymd c) then (cur_ymd c, Some t) else sel.

Definition select (clp clz crz : cursor) : string * option tier :=
  consider RZ crz (consider LZ clz (consider LP clp ("9", None))).

(** [filelist.append(...)] for the choice. *)
Definition chosen (choice : tier) (clp clz crz : cursor) : descriptor :=
  match choice with
  | RZ => (true, item rzlist (idx crz))
  | LZ => (true, item lzlist (idx clz))
  | LP => (false, item lplist (idx clp))
  end.

(** [[
    if rzflag and rz_ymd == ymd:
        rz += 1
        rzflag = rz < len(rzlist)
        if rzflag: rz_ymd = rzlist[rz][-12:-4]
]] *)
Definition advance (l : list string) (c : cursor) (ymd : string) : cursor :=
  if flag c && String.eqb (cur_ymd c) ymd then
    let i := S (idx c) in
    let f := i <? length l in
    mkcursor i f (if f then ymd_of (item l i) else cur_ymd c)
  else c.

(** The [while True] loop; [None] is the end of the fuel, not a result of
    the source. *)
Fixpoint merge_loop (fuel : nat) (clp clz crz : cursor)
    (filelist : list descriptor) : option (list descriptor) :=
  match fuel with
  | O => None
  | S fuel' =>
      match select clp clz crz with
      | (_, None) => Some filelist
      | (ymd, Some choice) =>
          let filelist := filelist ++ [chosen choice clp clz crz] in
          let crz := advance rzlist crz ymd in
          let clz := advance lzlist clz ymd in
          let clp := advance lplist clp ymd in
          merge_loop fuel' clp clz crz filelist
      end
  end.

(** [select_files]. The block under "Determine the last day" only assigns
    [ymd] and [choice], which the loop assigns again before reading them;
    the date range is computed for the printed message, and raises on keys
    that are not dates. *)
Definition select_files : option (list descriptor) :=
  let range := widen rzlist (widen lzlist (range_of_pkl lplist)) in
  let? _ := total_days range in
  merge_loop (S (length lplist + length lzlist + length rzlist))
             (initial lplist) (initial lzlist) (initial rzlist) [].

End Merge.

Example merge_prefers_cache :
  select_files ["d/X_20240101.pkl"; "d/X_20240103.pkl"]
               ["m/X_20240101.zip"; "m/X_20240102.zip"]
               ["u/X_20240102.zip"; "u/X_20240103.zip"; "u/X_20240104.zip"]
  = Some [(false, "d/X_20240101.pkl"); (true, "m/X_20240102.zip");
          (false, "d/X_20240103.pkl"); (true, "u/X_20240104.zip")].
Proof. vm_compute. reflexivity. Qed.

Example merge_nothing : select_files [] [] [] = None.
Proof. vm_compute. reflexivity. Qed.


(** *** The order of period keys *)

Definition klt (a b : string) : Prop := String.ltb a b = true.

Lemma klt_lt a b : klt a b <-> String_as_OT.lt a b.
Proof.
  unfold klt, String.ltb, String_as_OT.lt.
  change (String_as_OT.compare a b) with (String.compare a b).
  destruct (String.compare a b); split; congruence.
Qed.

Lemma klt_irrefl a : ~ klt a a.
Proof. rewrite klt_lt. apply (StrictOrder_Irreflexive (R := String_as_OT.lt)). Qed.

Lemma klt_trans a b c : klt a b -> klt b c -> klt a c.
Proof.
  rewrite !klt_lt. apply (StrictOrder_Transitive (R := String_as_OT.lt)).
Qed.

Lemma klt_total a b : klt a b \/ a = b \/ klt b a.
Proof.
  rewrite !klt_lt.
  destruct (String_as_OT.compare_spec a b) as [E | L | G]; auto.
Qed.

Lemma gtb_false a b : gtb a b = false -> a = b \/ klt a b.
Proof.
  unfold gtb. intros H. destruct (klt_total a b) as [L | [E | G]]; auto.
  unfold klt in G. congruence.
Qed.

Lemma klt_asym a b : klt a b -> klt b a -> False.
Proof. intros H1 H2. exact (klt_irrefl (klt_trans H1 H2)). Qed.

Definition key (d : descriptor) : string := ymd_of (snd d).
Definition keys (l : list string) : list string := map ymd_of l.

(** A per-tier list in ascending order of period keys, one file per
    period. *)
Definition ascending (l : list string) : Prop := StronglySorted klt (keys l).

(** *** Cursors and the part of a list that is still to be merged *)

Definition remaining (l : list string) (c : cursor) : list string :=
  skipn (idx c) l.

Definition cursor_ok (l : list string) (c : cursor) : Prop :=
  flag c = (idx c <? length l) /\
  (flag c = true -> cur_ymd c = ymd_of (item l (idx c))).

Lemma initial_ok l : cursor_ok l (initial l) /\ remaining l (initial l) = l.
Proof.
  unfold cursor_ok, initial, remaining. cbn [idx flag cur_ymd skipn].
  repeat split. intros ->. reflexivity.
Qed.

Lemma skipn_item l i :
  i < length l -> skipn i l = item l i :: skipn (S i) l.
Proof.
  revert i. induction l as [|h t IH]; intros [|i] H; simpl in *; try lia; auto.
  apply IH. lia.
Qed.

Lemma remaining_flag_true l c :
  cursor_ok l c -> flag c = true ->
  remaining l c = item l (idx c) :: skipn (S (idx c)) l /\
  cur_ymd c = ymd_of (item l (idx c)).
Proof.
  intros [Hf Hk] Ht. rewrite Ht in Hf. symmetry in Hf. apply Nat.ltb_lt in Hf.
  split; [now apply skipn_item | auto].
Qed.

Lemma remaining_flag_false l c :
  cursor_ok l c -> flag c = false -> remaining l c = [].
Proof.
  intros [Hf _] Ht. rewrite Ht in Hf. symmetry in Hf. apply Nat.ltb_ge in Hf.
  now apply skipn_all2.
Qed.

Lemma advance_ok l c ymd :
  cursor_ok l c ->
  cursor_ok l (advance l c ymd) /\
  remaining l (advance l c ymd)
  = (if flag c && String.eqb (cur_ymd c) ymd then tl (remaining l c)
     else remaining l c).
Proof.
  intros Hok. unfold advance.
  destruct (flag c && String.eqb (cur_ymd c) ymd) eqn:E; [|auto].
  apply andb_true_iff in E. destruct E as [Hf _].
  destruct (remaining_flag_true Hok Hf) as [Hr _].
  split.
  - unfold cursor_ok. cbn [idx flag cur_ymd]. split; [reflexivity|].
    intros ->. reflexivity.
  - rewrite Hr. reflexivity.
Qed.

(** *** One step of the merge, on the remaining lists *)

Definition head_ge (ymd : string) (X : list string) : Prop :=
  forall a X', X = a :: X' -> ymd = ymd_of a \/ klt ymd (ymd_of a).

Definition head_gt (ymd : string) (X : list string) : Prop :=
  forall a X', X = a :: X' -> klt ymd (ymd_of a).

Definition drop_key (ymd : string) (X : list string) : list string :=
  match X with
  | a :: X' => if String.eqb (ymd_of a) ymd then X' else X
  | [] => []
  end.

Lemma head_gt_ge ymd X : head_gt ymd X -> head_ge ymd X.
Proof. intros H a X' E. right. eapply H; eauto. Qed.

Lemma remaining_advance l c ymd :
  cursor_ok l c ->
  remaining l (advance l c ymd) = drop_key ymd (remaining l c).
Proof.
  intros Hok. destruct (advance_ok ymd Hok) as [_ ->].
  destruct (flag c) eqn:Hf; cbn [andb].
  - destruct (remaining_flag_true Hok Hf) as [-> ->]. cbn [drop_key tl].
    destruct (String.eqb _ _); reflexivity.
  - rewrite (remaining_flag_false Hok Hf). reflexivity.
Qed.

Lemma ascending_tail a X : ascending (a :: X) -> ascending X.
Proof. unfold ascending. cbn. intros H. now inversion H. Qed.

Lemma ascending_head a X :
  ascending (a :: X) -> Forall (klt (ymd_of a)) (keys X).
Proof. unfold ascending. cbn. intros H. now inversion H. Qed.

Lemma ascending_drop ymd X : ascending X -> ascending (drop_key ymd X).
Proof.
  destruct X as [|a X]; cbn; auto. destruct (String.eqb _ _); auto.
  apply ascending_tail.
Qed.

Lemma drop_above ymd X :
  ascending X -> head_ge ymd X -> Forall (klt ymd) (keys (drop_key ymd X)).
Proof.
  intros Hs Hg. destruct X as [|a X]; cbn; [constructor|].
  destruct (String.eqb_spec (ymd_of a) ymd) as [E | N].
  - rewrite <- E. now apply ascending_head.
  - destruct (Hg a X eq_refl) as [E | L]; [congruence|].
    cbn. constructor; auto.
    eapply Forall_impl; [|apply (ascending_head Hs)].
    intros k Hk. eapply klt_trans; eauto.
Qed.

Lemma drop_keys ymd X k :
  In k (keys X) <-> (k = ymd /\ In ymd (keys X)) \/ In k (keys (drop_key ymd X)).
Proof.
  destruct X as [|a X]; cbn; [tauto|].
  destruct (String.eqb_spec (ymd_of a) ymd) as [E | N]; cbn.
  - rewrite E. split; [intros [<- | H]; auto | intros [[-> _] | H]; auto].
  - split; [auto | intros [[-> H] | H]; auto].
Qed.

Lemma drop_incl ymd X p : In p (drop_key ymd X) -> In p X.
Proof.
  destruct X as [|a X]; cbn; auto. destruct (String.eqb _ _); cbn; auto.
Qed.

Lemma above_not_in ymd X : Forall (klt ymd) (keys X) -> ~ In ymd (keys X).
Proof.
  intros H Hin. rewrite Forall_forall in H. exact (klt_irrefl (H _ Hin)).
Qed.

Lemma head_gt_not_in ymd X : ascending X -> head_gt ymd X -> ~ In ymd (keys X).
Proof.
  intros Hs Hg. destruct X as [|a X]; cbn; [tauto|].
  pose proof (Hg a X eq_refl) as L. intros [E | Hin].
  - rewrite E in L. exact (klt_irrefl L).
  - pose proof (ascending_head Hs) as F. rewrite Forall_forall in F.
    exact (klt_asym L (F _ Hin)).
Qed.

Definition below_sentinel (X : list string) : Prop :=
  Forall (fun k => klt k "9") (keys X).

Section MergeFacts.

Variables lplist lzlist rzlist : list string.

Lemma consider_skip t c sel : flag c = false -> consider t c sel = sel.
Proof. unfold consider. now intros ->. Qed.

Lemma consider_take t c sel :
  flag c = true ->
  consider t c sel
  = if gtb (fst sel) (cur_ymd c) then (cur_ymd c, Some t) else sel.
Proof. unfold consider. now intros ->. Qed.

Lemma head_ge_nil ymd : head_ge ymd [].
Proof. intros a X' E. discriminate. Qed.

Lemma head_gt_nil ymd : head_gt ymd [].
Proof. intros a X' E. discriminate. Qed.

Lemma head_ge_cons_eq a X : head_ge (ymd_of a) (a :: X).
Proof. intros b X' [= <- <-]. now left. Qed.

Lemma head_ge_cons_lt ymd a X : klt ymd (ymd_of a) -> head_ge ymd (a :: X).
Proof. intros L b X' [= <- <-]. now right. Qed.

Lemma head_gt_cons ymd a X : klt ymd (ymd_of a) -> head_gt ymd (a :: X).
Proof. intros L b X' [= <- <-]. exact L. Qed.

Lemma head_ge_cons_not_gt ymd a X :
  gtb ymd (ymd_of a) = false -> head_ge ymd (a :: X).
Proof.
  intros H b X' [= <- <-]. now apply gtb_false.
Qed.

Create HintDb merge.

#[local] Hint Resolve head_ge_nil head_gt_nil head_ge_cons_eq head_ge_cons_lt
  head_gt_cons head_ge_cons_not_gt : merge.

Lemma gtb_true a b : gtb a b = true -> klt b a.
Proof. auto. Qed.

#[local] Hint Resolve gtb_true : merge.
#[local] Hint Extern 4 (klt _ _) =>
  eapply klt_trans; [eapply gtb_true; eassumption|] : merge.

Lemma sentinel_gtb a X : below_sentinel (a :: X) -> gtb "9" (ymd_of a) = true.
Proof. intros H. apply Forall_inv in H. exact H. Qed.

(** What [consider] does with the cursor of a list, by what remains of the
    list. *)
Lemma consider_remaining t l c sel :
  cursor_ok l c ->
  match remaining l c with
  | [] => consider t c sel = sel
  | a :: _ =>
      item l (idx c) = a /\
      consider t c sel
      = if gtb (fst sel) (ymd_of a) then (ymd_of a, Some t) else sel
  end.
Proof.
  intros Hok. unfold consider. destruct (flag c) eqn:Hf.
  - destruct (remaining_flag_true Hok Hf) as [-> ->]. auto.
  - rewrite (remaining_flag_false Hok Hf). reflexivity.
Qed.

Lemma select_cases clp clz crz :
  cursor_ok lplist clp -> cursor_ok lzlist clz -> cursor_ok rzlist crz ->
  below_sentinel (remaining lplist clp) ->
  below_sentinel (remaining lzlist clz) ->
  below_sentinel (remaining rzlist crz) ->
  let A := remaining lplist clp in
  let B := remaining lzlist clz in
  let C := remaining rzlist crz in
  match select clp clz crz with
  | (_, None) => A = [] /\ B = [] /\ C = []
  | (ymd, Some t) =>
      let d := chosen lplist lzlist rzlist t clp clz crz in
      key d = ymd /\ head_ge ymd A /\ head_ge ymd B /\ head_ge ymd C /\
      match t with
      | LP => fst d = false /\ exists A', A = snd d :: A'
      | LZ => fst d = true /\ (exists B', B = snd d :: B') /\ head_gt ymd A
      | RZ => fst d = true /\ (exists C', C = snd d :: C') /\
              head_gt ymd A /\ head_gt ymd B
      end
  end.
Proof.
  intros Hlp Hlz Hrz Slp Slz Srz. cbv zeta. unfold select.
  pose proof (consider_remaining LP ("9", None) Hlp) as H1.
  destruct (remaining lplist clp) as [|a A'].
  - rewrite H1.
    pose proof (consider_remaining LZ ("9", None) Hlz) as H2.
    destruct (remaining lzlist clz) as [|b B'].
    + rewrite H2.
      pose proof (consider_remaining RZ ("9", None) Hrz) as H3.
      destruct (remaining rzlist crz) as [|c C']; [now rewrite H3|].
      destruct H3 as [Ic ->]. cbn [fst]. rewrite (sentinel_gtb Srz).
      unfold key, chosen. cbn [fst snd]. rewrite Ic.
      repeat split; eauto with merge.
    + destruct H2 as [Ib ->]. cbn [fst]. rewrite (sentinel_gtb Slz).
      pose proof (consider_remaining RZ (ymd_of b, Some LZ) Hrz) as H3.
      destruct (remaining rzlist crz) as [|c C'].
      * rewrite H3. unfold key, chosen. cbn [fst snd]. rewrite Ib.
        repeat split; eauto with merge.
      * destruct H3 as [Ic ->]. cbn [fst].
        destruct (gtb (ymd_of b) (ymd_of c)) eqn:G;
          unfold key, chosen; cbn [fst snd]; rewrite ?Ib, ?Ic;
          repeat split; eauto with merge.
  - destruct H1 as [Ia ->]. cbn [fst]. rewrite (sentinel_gtb Slp).
    pose proof (consider_remaining LZ (ymd_of a, Some LP) Hlz) as H2.
    destruct (remaining lzlist clz) as [|b B'].
    + rewrite H2.
      pose proof (consider_remaining RZ (ymd_of a, Some LP) Hrz) as H3.
      destruct (remaining rzlist crz) as [|c C'].
      * rewrite H3. unfold key, chosen. cbn [fst snd]. rewrite Ia.
        repeat split; eauto with merge.
      * destruct H3 as [Ic ->]. cbn [fst].
        destruct (gtb (ymd_of a) (ymd_of c)) eqn:G;
          unfold key, chosen; cbn [fst snd]; rewrite ?Ia, ?Ic;
          repeat split; eauto with merge.
    + destruct H2 as [Ib ->]. cbn [fst].
      destruct (gtb (ymd_of a) (ymd_of b)) eqn:G1.
      * pose proof (consider_remaining RZ (ymd_of b, Some LZ) Hrz) as H3.
        destruct (remaining rzlist crz) as [|c C'].
        -- rewrite H3. unfold key, chosen. cbn [fst snd]. rewrite Ib.
           repeat split; eauto with merge.
        -- destruct H3 as [Ic ->]. cbn [fst].
           destruct (gtb (ymd_of b) (ymd_of c)) eqn:G2;
             unfold key, chosen; cbn [fst snd]; rewrite ?Ia, ?Ib, ?Ic;
             repeat split; eauto with merge.
      * pose proof (consider_remaining RZ (ymd_of a, Some LP) Hrz) as H3.
        destruct (remaining rzlist crz) as [|c C'].
        -- rewrite H3. unfold key, chosen. cbn [fst snd]. rewrite Ia.
           repeat split; eauto with merge.
        -- destruct H3 as [Ic ->]. cbn [fst].
           destruct (gtb (ymd_of a) (ymd_of c)) eqn:G2;
             unfold key, chosen; cbn [fst snd]; rewrite ?Ia, ?Ib, ?Ic;
             repeat split; eauto with merge.
           all: apply gtb_true in G2; apply gtb_false in G1.
           all: assert (L : klt (ymd_of c) (ymd_of b))
             by (destruct G1 as [<- | L]; [exact G2 | exact (klt_trans G2 L)]).
           all: eauto with merge.
Qed.


(** *** What the merged list is, for three remaining lists *)

(** The entry [d] is the entry of its period in the tier of highest
    priority that has the period: the cache (a [False] flag), else the
    mirror, else the remote listing (both with a [True] flag). *)
Definition is_entry_of (A B C : list string) (d : descriptor) : Prop :=
  (In (key d) (keys A) -> fst d = false /\ In (snd d) A) /\
  (~ In (key d) (keys A) -> In (key d) (keys B) ->
   fst d = true /\ In (snd d) B) /\
  (~ In (key d) (keys A) -> ~ In (key d) (keys B) ->
   fst d = true /\ In (snd d) C).

Record merged (A B C : list string) (out : list descriptor) : Prop := {
  merged_sorted : StronglySorted klt (map key out);
  merged_keys : forall k,
    In k (map key out) <-> In k (keys A) \/ In k (keys B) \/ In k (keys C);
  merged_priority : forall d, In d out -> is_entry_of A B C d
}.

Lemma merged_nil : merged [] [] [] [].
Proof.
  split; cbn.
  - constructor.
  - tauto.
  - tauto.
Qed.

Lemma in_keys p X : In p X -> In (ymd_of p) (keys X).
Proof. apply in_map. Qed.

Lemma merged_cons A B C ymd d out :
  ascending A -> ascending B -> ascending C ->
  head_ge ymd A -> head_ge ymd B -> head_ge ymd C ->
  key d = ymd -> is_entry_of A B C d ->
  In ymd (keys A) \/ In ymd (keys B) \/ In ymd (keys C) ->
  merged (drop_key ymd A) (drop_key ymd B) (drop_key ymd C) out ->
  merged A B C (d :: out).
Proof.
  intros SA SB SC GA GB GC Kd Pd Hin [Hs Hk Hp].
  pose proof (drop_above SA GA) as UA.
  pose proof (drop_above SB GB) as UB.
  pose proof (drop_above SC GC) as UC.
  rewrite Forall_forall in UA, UB, UC.
  assert (Habove : forall k, In k (map key out) -> klt ymd k).
  { intros k Hin'. apply Hk in Hin'. destruct Hin' as [H | [H | H]]; auto. }
  split.
  - cbn. constructor; auto. rewrite Kd. now apply Forall_forall.
  - intros k. cbn. rewrite Kd, Hk.
    rewrite (drop_keys ymd A k), (drop_keys ymd B k), (drop_keys ymd C k).
    split.
    + intros [<- | H]; [|tauto]. tauto.
    + intros [[[-> _] | H] | [[[-> _] | H] | [[-> _] | H]]]; auto.
  - intros d' [<- | Hd']; [exact Pd|].
    assert (Hgt : klt ymd (key d')) by (apply Habove; now apply in_map).
    assert (Hne : key d' <> ymd)
      by (intros E; rewrite E in Hgt; exact (klt_irrefl Hgt)).
    destruct (Hp d' Hd') as (P1 & P2 & P3).
    pose proof (drop_keys ymd A (key d')) as KA.
    pose proof (drop_keys ymd B (key d')) as KB.
    repeat split.
    + apply P1. tauto.
    + apply (@drop_incl ymd). apply P1. tauto.
    + apply P2; tauto.
    + apply (@drop_incl ymd). apply P2; tauto.
    + apply P3; tauto.
    + apply (@drop_incl ymd). apply P3; tauto.
Qed.

Lemma below_sentinel_drop ymd X :
  below_sentinel X -> below_sentinel (drop_key ymd X).
Proof.
  destruct X as [|a X]; cbn; auto. destruct (String.eqb _ _); auto.
  unfold below_sentinel. cbn. intros H. now inversion H.
Qed.

Lemma length_drop_le ymd X : length (drop_key ymd X) <= length X.
Proof. destruct X as [|a X]; cbn; auto. destruct (String.eqb _ _); cbn; lia. Qed.

Lemma length_drop_lt ymd p X :
  ymd_of p = ymd -> length (drop_key ymd (p :: X)) < length (p :: X).
Proof. intros E. cbn. rewrite E, String.eqb_refl. lia. Qed.

Lemma merge_loop_spec fuel : forall clp clz crz acc,
  cursor_ok lplist clp -> cursor_ok lzlist clz -> cursor_ok rzlist crz ->
  let A := remaining lplist clp in
  let B := remaining lzlist clz in
  let C := remaining rzlist crz in
  ascending A -> ascending B -> ascending C ->
  below_sentinel A -> below_sentinel B -> below_sentinel C ->
  length A + length B + length C < fuel ->
  exists out,
    merge_loop lplist lzlist rzlist fuel clp clz crz acc = Some (acc ++ out) /\
    merged A B C out.
Proof.
  induction fuel as [|fuel IH]; intros clp clz crz acc Hlp Hlz Hrz A B C
    SA SB SC UA UB UC Hlen; [lia|].
  cbn [merge_loop].
  pose proof (select_cases Hlp Hlz Hrz UA UB UC) as Hsel. cbv zeta in Hsel.
  fold A B C in Hsel.
  destruct (select clp clz crz) as [ymd [t|]].
  - destruct Hsel as (Kd & GA & GB & GC & Ht).
    set (d := chosen lplist lzlist rzlist t clp clz crz) in *.
    destruct (advance_ok ymd Hlp) as [Hlp' _].
    destruct (advance_ok ymd Hlz) as [Hlz' _].
    destruct (advance_ok ymd Hrz) as [Hrz' _].
    pose proof (remaining_advance ymd Hlp) as EA.
    pose proof (remaining_advance ymd Hlz) as EB.
    pose proof (remaining_advance ymd Hrz) as EC.
    fold A in EA. fold B in EB. fold C in EC.
    assert (Hd : is_entry_of A B C d /\
                 (In ymd (keys A) \/ In ymd (keys B) \/ In ymd (keys C)) /\
                 length (drop_key ymd A) + length (drop_key ymd B)
                 + length (drop_key ymd C) < length A + length B + length C).
    { pose proof (length_drop_le ymd A). pose proof (length_drop_le ymd B).
      pose proof (length_drop_le ymd C).
      destruct t.
      - destruct Ht as (Hf & A' & EA').
        assert (In ymd (keys A)) by (rewrite EA', <- Kd; now left).
        split; [|split; [auto|]].
        + unfold is_entry_of. rewrite Kd.
          repeat split; try tauto. rewrite EA'. now left.
        + rewrite EA' in *. pose proof (@length_drop_lt ymd (snd d) A' Kd). lia.
      - destruct Ht as (Hf & (B' & EB') & GtA).
        assert (In ymd (keys B)) by (rewrite EB', <- Kd; now left).
        pose proof (head_gt_not_in SA GtA).
        split; [|split; [auto|]].
        + unfold is_entry_of. rewrite Kd.
          repeat split; try tauto. rewrite EB'. now left.
        + rewrite EB' in *. pose proof (@length_drop_lt ymd (snd d) B' Kd). lia.
      - destruct Ht as (Hf & (C' & EC') & GtA & GtB).
        assert (In ymd (keys C)) by (rewrite EC', <- Kd; now left).
        pose proof (head_gt_not_in SA GtA).
        pose proof (head_gt_not_in SB GtB).
        split; [|split; [auto|]].
        + unfold is_entry_of. rewrite Kd.
          repeat split; try tauto. rewrite EC'. now left.
        + rewrite EC' in *. pose proof (@length_drop_lt ymd (snd d) C' Kd). lia. }
    destruct Hd as (Pd & Hin & Hless).
    destruct (IH (advance lplist clp ymd) (advance lzlist clz ymd)
                 (advance rzlist crz ymd) (acc ++ [d]) Hlp' Hlz' Hrz')
      as (out & Hout & Hm).
    + rewrite EA. now apply ascending_drop.
    + rewrite EB. now apply ascending_drop.
    + rewrite EC. now apply ascending_drop.
    + rewrite EA. now apply below_sentinel_drop.
    + rewrite EB. now apply below_sentinel_drop.
    + rewrite EC. now apply below_sentinel_drop.
    + rewrite EA, EB, EC. lia.
    + exists (d :: out). split.
      * rewrite Hout. now rewrite <- app_assoc.
      * rewrite EA, EB, EC in Hm. eapply merged_cons; eauto.
  - destruct Hsel as (EA & EB & EC). exists []. rewrite app_nil_r.
    split; [reflexivity|]. rewrite EA, EB, EC. apply merged_nil.
Qed.

End MergeFacts.

(** *** The date range computed before the loop *)

Lemma digit_of_ge c d : Py.digit_of c = Some d -> (48 <= N_of_ascii c)%N.
Proof.
  unfold Py.digit_of, nat_of_ascii. cbv zeta.
  destruct (48 <=? N.to_nat (N_of_ascii c)) eqn:E; [|discriminate].
  intros _. apply Nat.leb_le in E. lia.
Qed.

Lemma dateof_above_zero k d : dateof k = Some d -> klt "0" k.
Proof.
  unfold dateof. intros H. peel H.
  destruct k as [|c r]; [discriminate|].
  assert (Hc : exists v, Py.digit_of c = Some v).
  { unfold Py.slice, Py.clamp in Hx. cbn in Hx.
    unfold Py.py_int in Hx. change (Pos.to_nat 4) with 4 in Hx. cbn in Hx.
    destruct (Py.digit_of c) as [v|]; [eauto | discriminate]. }
  destruct Hc as [v Hv]. apply digit_of_ge in Hv.
  destruct r as [|c' r']; [discriminate|].
  unfold klt, String.ltb. cbn [String.compare].
  unfold Ascii.compare.
  change (N_of_ascii "0") with 48%N.
  destruct (N.compare_spec 48 (N_of_ascii c)); auto. lia.
Qed.

(** A period key: the date of an archive, below the sentinel ["9"] with
    which the source starts each selection (a year before 9000). *)
Definition period_key (k : string) : Prop :=
  (exists d, dateof k = Some d) /\ klt k "9".

Lemma last_entry_in l : l <> [] -> In (last_entry l) l.
Proof.
  intros H. unfold last_entry.
  destruct (exists_last H) as (l' & a & ->).
  rewrite last_last. apply in_or_app. right. now left.
Qed.

Lemma item_0_in l : l <> [] -> In (item l 0) l.
Proof. destruct l; [congruence | now left]. Qed.

Lemma length_pos_ne (l : list string) : (0 <? length l) = true -> l <> [].
Proof. destruct l; [discriminate | discriminate]. Qed.

(** The running range is still the pair of sentinels when every list seen
    so far is empty, and is made of keys of these lists otherwise. *)
Definition range_ok (seen : list string) (range : string * string) : Prop :=
  (seen = [] /\ range = ("9", "0")) \/
  (In (fst range) (keys seen) /\ In (snd range) (keys seen)).

Lemma range_of_pkl_ok l : range_ok l (range_of_pkl l).
Proof.
  unfold range_ok, range_of_pkl. destruct (0 <? length l) eqn:E.
  - right. apply length_pos_ne in E. cbn [fst snd].
    split; apply in_keys; [now apply item_0_in | now apply last_entry_in].
  - left. destruct l; [auto | discriminate].
Qed.

Lemma widen_ok seen l range :
  Forall period_key (keys l) ->
  range_ok seen range -> range_ok (seen ++ l) (widen l range).
Proof.
  intros Hk Hr. unfold widen. destruct range as [first_ymd last_ymd].
  destruct (0 <? length l) eqn:E.
  - apply length_pos_ne in E.
    pose proof (in_keys _ _ (item_0_in E)) as Hfirst.
    pose proof (in_keys _ _ (last_entry_in E)) as Hlast.
    rewrite Forall_forall in Hk.
    right. unfold keys in *. rewrite map_app. cbn [fst snd].
    destruct Hr as [[-> [= -> ->]] | [H1 H2]]; cbn [fst snd] in *.
    + destruct (Hk _ Hfirst) as [_ L9]. destruct (Hk _ Hlast) as [[d Hd] _].
      apply dateof_above_zero in Hd.
      unfold gtb, ltb. unfold klt in L9, Hd. rewrite L9, Hd.
      split; apply in_or_app; auto.
    + split.
      * destruct (gtb first_ymd _); apply in_or_app; auto.
      * destruct (ltb last_ymd _); apply in_or_app; auto.
  - destruct l; [|discriminate]. now rewrite app_nil_r.
Qed.

Lemma total_days_Some lplist lzlist rzlist :
  Forall period_key (keys lplist) -> Forall period_key (keys lzlist) ->
  Forall period_key (keys rzlist) ->
  lplist ++ lzlist ++ rzlist <> [] ->
  exists n,
    total_days (widen rzlist (widen lzlist (range_of_pkl lplist))) = Some n.
Proof.
  intros Hlp Hlz Hrz Hne.
  pose proof (@widen_ok _ _ _ Hrz (@widen_ok _ _ _ Hlz (range_of_pkl_ok lplist))) as H.
  rewrite <- app_assoc in H.
  destruct H as [[E _] | [H1 H2]]; [congruence|].
  assert (Hall : Forall period_key (keys (lplist ++ lzlist ++ rzlist))).
  { unfold keys. rewrite !map_app. repeat (apply Forall_app; split); auto. }
  rewrite Forall_forall in Hall.
  destruct (Hall _ H1) as [[d1 Hd1] _]. destruct (Hall _ H2) as [[d2 Hd2] _].
  unfold total_days. rewrite Hd1, Hd2. cbn. eauto.
Qed.

Lemma period_keys_below l : Forall period_key (keys l) -> below_sentinel l.
Proof. apply Forall_impl. now intros k [_ H]. Qed.

(** C3. Source-list merge: for three per-tier lists in ascending order of
    period keys (one file per period in a tier), not all empty,
    [select_files] returns a list that is strictly ordered by period key
    (so it has no duplicate key), whose keys are exactly the keys of the
    three lists, and in which the entry of a key is the entry of the cache
    if the cache has the key, else of the mirror if the mirror has it, else
    of the remote listing. In the loop a tier overrides the selection only
    with a strictly smaller key, and each cursor whose key is the selected
    one moves on by one entry while the others stay. *)
Theorem select_files_merges (lplist lzlist rzlist : list string) :
  ascending lplist -> ascending lzlist -> ascending rzlist ->
  Forall period_key (keys lplist) -> Forall period_key (keys lzlist) ->
  Forall period_key (keys rzlist) ->
  lplist ++ lzlist ++ rzlist <> [] ->
  (exists merged_list,
     select_files lplist lzlist rzlist = Some merged_list /\
     StronglySorted klt (map key merged_list) /\
     NoDup (map key merged_list) /\
     (forall k, In k (map key merged_list) <->
                In k (keys lplist) \/ In k (keys lzlist) \/ In k (keys rzlist)) /\
     (forall d, In d merged_list -> is_entry_of lplist lzlist rzlist d)) /\
  (forall t c sel,
     snd (consider t c sel) = Some t /\ consider t c sel <> sel ->
     flag c = true /\ klt (cur_ymd c) (fst sel)) /\
  (forall l c ymd,
     idx (advance l c ymd)
     = if flag c && String.eqb (cur_ymd c) ymd then S (idx c) else idx c).
Proof.
  intros SA SB SC KA KB KC Hne. split; [|split].
  - destruct (@total_days_Some _ _ _ KA KB KC Hne) as [n Hn].
    unfold select_files. rewrite Hn. cbn [Py.obind].
    destruct (initial_ok lplist) as [Hlp Ea].
    destruct (initial_ok lzlist) as [Hlz Eb].
    destruct (initial_ok rzlist) as [Hrz Ec].
    pose proof (@merge_loop_spec lplist lzlist rzlist
                  (S (length lplist + length lzlist + length rzlist))
                  (initial lplist) (initial lzlist) (initial rzlist) []
                  Hlp Hlz Hrz) as Hspec.
    cbv zeta in Hspec. rewrite Ea, Eb, Ec in Hspec.
    destruct (Hspec SA SB SC (@period_keys_below _ KA)
                (@period_keys_below _ KB) (@period_keys_below _ KC)
                (Nat.lt_succ_diag_r _))
      as (out & Hout & [Hs Hk Hp]).
    exists out. cbn [app] in Hout.
    split; [exact Hout|]. split; [exact Hs|]. split; [|split; [exact Hk | exact Hp]].
    clear - Hs. induction Hs as [|k ks Hs IH Hall]; constructor; auto.
    intros Hin. rewrite Forall_forall in Hall.
    exact (klt_irrefl (Hall _ Hin)).
  - intros t c sel [H1 H2]. unfold consider in *.
    destruct (flag c && gtb (fst sel) (cur_ymd c)) eqn:E; [|congruence].
    apply andb_true_iff in E. destruct E as [Hf Hg]. auto.
  - intros l c ymd. unfold advance.
    destruct (flag c && String.eqb (cur_ymd c) ymd); reflexivity.
Qed.

Lemma select_files_merges_witness :
  exists merged_list,
    select_files ["d/X_20240101.pkl"; "d/X_20240103.pkl"]
                 ["m/X_20240101.zip"; "m/X_20240102.zip"]
                 ["u/X_20240102.zip"; "u/X_20240103.zip"; "u/X_20240104.zip"]
    = Some merged_list /\
    StronglySorted klt (map key merged_list) /\
    NoDup (map key merged_list) /\
    (forall k, In k (map key merged_list) <->
       In k (keys ["d/X_20240101.pkl"; "d/X_20240103.pkl"]) \/
       In k (keys ["m/X_20240101.zip"; "m/X_20240102.zip"]) \/
       In k (keys ["u/X_20240102.zip"; "u/X_20240103.zip"; "u/X_20240104.zip"])) /\
    (forall d, In d merged_list ->
       is_entry_of ["d/X_20240101.pkl"; "d/X_20240103.pkl"]
                   ["m/X_20240101.zip"; "m/X_20240102.zip"]
                   ["u/X_20240102.zip"; "u/X_20240103.zip"; "u/X_20240104.zip"]
                   d).
Proof.
  apply (@select_files_merges
           ["d/X_20240101.pkl"; "d/X_20240103.pkl"]
           ["m/X_20240101.zip"; "m/X_20240102.zip"]
           ["u/X_20240102.zip"; "u/X_20240103.zip"; "u/X_20240104.zip"]).
  1-3: unfold ascending; cbn; repeat constructor.
  1-3: unfold period_key; cbn; repeat constructor; eexists; vm_compute; reflexivity.
  discriminate.
Defined.

End Catalog.

(** ** Numbers

    The values of the matrices are Python floats. They are modelled by the
    rationals [Qc] (canonical fractions, with Leibniz equality): sums,
    differences and quotients are exact. *)

Module Num.

Local Open Scope Qc_scope.

Definition of_Z (z : Z) : Qc := Q2Qc (inject_Z z).

Definition ltb (x y : Qc) : bool :=
  match x ?= y with Lt => true | _ => false end.

Definition eqb (x y : Qc) : bool :=
  match x ?= y with Eq => true | _ => false end.

(** [x >= y]. *)
Definition geb (x y : Qc) : bool := negb (ltb x y).

Lemma ltb_lt x y : ltb x y = true <-> x < y.
Proof.
  unfold ltb. rewrite Qclt_alt. destruct (x ?= y); split; congruence.
Qed.

Lemma ltb_ge x y : ltb x y = false <-> y <= x.
Proof.
  split; intros H.
  - apply Qcnot_lt_le. intros L. apply ltb_lt in L. congruence.
  - destruct (ltb x y) eqn:E; auto. apply ltb_lt in E.
    exfalso. exact (Qcle_not_lt _ _ H E).
Qed.

Lemma eqb_eq x y : eqb x y = true <-> x = y.
Proof.
  unfold eqb. rewrite Qceq_alt. destruct (x ?= y); split; congruence.
Qed.

Lemma eqb_neq x y : eqb x y = false <-> x <> y.
Proof.
  split; intros H.
  - intros E. apply eqb_eq in E. congruence.
  - destruct (eqb x y) eqn:E; auto. apply eqb_eq in E. contradiction.
Qed.

Lemma of_Z_add a b : of_Z (a + b) = of_Z a + of_Z b.
Proof.
  unfold of_Z. apply Qc_is_canon. unfold Qcplus, Q2Qc. cbn [this].
  rewrite !Qred_correct, inject_Z_plus. reflexivity.
Qed.

Lemma of_Z_1 : of_Z 1 = 1.
Proof. apply Qc_is_canon. reflexivity. Qed.

Lemma of_Z_0 : of_Z 0 = 0.
Proof. apply Qc_is_canon. reflexivity. Qed.

Lemma of_Z_succ a : of_Z (a + 1) = of_Z a + 1.
Proof. now rewrite of_Z_add, of_Z_1. Qed.

Lemma of_Z_neq_0 a : a <> 0%Z -> of_Z a <> 0.
Proof.
  intros Ha E. apply Ha. unfold of_Z in E.
  apply Q2Qc_eq_iff in E. unfold Qeq in E. cbn [Qnum Qden inject_Z] in E. lia.
Qed.

(** Two lists of canonical fractions with the same fractions are equal. *)
Lemma this_inj (x y : Qc) : this x = this y -> x = y.
Proof. intros H. apply Qc_is_canon. now rewrite H. Qed.

Lemma map_this_inj (l1 l2 : list Qc) : map this l1 = map this l2 -> l1 = l2.
Proof.
  revert l2. induction l1 as [|x l1 IH]; intros [|y l2] H; try discriminate; auto.
  cbn in H. injection H as Hx Hl. f_equal; [now apply this_inj | now apply IH].
Qed.

End Num.

(** ** Gap repair ([repair_missing_periods], [repair]) *)

Module Repair.

Local Open Scope Qc_scope.

(** A row of a dataframe ([df.iloc[i, :]], a Series over the columns) and
    a dataframe as the list of its rows. *)
Definition row : Type := list Qc.
Definition frame : Type := list row.

(** What [accums_GW = df_MW.iloc[prior, :]] is. With copy-on-write (the
    rule of pandas 3), the Series is detached from the frame as soon as it
    is written to: [accums_GW += deltas_GW] leaves the frame alone. Without
    it (the default before pandas 3), the Series of a row of a single-dtype
    frame is a view of the frame's array and the in-place [+=] also writes
    the row [prior] of the frame. *)
Inductive row_access : Type := Detached | View.

Fixpoint map2 (f : Qc -> Qc -> Qc) (a b : row) : row :=
  match a, b with
  | x :: a', y :: b' => f x y :: map2 f a' b'
  | _, _ => []
  end.

(** Series arithmetic, column by column. *)
Definition vadd (a b : row) : row := map2 Qcplus a b.
Definition vsub (a b : row) : row := map2 Qcminus a b.
Definition vdiv (a : row) (n : Z) : row := map (fun x => x / Num.of_Z n) a.

Definition iloc (df : frame) (i : Z) : option row := Py.getitem df i.
Definition iloc_set (df : frame) (i : Z) (r : row) : option frame :=
  Py.setitem df i r.

(** [[
    for i in range(start, end):
        df_MW.iloc[i, :] = accums_GW
]] *)
Fixpoint fill (df : frame) (i : Z) (count : nat) (accums : row) : option frame :=
  match count with
  | O => Some df
  | S count' =>
      let? df := iloc_set df i accums in
      fill df (i + 1) count' accums
  end.

(** [[
    for i in range(start, end):
        df_MW.iloc[i, :] = accums_GW
        accums_GW += deltas_GW
]] *)
Fixpoint interpolate (access : row_access) (df : frame) (prior : Z) (i : Z)
    (count : nat) (accums deltas : row) : option frame :=
  match count with
  | O => Some df
  | S count' =>
      let? df := iloc_set df i accums in
      let accums := vadd accums deltas in
      let? df := match access with
                 | Detached => Some df
                 | View => iloc_set df prior accums
                 end in
      interpolate access df prior (i + 1) count' accums deltas
  end.

(** [repair(df_MW, start, end, prior, post)]. The two timestamps are read
    for the message only, but the reads index the frame. *)
Definition repair (access : row_access) (df : frame)
    (start end_ prior post : Z) : option frame :=
  let num_intervals := (end_ - start)%Z in
  let? _ := iloc df start in
  let? _ := iloc df (end_ - 1) in
  let? accums := iloc df prior in
  if (prior =? post)%Z then
    fill df start (Z.to_nat (end_ - start)) accums
  else
    let? post_row := iloc df post in
    let deltas := vdiv (vsub post_row accums) num_intervals in
    interpolate access df prior start (Z.to_nat (end_ - start)) accums deltas.

Definition two_GW : Qc := Q2Qc 2.

(** The scan of [repair_missing_periods]: [i] is the index of the next
    total, [start] the start of the open run, if any. *)
Fixpoint scan (access : row_access) (df : frame) (totals : list Qc) (i : Z)
    (start : option Z) : option (frame * option Z) :=
  match totals with
  | [] => Some (df, start)
  | power_GW :: rest =>
      match start with
      | None =>
          if Num.ltb power_GW two_GW
          then scan access df rest (i + 1) (Some i)
          else scan access df rest (i + 1) None
      | Some s =>
          if Num.geb power_GW two_GW then
            let end_ := i in
            let? df := if (0 <? s)%Z
                       then repair access df s end_ (s - 1) end_
                       else repair access df s end_ end_ end_ in
            scan access df rest (i + 1) None
          else scan access df rest (i + 1) (Some s)
      end
  end.

Definition repair_missing_periods (access : row_access) (df_MW : frame)
    (row_sum_5min_GW : list Qc) : option frame :=
  let? (df, start) := scan access df_MW row_sum_5min_GW 0 None in
  match start with
  | None => Some df
  | Some s =>
      let end_ := Z.of_nat (length row_sum_5min_GW) in
      repair access df s end_ (s - 1) (s - 1)
  end.

(** [df_five_minute.sum(1) / 1000], the totals that [main] passes. *)
Definition row_sum_5min_GW (df : frame) : list Qc :=
  map (fun r => fold_right Qcplus 0 r / Num.of_Z 1000) df.

Definition fractions (df : option frame) : option (list (list Q)) :=
  option_map (map (map this)) df.

(** The totals of the spec's examples, with a two-column frame. *)
Definition rows (values : list (Z * Z)) : frame :=
  map (fun v => [Num.of_Z (fst v); Num.of_Z (snd v)]) values.

Definition GW (values : list Z) : list Qc := map Num.of_Z values.

Example interior_gap :
  fractions (repair_missing_periods Detached
               (rows [(10, 70); (20, 60); (1, 1); (2, 2); (3, 3); (80, 0);
                      (90, 5)]%Z)
               (GW [5; 5; 1; 1; 1; 6; 6]%Z))
  = Some [[10 # 1; 70 # 1]; [20 # 1; 60 # 1];
          [20 # 1; 60 # 1]; [40 # 1; 40 # 1]; [60 # 1; 20 # 1];
          [80 # 1; 0 # 1]; [90 # 1; 5 # 1]]%Q.
Proof. vm_compute. reflexivity. Qed.

Example leading_gap :
  fractions (repair_missing_periods Detached
               (rows [(1, 1); (2, 2); (30, 40); (50, 60)]%Z)
               (GW [1; 1; 6; 6]%Z))
  = Some [[30 # 1; 40 # 1]; [30 # 1; 40 # 1]; [30 # 1; 40 # 1];
          [50 # 1; 60 # 1]]%Q.
Proof. vm_compute. reflexivity. Qed.

Example trailing_gap :
  fractions (repair_missing_periods Detached
               (rows [(30, 40); (50, 60); (1, 1); (2, 2)]%Z)
               (GW [6; 6; 1; 1]%Z))
  = Some [[30 # 1; 40 # 1]; [50 # 1; 60 # 1]; [50 # 1; 60 # 1];
          [50 # 1; 60 # 1]]%Q.
Proof. vm_compute. reflexivity. Qed.

(** With a view the repair of the same interior gap also leaves row 1 with
    the values of row 5. *)
Example interior_gap_view :
  fractions (repair_missing_periods View
               (rows [(10, 70); (20, 60); (1, 1); (2, 2); (3, 3); (80, 0);
                      (90, 5)]%Z)
               (GW [5; 5; 1; 1; 1; 6; 6]%Z))
  = Some [[10 # 1; 70 # 1]; [80 # 1; 0 # 1];
          [20 # 1; 60 # 1]; [40 # 1; 40 # 1]; [60 # 1; 20 # 1];
          [80 # 1; 0 # 1]; [90 # 1; 5 # 1]]%Q.
Proof. vm_compute. reflexivity. Qed.

(** *** Rows written by the two loops *)

Local Open Scope nat_scope.

Lemma iloc_nat (df : frame) n :
  n < length df -> iloc df (Z.of_nat n) = nth_error df n.
Proof.
  intros H. unfold iloc, Py.getitem. now rewrite Py.py_index_of_nat.
Qed.

Lemma iloc_set_nat (df : frame) n r :
  n < length df -> iloc_set df (Z.of_nat n) r = Some (Py.set_nth df n r).
Proof.
  intros H. unfold iloc_set, Py.setitem. now rewrite Py.py_index_of_nat.
Qed.

Lemma nth_error_set_nth (df : frame) n r m :
  n < length df ->
  nth_error (Py.set_nth df n r) m = if m =? n then Some r else nth_error df m.
Proof.
  intros H. destruct (Nat.eqb_spec m n) as [-> | Hne].
  - now apply Py.nth_error_set_nth_eq.
  - apply Py.nth_error_set_nth_ne. congruence.
Qed.

(** The accumulator after [j] additions of the deltas. *)
Fixpoint steps (j : nat) (accums deltas : row) : row :=
  match j with
  | O => accums
  | S j' => steps j' (vadd accums deltas) deltas
  end.

Definition in_range (s count r : nat) : bool := (s <=? r) && (r <? s + count).

Lemma fill_spec count : forall (df : frame) s accums,
  s + count <= length df ->
  exists df',
    fill df (Z.of_nat s) count accums = Some df' /\
    length df' = length df /\
    forall r, nth_error df' r
              = if in_range s count r then Some accums else nth_error df r.
Proof.
  induction count as [|count IH]; intros df s accums Hlen.
  - exists df. repeat split; auto. intros r. unfold in_range.
    destruct (s <=? r) eqn:E1, (r <? s + 0) eqn:E2; auto.
    apply Nat.leb_le in E1. apply Nat.ltb_lt in E2. lia.
  - cbn [fill]. rewrite iloc_set_nat by lia. cbn [Py.obind].
    replace (Z.of_nat s + 1)%Z with (Z.of_nat (S s)) by lia.
    destruct (IH (Py.set_nth df s accums) (S s) accums) as (df' & H1 & H2 & H3).
    { rewrite Py.length_set_nth. lia. }
    exists df'. rewrite Py.length_set_nth in H2. repeat split; auto.
    intros r. rewrite H3, nth_error_set_nth by lia. unfold in_range.
    destruct (Nat.eqb_spec r s) as [-> | Hne].
    + replace (S s <=? s) with false by (symmetry; apply Nat.leb_gt; lia).
      replace (s <=? s) with true by (symmetry; apply Nat.leb_le; lia).
      replace (s <? s + S count) with true by (symmetry; apply Nat.ltb_lt; lia).
      reflexivity.
    + destruct (S s <=? r) eqn:E1, (r <? S s + count) eqn:E2,
        (s <=? r) eqn:E3, (r <? s + S count) eqn:E4; cbn; auto;
        rewrite ?Nat.leb_le, ?Nat.leb_gt, ?Nat.ltb_lt, ?Nat.ltb_ge in *; lia.
Qed.

Lemma interpolate_spec count : forall (df : frame) prior s accums deltas,
  s + count <= length df ->
  exists df',
    interpolate Detached df prior (Z.of_nat s) count accums deltas = Some df' /\
    length df' = length df /\
    forall r, nth_error df' r
              = if in_range s count r then Some (steps (r - s) accums deltas)
                else nth_error df r.
Proof.
  induction count as [|count IH]; intros df prior s accums deltas Hlen.
  - exists df. repeat split; auto. intros r. unfold in_range.
    destruct (s <=? r) eqn:E1, (r <? s + 0) eqn:E2; auto.
    apply Nat.leb_le in E1. apply Nat.ltb_lt in E2. lia.
  - cbn [interpolate]. rewrite iloc_set_nat by lia. cbn [Py.obind].
    replace (Z.of_nat s + 1)%Z with (Z.of_nat (S s)) by lia.
    destruct (IH (Py.set_nth df s accums) prior (S s) (vadd accums deltas) deltas)
      as (df' & H1 & H2 & H3).
    { rewrite Py.length_set_nth. lia. }
    exists df'. rewrite Py.length_set_nth in H2. repeat split; auto.
    intros r. rewrite H3, nth_error_set_nth by lia. unfold in_range.
    destruct (Nat.eqb_spec r s) as [-> | Hne].
    + replace (S s <=? s) with false by (symmetry; apply Nat.leb_gt; lia).
      replace (s <=? s) with true by (symmetry; apply Nat.leb_le; lia).
      replace (s <? s + S count) with true by (symmetry; apply Nat.ltb_lt; lia).
      cbn. now rewrite Nat.sub_diag.
    + destruct (S s <=? r) eqn:E1, (r <? S s + count) eqn:E2,
        (s <=? r) eqn:E3, (r <? s + S count) eqn:E4; cbn; auto;
        rewrite ?Nat.leb_le, ?Nat.leb_gt, ?Nat.ltb_lt, ?Nat.ltb_ge in *;
        try lia.
      replace (r - s) with (S (r - S s)) by lia. reflexivity.
Qed.

(** A cell of a row after [j] steps. *)
Lemma nth_error_map2 f (a b : row) c x y :
  nth_error a c = Some x -> nth_error b c = Some y ->
  nth_error (map2 f a b) c = Some (f x y).
Proof.
  revert b c. induction a as [|h a IH]; intros [|k b] [|c] Ha Hb;
    try discriminate; cbn in *.
  - congruence.
  - now apply IH.
Qed.

Lemma nth_error_steps j : forall accums deltas c x d,
  nth_error accums c = Some x -> nth_error deltas c = Some d ->
  nth_error (steps j accums deltas) c
  = Some (x + Num.of_Z (Z.of_nat j) * d)%Qc.
Proof.
  induction j as [|j IH]; intros accums deltas c x d Hx Hd.
  - cbn [steps]. rewrite Hx. f_equal. change (Z.of_nat 0) with 0%Z.
    rewrite Num.of_Z_0. ring.
  - cbn [steps]. rewrite (IH _ _ c (x + d)%Qc d); auto.
    + f_equal. rewrite Nat2Z.inj_succ, <- Z.add_1_r, Num.of_Z_succ. ring.
    + now apply nth_error_map2.
Qed.

Lemma nth_error_deltas post prior n c a b :
  nth_error prior c = Some a -> nth_error post c = Some b ->
  nth_error (vdiv (vsub post prior) n) c = Some ((b - a) / Num.of_Z n)%Qc.
Proof.
  intros Ha Hb. unfold vdiv, vsub.
  rewrite nth_error_map, (nth_error_map2 Qcminus _ _ _ Hb Ha). reflexivity.
Qed.

(** *** The three shapes of a repair *)

Lemma repair_interior (df : frame) s e :
  0 < s -> s < e -> e < length df ->
  exists df' prior post,
    nth_error df (s - 1) = Some prior /\ nth_error df e = Some post /\
    repair Detached df (Z.of_nat s) (Z.of_nat e) (Z.of_nat s - 1) (Z.of_nat e)
    = Some df' /\
    length df' = length df /\
    forall r, nth_error df' r
              = if in_range s (e - s) r
                then Some (steps (r - s) prior
                             (vdiv (vsub post prior) (Z.of_nat e - Z.of_nat s)))
                else nth_error df r.
Proof.
  intros Hs Hse He. unfold repair.
  replace (Z.of_nat s - 1)%Z with (Z.of_nat (s - 1)) by lia.
  replace (Z.of_nat e - 1)%Z with (Z.of_nat (e - 1)) by lia.
  rewrite !iloc_nat by lia.
  destruct (nth_error df s) as [rs|] eqn:E1;
    [|apply nth_error_None in E1; lia].
  destruct (nth_error df (e - 1)) as [re|] eqn:E2;
    [|apply nth_error_None in E2; lia].
  destruct (nth_error df (s - 1)) as [prior|] eqn:E3;
    [|apply nth_error_None in E3; lia].
  destruct (nth_error df e) as [post|] eqn:E4;
    [|apply nth_error_None in E4; lia].
  cbn [Py.obind].
  replace (Z.of_nat (s - 1) =? Z.of_nat e)%Z with false
    by (symmetry; apply Z.eqb_neq; lia).
  replace (Z.to_nat (Z.of_nat e - Z.of_nat s)) with (e - s) by lia.
  destruct (@interpolate_spec (e - s) df (Z.of_nat (s - 1)) s prior
              (vdiv (vsub post prior) (Z.of_nat e - Z.of_nat s)))
    as (df' & H1 & H2 & H3); [lia|].
  exists df', prior, post. auto.
Qed.

Lemma repair_leading (df : frame) e :
  0 < e -> e < length df ->
  exists df',
    repair Detached df 0 (Z.of_nat e) (Z.of_nat e) (Z.of_nat e) = Some df' /\
    length df' = length df /\
    forall r, nth_error df' r
              = if in_range 0 e r then nth_error df e else nth_error df r.
Proof.
  intros He Hlen. unfold repair.
  replace (Z.of_nat e - 1)%Z with (Z.of_nat (e - 1)) by lia.
  change 0%Z with (Z.of_nat 0).
  rewrite !iloc_nat by lia.
  destruct (nth_error df 0) as [r0|] eqn:E1;
    [|apply nth_error_None in E1; lia].
  destruct (nth_error df (e - 1)) as [re|] eqn:E2;
    [|apply nth_error_None in E2; lia].
  destruct (nth_error df e) as [post|] eqn:E4;
    [|apply nth_error_None in E4; lia].
  cbn [Py.obind]. rewrite Z.eqb_refl.
  replace (Z.to_nat (Z.of_nat e - Z.of_nat 0)) with e by lia.
  destruct (@fill_spec e df 0 post) as (df' & H1 & H2 & H3); [lia|].
  exists df'. auto.
Qed.

Lemma repair_trailing (df : frame) s :
  0 < s -> s < length df ->
  exists df',
    repair Detached df (Z.of_nat s) (Z.of_nat (length df)) (Z.of_nat s - 1)
      (Z.of_nat s - 1) = Some df' /\
    length df' = length df /\
    forall r, nth_error df' r
              = if in_range s (length df - s) r then nth_error df (s - 1)
                else nth_error df r.
Proof.
  intros Hs Hlen. unfold repair.
  replace (Z.of_nat s - 1)%Z with (Z.of_nat (s - 1)) by lia.
  replace (Z.of_nat (length df) - 1)%Z with (Z.of_nat (length df - 1)) by lia.
  rewrite !iloc_nat by lia.
  destruct (nth_error df s) as [rs|] eqn:E1;
    [|apply nth_error_None in E1; lia].
  destruct (nth_error df (length df - 1)) as [re|] eqn:E2;
    [|apply nth_error_None in E2; lia].
  destruct (nth_error df (s - 1)) as [prior|] eqn:E3;
    [|apply nth_error_None in E3; lia].
  cbn [Py.obind]. rewrite Z.eqb_refl.
  replace (Z.to_nat (Z.of_nat (length df) - Z.of_nat s))
    with (length df - s) by lia.
  destruct (@fill_spec (length df - s) df s prior) as (df' & H1 & H2 & H3);
    [lia|].
  exists df'. auto.
Qed.

(** A run over the whole frame: [prior] is [-1], the last row. *)
Lemma repair_whole (df : frame) :
  0 < length df ->
  exists df',
    repair Detached df 0 (Z.of_nat (length df)) (0 - 1) (0 - 1) = Some df' /\
    length df' = length df.
Proof.
  intros Hlen. unfold repair.
  replace (Z.of_nat (length df) - 1)%Z with (Z.of_nat (length df - 1)) by lia.
  change 0%Z with (Z.of_nat 0) at 1.
  rewrite !iloc_nat by lia.
  destruct (nth_error df 0) as [r0|] eqn:E1;
    [|apply nth_error_None in E1; lia].
  destruct (nth_error df (length df - 1)) as [re|] eqn:E2;
    [|apply nth_error_None in E2; lia].
  cbn [Py.obind]. unfold iloc, Py.getitem.
  rewrite Py.py_index_neg by lia.
  replace (Z.to_nat (0 - 1 + Z.of_nat (length df))) with (length df - 1) by lia.
  rewrite E2. cbn [Py.obind]. rewrite Z.eqb_refl.
  replace (Z.to_nat (Z.of_nat (length df) - 0)) with (length df - 0) by lia.
  destruct (@fill_spec (length df - 0) df 0 re) as (df' & H1 & H2 & H3); [lia|].
  exists df'. auto.
Qed.

(** *** The scan *)

Section Scan.

Variable orig : frame.
Variable totals : list Qc.
Hypothesis same_length : length totals = length orig.

Let N := length orig.

(** Row [r] has a total below the threshold. *)
Definition below (r : nat) : bool :=
  match nth_error totals r with
  | Some power_GW => Num.ltb power_GW two_GW
  | None => false
  end.

(** [s, e) is a gap run: its rows are below the threshold, and it is
    bounded by the start of the frame or a row at or above the threshold,
    and by such a row or the end of the frame. *)
Definition run (s e : nat) : Prop :=
  s < e <= N /\ (forall r, s <= r < e -> below r = true) /\
  (s = 0 \/ below (s - 1) = false) /\ (e = N \/ below e = false).

(** The rows of the run [s, e) hold the repaired values. *)
Definition repaired (df : frame) (s e : nat) : Prop :=
  (0 < s -> e < N -> forall r, s <= r < e ->
     exists prior post,
       nth_error orig (s - 1) = Some prior /\ nth_error orig e = Some post /\
       nth_error df r
       = Some (steps (r - s) prior
                 (vdiv (vsub post prior) (Z.of_nat e - Z.of_nat s)))) /\
  (s = 0 -> e < N -> forall r, r < e -> nth_error df r = nth_error orig e) /\
  (0 < s -> e = N -> forall r, s <= r < N ->
     nth_error df r = nth_error orig (s - 1)).

Lemma run_unique s e s' e' r :
  run s e -> run s' e' -> s <= r < e -> s' <= r < e' -> s = s' /\ e = e'.
Proof.
  intros (R1 & R2 & R3 & R4) (R1' & R2' & R3' & R4') Hr Hr'. split.
  - destruct (Nat.lt_trichotomy s s') as [L | [E | G]]; auto.
    + destruct R3' as [-> | B]; [lia|].
      rewrite R2 in B by lia. discriminate.
    + destruct R3 as [-> | B]; [lia|].
      rewrite R2' in B by lia. discriminate.
  - destruct (Nat.lt_trichotomy e e') as [L | [E | G]]; auto.
    + destruct R4 as [-> | B]; [lia|].
      rewrite R2' in B by lia. discriminate.
    + destruct R4' as [-> | B]; [lia|].
      rewrite R2 in B by lia. discriminate.
Qed.

(** The state of the scan before row [i]: [start] is the open run. *)
Definition low (i : nat) (start : option nat) : nat :=
  match start with Some s => s | None => i end.

Record scan_inv (i : nat) (start : option nat) (df : frame) : Prop := {
  inv_length : length df = N;
  inv_ahead : forall r, low i start <= r + 1 ->
                        nth_error df r = nth_error orig r;
  inv_above : forall r, below r = false -> nth_error df r = nth_error orig r;
  inv_closed : forall s e, run s e -> e <= low i start -> repaired df s e;
  inv_open : match start with
             | Some s => s < i /\ (forall r, s <= r < i -> below r = true) /\
                         (s = 0 \/ below (s - 1) = false)
             | None => i = 0 \/ below (i - 1) = false
             end
}.

Lemma repaired_ext df df' s e :
  (forall r, s <= r < e -> nth_error df' r = nth_error df r) ->
  repaired df s e -> repaired df' s e.
Proof.
  intros Hext (P1 & P2 & P3). repeat split.
  - intros Hs He r Hr. destruct (P1 Hs He r Hr) as (prior & post & A & B & C).
    exists prior, post. rewrite Hext by lia. auto.
  - intros Hs He r Hr. rewrite Hext by lia. auto.
  - intros Hs He r Hr. rewrite Hext by lia. auto.
Qed.

Lemma in_range_true s count r :
  in_range s count r = true <-> s <= r < s + count.
Proof.
  unfold in_range. rewrite andb_true_iff, Nat.leb_le, Nat.ltb_lt. tauto.
Qed.

Lemma in_range_false s count r :
  in_range s count r = false <-> ~ (s <= r < s + count).
Proof.
  rewrite <- in_range_true. destruct (in_range s count r); split; congruence.
Qed.

Lemma scan_inv_init : scan_inv 0 None orig.
Proof.
  split; auto.
  - intros s e (R1 & _) He. cbn in He. lia.
Qed.

Lemma scan_inv_open i df :
  scan_inv i None df -> below i = true -> scan_inv (S i) (Some i) df.
Proof.
  intros [I1 I2 I3 I4 I5] Hb. cbn [low] in *. split; auto.
  cbn [low] in *. repeat split; auto.
  intros r Hr. assert (r = i) by lia. now subst.
Qed.

Lemma scan_inv_skip i df :
  scan_inv i None df -> below i = false -> scan_inv (S i) None df.
Proof.
  intros [I1 I2 I3 I4 I5] Hb. split; auto; cbn [low] in *.
  - intros r Hr. apply I2. lia.
  - intros s e Hrun He. destruct (Nat.eq_dec e (S i)) as [-> | Hne].
    + destruct Hrun as (R1 & R2 & _). rewrite R2 in Hb by lia. discriminate.
    + apply I4; auto. lia.
  - right. now rewrite Nat.sub_succ, Nat.sub_0_r.
Qed.

Lemma scan_inv_extend i s df :
  scan_inv i (Some s) df -> below i = true -> scan_inv (S i) (Some s) df.
Proof.
  intros [I1 I2 I3 I4 I5] Hb. split; auto; cbn [low] in *.
  destruct I5 as (A & B & C). repeat split; auto.
  intros r Hr. destruct (Nat.eq_dec r i) as [-> | Hne]; auto.
  apply B. lia.
Qed.

Lemma open_run_is_run i s df :
  scan_inv i (Some s) df -> below i = false -> i < N -> run s i.
Proof.
  intros [I1 I2 I3 I4 (A & B & C)] Hb Hi. repeat split; auto; lia.
Qed.

Lemma scan_inv_close i s df df1 :
  scan_inv i (Some s) df -> below i = false -> i < N ->
  length df1 = N ->
  (forall r, ~ (s <= r < i) -> nth_error df1 r = nth_error df r) ->
  repaired df1 s i ->
  scan_inv (S i) None df1.
Proof.
  intros Hinv Hb Hi Hlen Hout Hrep.
  pose proof (open_run_is_run Hinv Hb Hi) as Hrun.
  destruct Hinv as [I1 I2 I3 I4 (A & B & C)]. cbn [low] in *.
  split; auto; cbn [low].
  - intros r Hr. rewrite Hout by lia. apply I2. lia.
  - intros r Hr. rewrite Hout; auto.
    intros Hin. rewrite B in Hr by lia. discriminate.
  - intros s' e' Hrun' He'.
    destruct (Nat.eq_dec e' (S i)) as [-> | Hne].
    { destruct Hrun' as (R1 & R2 & _). rewrite R2 in Hb by lia. discriminate. }
    destruct (le_lt_dec e' s) as [Hle | Hgt].
    + apply (@repaired_ext df); [|apply I4; auto].
      intros r Hr. apply Hout. lia.
    + assert (Hs' : s' < e') by (destruct Hrun' as ((? & ?) & _); lia).
      destruct (@run_unique s i s' e' (e' - 1) Hrun Hrun') as [<- <-];
        try lia; auto.
  - right. now rewrite Nat.sub_succ, Nat.sub_0_r.
Qed.

Lemma skipn_cons_inv {A} (l : list A) i x rest :
  skipn i l = x :: rest -> nth_error l i = Some x /\ skipn (S i) l = rest.
Proof.
  revert i. induction l as [|h t IH]; intros [|i] H; cbn in *; try discriminate.
  - injection H as -> ->. auto.
  - now apply IH.
Qed.

Lemma scan_spec rest : forall i start df,
  skipn i totals = rest -> i <= N -> scan_inv i start df ->
  exists df' st',
    scan Detached df rest (Z.of_nat i) (option_map Z.of_nat start)
    = Some (df', option_map Z.of_nat st') /\
    scan_inv N st' df'.
Proof.
  induction rest as [|p rest IH]; intros i start df Hskip Hi Hinv.
  - assert (i = N).
    { apply (f_equal (@length Qc)) in Hskip. rewrite length_skipn in Hskip.
      cbn in Hskip. unfold N in *. lia. }
    subst i. exists df, start. auto.
  - destruct (skipn_cons_inv _ _ Hskip) as [Hp Hrest].
    assert (HiN : i < N).
    { unfold N. rewrite <- same_length. apply nth_error_Some. congruence. }
    assert (Hbelow : below i = Num.ltb p two_GW) by (unfold below; now rewrite Hp).
    cbn [scan].
    replace (Z.of_nat i + 1)%Z with (Z.of_nat (S i)) by lia.
    destruct start as [s|]; cbn [option_map].
    + unfold Num.geb. destruct (Num.ltb p two_GW) eqn:E; cbn [negb].
      * apply (IH (S i) (Some s) df); auto. now apply scan_inv_extend.
      * pose proof (inv_open Hinv) as (Hsi & Hrows & Hstart).
        pose proof (inv_length Hinv) as Hlen.
        destruct (0 <? Z.of_nat s)%Z eqn:Es.
        -- apply Z.ltb_lt in Es.
           destruct (@repair_interior df s i) as
             (df1 & prior & post & Hprior & Hpost & Hrep & Hlen1 & Hrows1);
             try lia.
           rewrite Hrep. cbn [Py.obind].
           apply (IH (S i) None df1); auto.
           apply (scan_inv_close Hinv); auto; try congruence.
           ++ intros r Hr. rewrite Hrows1.
              replace (in_range s (i - s) r) with false; auto.
              symmetry. apply in_range_false. lia.
           ++ repeat split; try lia.
              intros _ _ r Hr. exists prior, post.
              rewrite <- !(inv_ahead Hinv) by (cbn [low]; lia).
              rewrite Hrows1.
              replace (in_range s (i - s) r) with true; auto.
              symmetry. apply in_range_true. lia.
        -- apply Z.ltb_ge in Es. assert (s = 0) by lia. subst s.
           destruct (@repair_leading df i) as (df1 & Hrep & Hlen1 & Hrows1);
             try lia.
           change (Z.of_nat 0) with 0%Z. rewrite Hrep. cbn [Py.obind].
           apply (IH (S i) None df1); auto.
           apply (scan_inv_close Hinv); auto; try congruence.
           ++ intros r Hr. rewrite Hrows1.
              replace (in_range 0 i r) with false; auto.
              symmetry. apply in_range_false. lia.
           ++ repeat split; try lia.
              intros _ _ r Hr.
              rewrite <- (inv_ahead Hinv i) by (cbn [low]; lia).
              rewrite Hrows1.
              replace (in_range 0 i r) with true; auto.
              symmetry. apply in_range_true. lia.
    + destruct (Num.ltb p two_GW) eqn:E.
      * apply (IH (S i) (Some i) df); auto. now apply scan_inv_open.
      * apply (IH (S i) None df); auto. now apply scan_inv_skip.
Qed.

(** The whole function: the frame it returns, by runs. *)
Lemma repair_missing_periods_spec :
  exists df',
    repair_missing_periods Detached orig totals = Some df' /\
    length df' = N /\
    (forall r, below r = false -> nth_error df' r = nth_error orig r) /\
    (forall s e, run s e -> repaired df' s e).
Proof.
  destruct (@scan_spec totals 0 None orig eq_refl (Nat.le_0_l _) scan_inv_init)
    as (df1 & st & Hscan & Hinv).
  unfold repair_missing_periods. cbn [option_map] in Hscan.
  change (Z.of_nat 0) with 0%Z in Hscan. rewrite Hscan. cbn [Py.obind].
  pose proof (inv_length Hinv) as Hlen.
  destruct st as [s|]; cbn [option_map].
  - pose proof (inv_open Hinv) as (HsN & Hrows & Hstart).
    assert (Hrun : run s N) by (repeat split; auto; lia).
    rewrite same_length. fold N. rewrite <- Hlen.
    destruct (Nat.eq_dec s 0) as [-> | Hs].
    + destruct (@repair_whole df1) as (df2 & Hrep & Hlen2); [lia|].
      change (Z.of_nat 0) with 0%Z. rewrite Hrep.
      exists df2. repeat split; try congruence.
      * intros r Hr. destruct (le_lt_dec N r) as [Hge | Hlt].
        -- transitivity (@None row); [apply nth_error_None; lia|].
           symmetry. apply nth_error_None. unfold N in Hge. lia.
        -- rewrite Hrows in Hr by lia. discriminate.
      * intros Hs. destruct (@run_unique 0 N s e (e - 1) Hrun H) as [<- <-];
          destruct H as ((? & ?) & _); lia.
      * intros Hs. destruct (@run_unique 0 N s e (e - 1) Hrun H) as [<- <-];
          destruct H as ((? & ?) & _); lia.
      * intros Hs. destruct (@run_unique 0 N s e (e - 1) Hrun H) as [<- <-];
          destruct H as ((? & ?) & _); lia.
    + destruct (@repair_trailing df1 s) as (df2 & Hrep & Hlen2 & Hrows2);
        try lia.
      rewrite Hrep. exists df2. split; auto. split; [congruence|].
      assert (Hout : forall r, ~ (s <= r < N) -> nth_error df2 r = nth_error df1 r).
      { intros r Hr. rewrite Hrows2.
        replace (in_range s (length df1 - s) r) with false; auto.
        symmetry. apply in_range_false. lia. }
      split.
      * intros r Hr. rewrite Hout; [now apply (inv_above Hinv)|].
        intros Hin. rewrite Hrows in Hr by lia. discriminate.
      * intros s' e' Hrun'.
        destruct (le_lt_dec e' s) as [Hle | Hgt].
        -- apply (@repaired_ext df1); [|apply (inv_closed Hinv); auto].
           intros r Hr. apply Hout. lia.
        -- assert (Hs' : s' < e' <= N) by (destruct Hrun' as (? & _); lia).
           destruct (@run_unique s N s' e' (e' - 1) Hrun Hrun') as [<- <-];
             try lia.
           repeat split; try lia.
           intros _ _ r Hr. rewrite Hrows2.
           replace (in_range s (length df1 - s) r) with true
             by (symmetry; apply in_range_true; lia).
           apply (inv_ahead Hinv). cbn [low]. lia.
  - exists df1. repeat split; auto.
    + apply (inv_above Hinv).
    + apply (inv_closed Hinv); auto. destruct H as ((? & ?) & _). cbn [low]. lia.
    + apply (inv_closed Hinv); auto. destruct H as ((? & ?) & _). cbn [low]. lia.
    + apply (inv_closed Hinv); auto. destruct H as ((? & ?) & _). cbn [low]. lia.
Qed.
End Scan.

Definition cell (df : frame) (r c : nat) : option Qc :=
  match nth_error df r with
  | Some values => nth_error values c
  | None => None
  end.

(** *** The repair of an interior run through a view

    Where [accums_GW] is a view of the row [prior] of the frame, every
    [accums_GW += deltas_GW] is also a write to that row: the rows of the
    run come out the same, and the row before the run ends as the
    accumulator after the last step, which is the row after the run. *)

Lemma interpolate_view_spec count : forall (df : frame) prior s accums deltas,
  s + count <= length df -> prior < s ->
  exists df',
    interpolate View df (Z.of_nat prior) (Z.of_nat s) count accums deltas
    = Some df' /\
    length df' = length df /\
    forall r, nth_error df' r
              = if in_range s count r then Some (steps (r - s) accums deltas)
                else if (r =? prior) && (0 <? count)
                     then Some (steps count accums deltas)
                     else nth_error df r.
Proof.
  induction count as [|count IH]; intros df prior s accums deltas Hlen Hp.
  - exists df. repeat split; auto. intros r.
    replace (in_range s 0 r) with false
      by (symmetry; apply in_range_false; lia).
    now rewrite andb_false_r.
  - cbn [interpolate]. rewrite iloc_set_nat by lia. cbn [Py.obind].
    rewrite iloc_set_nat by (rewrite Py.length_set_nth; lia).
    cbn [Py.obind].
    replace (Z.of_nat s + 1)%Z with (Z.of_nat (S s)) by lia.
    destruct (IH (Py.set_nth (Py.set_nth df s accums) prior
                    (vadd accums deltas))
                 prior (S s) (vadd accums deltas) deltas)
      as (df' & H1 & H2 & H3).
    { rewrite !Py.length_set_nth. lia. }
    { lia. }
    exists df'. rewrite !Py.length_set_nth in H2. repeat split; auto.
    intros r. rewrite H3.
    rewrite !nth_error_set_nth by (rewrite ?Py.length_set_nth; lia).
    destruct (in_range (S s) count r) eqn:R1.
    + apply in_range_true in R1.
      replace (in_range s (S count) r) with true
        by (symmetry; apply in_range_true; lia).
      replace (r - s) with (S (r - S s)) by lia. reflexivity.
    + apply in_range_false in R1.
      destruct (Nat.eqb_spec r prior) as [Ep | Np].
      * replace (in_range s (S count) r) with false
          by (symmetry; apply in_range_false; lia).
        cbn [andb]. change (0 <? S count) with true.
        destruct (0 <? count) eqn:Ec; [reflexivity|].
        apply Nat.ltb_ge in Ec. now replace count with 0 by lia.
      * cbn [andb]. destruct (Nat.eqb_spec r s) as [Es | Ns].
        -- replace (in_range s (S count) r) with true
             by (symmetry; apply in_range_true; lia).
           rewrite Es, Nat.sub_diag. reflexivity.
        -- replace (in_range s (S count) r) with false
             by (symmetry; apply in_range_false; lia).
           reflexivity.
Qed.

Lemma repair_interior_view (df : frame) s e :
  0 < s -> s < e -> e < length df ->
  exists df' prior post,
    nth_error df (s - 1) = Some prior /\ nth_error df e = Some post /\
    repair View df (Z.of_nat s) (Z.of_nat e) (Z.of_nat s - 1) (Z.of_nat e)
    = Some df' /\
    length df' = length df /\
    (forall r, s <= r < e ->
               nth_error df' r
               = Some (steps (r - s) prior
                         (vdiv (vsub post prior) (Z.of_nat e - Z.of_nat s)))) /\
    (forall r, r <> s - 1 -> ~ s <= r < e ->
               nth_error df' r = nth_error df r) /\
    forall c a b,
      nth_error prior c = Some a -> nth_error post c = Some b ->
      option_map (fun values => nth_error values c) (nth_error df' (s - 1))
      = Some (Some b).
Proof.
  intros Hs Hse He. unfold repair.
  replace (Z.of_nat s - 1)%Z with (Z.of_nat (s - 1)) by lia.
  replace (Z.of_nat e - 1)%Z with (Z.of_nat (e - 1)) by lia.
  rewrite !iloc_nat by lia.
  destruct (nth_error df s) as [rs|] eqn:E1;
    [|apply nth_error_None in E1; lia].
  destruct (nth_error df (e - 1)) as [re|] eqn:E2;
    [|apply nth_error_None in E2; lia].
  destruct (nth_error df (s - 1)) as [prior|] eqn:E3;
    [|apply nth_error_None in E3; lia].
  destruct (nth_error df e) as [post|] eqn:E4;
    [|apply nth_error_None in E4; lia].
  cbn [Py.obind].
  replace (Z.of_nat (s - 1) =? Z.of_nat e)%Z with false
    by (symmetry; apply Z.eqb_neq; lia).
  replace (Z.to_nat (Z.of_nat e - Z.of_nat s)) with (e - s) by lia.
  destruct (@interpolate_view_spec (e - s) df (s - 1) s prior
              (vdiv (vsub post prior) (Z.of_nat e - Z.of_nat s)))
    as (df' & H1 & H2 & H3); [lia | lia |].
  exists df', prior, post.
  split; [reflexivity|]. split; [reflexivity|]. split; [exact H1|].
  split; [exact H2|]. split; [|split].
  - intros r Hr. rewrite H3.
    now replace (in_range s (e - s) r) with true
      by (symmetry; apply in_range_true; lia).
  - intros r Hn Hr. rewrite H3.
    replace (in_range s (e - s) r) with false
      by (symmetry; apply in_range_false; lia).
    replace (r =? s - 1) with false by (symmetry; apply Nat.eqb_neq; lia).
    reflexivity.
  - intros c a b Ha Hb. rewrite H3.
    replace (in_range s (e - s) (s - 1)) with false
      by (symmetry; apply in_range_false; lia).
    rewrite Nat.eqb_refl.
    replace (0 <? e - s) with true by (symmetry; apply Nat.ltb_lt; lia).
    cbn [andb option_map].
    rewrite (nth_error_steps (e - s) _ _ c Ha
               (nth_error_deltas _ _ (Z.of_nat e - Z.of_nat s) c Ha Hb)).
    do 2 f_equal.
    replace (Z.of_nat (e - s)) with (Z.of_nat e - Z.of_nat s)%Z by lia.
    field. apply Num.of_Z_neq_0. lia.
Qed.

(** Gap repair with a Series detached from the frame (copy-on-write, the
    rule of pandas 3): for a frame and as many row totals, a gap run
    [s, e) is a maximal run of rows whose total is below 2.0 (it starts at
    the first row below 2.0 and ends at the first later row at or above
    it). The function returns a frame of the same height in which every
    row outside the runs, the row [e] of a run included, is unchanged;
    every cell of the rows [s .. e-1] of an interior run is
    a + (r - s) * (b - a) / (e - s) for the values [a] at row [s-1] and [b]
    at row [e] of its column; the rows of a leading run are the row [e];
    the rows of a trailing run that does not start at row 0 are the row
    [s-1]. *)
Theorem gap_repair (orig : frame) (totals : list Qc) :
  length totals = length orig ->
  exists df',
    repair_missing_periods Detached orig totals = Some df' /\
    length df' = length orig /\
    (forall r, below totals r = false -> nth_error df' r = nth_error orig r) /\
    (forall s e r c a b,
       run orig totals s e -> 0 < s -> e < length orig -> s <= r < e ->
       cell orig (s - 1) c = Some a -> cell orig e c = Some b ->
       cell df' r c
       = Some (a + Num.of_Z (Z.of_nat r - Z.of_nat s)
                   * ((b - a) / Num.of_Z (Z.of_nat e - Z.of_nat s)))%Qc) /\
    (forall e r,
       run orig totals 0 e -> e < length orig -> r < e ->
       nth_error df' r = nth_error orig e) /\
    (forall s r,
       run orig totals s (length orig) -> 0 < s -> s <= r < length orig ->
       nth_error df' r = nth_error orig (s - 1)).
Proof.
  intros Hlen.
  destruct (@repair_missing_periods_spec orig totals Hlen)
    as (df' & H1 & H2 & H3 & H4).
  exists df'. repeat split; auto.
  - intros s e r c a b Hrun Hs He Hr Ha Hb.
    destruct (H4 s e Hrun) as (P1 & _ & _).
    destruct (P1 Hs He r Hr) as (prior & post & E1 & E2 & E3).
    unfold cell in *. rewrite E1 in Ha. rewrite E2 in Hb. rewrite E3.
    rewrite (nth_error_steps (r - s) _ _ c Ha
               (nth_error_deltas _ _ (Z.of_nat e - Z.of_nat s) c Ha Hb)).
    replace (Z.of_nat (r - s)) with (Z.of_nat r - Z.of_nat s)%Z by lia.
    reflexivity.
  - intros e r Hrun He Hr. destruct (H4 0 e Hrun) as (_ & P2 & _). auto.
  - intros s r Hrun Hs Hr. destruct (H4 s _ Hrun) as (_ & _ & P3). auto.
Qed.

Lemma gap_repair_witness :
  exists df',
    repair_missing_periods Detached
      (rows [(10, 70); (20, 60); (1, 1); (2, 2); (3, 3); (80, 0); (90, 5)]%Z)
      (GW [5; 5; 1; 1; 1; 6; 6]%Z) = Some df' /\
    length df' = 7.
Proof.
  destruct (@gap_repair
              (rows [(10, 70); (20, 60); (1, 1); (2, 2); (3, 3); (80, 0);
                     (90, 5)]%Z)
              (GW [5; 5; 1; 1; 1; 6; 6]%Z) eq_refl) as (df' & H1 & H2 & _).
  exists df'. split; [exact H1 | exact H2].
Defined.

(** *** The scan through a view

    The invariant of the scan where [accums_GW] is a view of the frame: the
    rows of a closed run are repaired, and the row before a closed interior
    run holds the accumulator after its last step. *)

Lemma repair_fill_access (access : row_access) (df : frame) (s e p : Z) :
  repair access df s e p p = repair Detached df s e p p.
Proof. unfold repair. now rewrite Z.eqb_refl. Qed.

Lemma repair_interior_view_rows (df : frame) s e :
  0 < s -> s < e -> e < length df ->
  exists df' prior post,
    nth_error df (s - 1) = Some prior /\ nth_error df e = Some post /\
    repair View df (Z.of_nat s) (Z.of_nat e) (Z.of_nat s - 1) (Z.of_nat e)
    = Some df' /\
    length df' = length df /\
    forall r,
      nth_error df' r
      = if in_range s (e - s) r
        then Some (steps (r - s) prior
                     (vdiv (vsub post prior) (Z.of_nat e - Z.of_nat s)))
        else if r =? s - 1
             then Some (steps (e - s) prior
                          (vdiv (vsub post prior) (Z.of_nat e - Z.of_nat s)))
             else nth_error df r.
Proof.
  intros Hs Hse He. unfold repair.
  replace (Z.of_nat s - 1)%Z with (Z.of_nat (s - 1)) by lia.
  replace (Z.of_nat e - 1)%Z with (Z.of_nat (e - 1)) by lia.
  rewrite !iloc_nat by lia.
  destruct (nth_error df s) as [rs|] eqn:E1;
    [|apply nth_error_None in E1; lia].
  destruct (nth_error df (e - 1)) as [re|] eqn:E2;
    [|apply nth_error_None in E2; lia].
  destruct (nth_error df (s - 1)) as [prior|] eqn:E3;
    [|apply nth_error_None in E3; lia].
  destruct (nth_error df e) as [post|] eqn:E4;
    [|apply nth_error_None in E4; lia].
  cbn [Py.obind].
  replace (Z.of_nat (s - 1) =? Z.of_nat e)%Z with false
    by (symmetry; apply Z.eqb_neq; lia).
  replace (Z.to_nat (Z.of_nat e - Z.of_nat s)) with (e - s) by lia.
  destruct (@interpolate_view_spec (e - s) df (s - 1) s prior
              (vdiv (vsub post prior) (Z.of_nat e - Z.of_nat s)))
    as (df' & H1 & H2 & H3); [lia | lia |].
  exists df', prior, post.
  split; [reflexivity|]. split; [reflexivity|]. split; [exact H1|].
  split; [exact H2|].
  intros r. rewrite H3.
  replace (0 <? e - s) with true by (symmetry; apply Nat.ltb_lt; lia).
  now rewrite andb_true_r.
Qed.

Section ViewScan.

Variable orig : frame.
Variable totals : list Qc.
Hypothesis same_length : length totals = length orig.

Let N := length orig.

(** The row before the interior run [s, e) holds the accumulator after
    the [e - s] steps of the repair. *)
Definition carried (df : frame) (s e : nat) : Prop :=
  0 < s -> e < N ->
  exists prior post,
    nth_error orig (s - 1) = Some prior /\ nth_error orig e = Some post /\
    nth_error df (s - 1)
    = Some (steps (e - s) prior
              (vdiv (vsub post prior) (Z.of_nat e - Z.of_nat s))).

(** Row [r] is the row before an interior run that ends at or before the
    row [bound]. *)
Definition before_run (bound r : nat) : Prop :=
  exists s e, run orig totals s e /\ 0 < s /\ e < N /\ e <= bound /\ r = s - 1.

Record view_inv (i : nat) (start : option nat) (df : frame) : Prop := {
  view_length : length df = N;
  view_ahead : forall r, low i start <= r + 1 ->
                         nth_error df r = nth_error orig r;
  view_above : forall r, below totals r = false ->
                         ~ before_run (low i start) r ->
                         nth_error df r = nth_error orig r;
  view_closed : forall s e, run orig totals s e -> e <= low i start ->
                            repaired orig df s e /\ carried df s e;
  view_open : match start with
              | Some s => s < i /\
                          (forall r, s <= r < i -> below totals r = true) /\
                          (s = 0 \/ below totals (s - 1) = false)
              | None => i = 0 \/ below totals (i - 1) = false
              end
}.

Lemma before_run_mono bound bound' r :
  bound <= bound' -> before_run bound r -> before_run bound' r.
Proof.
  intros Hle (s & e & H1 & H2 & H3 & H4 & H5).
  exists s, e. repeat split; auto; try lia; apply H1.
Qed.

Lemma carried_ext df df' s e :
  (0 < s -> nth_error df' (s - 1) = nth_error df (s - 1)) ->
  carried df s e -> carried df' s e.
Proof.
  intros Hext H Hs He. destruct (H Hs He) as (prior & post & A & B & C).
  exists prior, post. rewrite Hext by exact Hs. auto.
Qed.

Lemma view_inv_init : view_inv 0 None orig.
Proof.
  split; auto.
  intros s e (R1 & _) He. cbn in He. lia.
Qed.

Lemma view_inv_open i df :
  view_inv i None df -> below totals i = true -> view_inv (S i) (Some i) df.
Proof.
  intros [I1 I2 I3 I4 I5] Hb. cbn [low] in *. split; auto.
  cbn [low] in *. repeat split; auto.
  intros r Hr. assert (r = i) by lia. now subst.
Qed.

Lemma run_not_ending_after i s e :
  below totals i = false -> run orig totals s e -> e <= S i -> e <= i.
Proof.
  intros Hb (R1 & R2 & _) He.
  destruct (Nat.eq_dec e (S i)) as [-> | Hne]; [|lia].
  rewrite R2 in Hb by lia. discriminate.
Qed.

Lemma view_inv_skip i df :
  view_inv i None df -> below totals i = false -> view_inv (S i) None df.
Proof.
  intros [I1 I2 I3 I4 I5] Hb. split; auto; cbn [low] in *.
  - intros r Hr. apply I2. lia.
  - intros r Hr Hn. apply I3; auto.
    intros (s & e & H1 & H2 & H3 & H4 & H5). apply Hn.
    exists s, e. repeat split; auto; try lia; apply H1.
  - intros s e Hrun He. apply I4; auto.
    now apply (run_not_ending_after Hb Hrun).
  - right. now rewrite Nat.sub_succ, Nat.sub_0_r.
Qed.

Lemma view_inv_extend i s df :
  view_inv i (Some s) df -> below totals i = true ->
  view_inv (S i) (Some s) df.
Proof.
  intros [I1 I2 I3 I4 I5] Hb. split; auto; cbn [low] in *.
  destruct I5 as (A & B & C). repeat split; auto.
  intros r Hr. destruct (Nat.eq_dec r i) as [-> | Hne]; auto.
  apply B. lia.
Qed.

Lemma view_open_run i s df :
  view_inv i (Some s) df -> below totals i = false -> i < N ->
  run orig totals s i.
Proof.
  intros [I1 I2 I3 I4 (A & B & C)] Hb Hi. repeat split; auto; fold N; lia.
Qed.

Lemma view_inv_close i s df df1 :
  view_inv i (Some s) df -> below totals i = false -> i < N ->
  length df1 = N ->
  (forall r, ~ (s <= r < i) -> (0 < s -> r <> s - 1) ->
             nth_error df1 r = nth_error df r) ->
  repaired orig df1 s i -> carried df1 s i ->
  view_inv (S i) None df1.
Proof.
  intros Hinv Hb Hi Hlen Hout Hrep Hcar.
  pose proof (view_open_run Hinv Hb Hi) as Hrun.
  destruct Hinv as [I1 I2 I3 I4 (A & B & C)]. cbn [low] in *.
  split; auto; cbn [low].
  - intros r Hr. rewrite Hout by lia. apply I2. lia.
  - intros r Hr Hn. rewrite Hout.
    + apply I3; auto. intros Hb'. apply Hn.
      apply (@before_run_mono s); [lia | exact Hb'].
    + intros Hin. rewrite B in Hr by lia. discriminate.
    + intros Hs ->. apply Hn. exists s, i. repeat split; auto; try lia;
        apply Hrun.
  - intros s' e' Hrun' He'.
    pose proof (run_not_ending_after Hb Hrun' He') as He''.
    destruct (le_lt_dec e' s) as [Hle | Hgt].
    + destruct (I4 s' e' Hrun' Hle) as [Hr' Hc'].
      assert (Hs' : s' < e') by (destruct Hrun' as ((? & ?) & _); lia).
      split.
      * apply (@repaired_ext orig totals same_length df); [|exact Hr'].
        intros r Hr. apply Hout; [lia|].
        intros Hs ->. destruct C as [-> | C]; [lia|].
        destruct Hrun' as (_ & R2 & _). rewrite R2 in C by lia. discriminate.
      * apply (@carried_ext df); [|exact Hc'].
        intros Hs0. apply Hout; lia.
    + assert (Hs' : s' < e') by (destruct Hrun' as ((? & ?) & _); lia).
      destruct (@run_unique orig totals same_length s i s' e' (e' - 1) Hrun Hrun')
        as [<- <-]; try lia; auto.
  - right. now rewrite Nat.sub_succ, Nat.sub_0_r.
Qed.

Lemma scan_view_spec rest : forall i start df,
  skipn i totals = rest -> i <= N -> view_inv i start df ->
  exists df' st',
    scan View df rest (Z.of_nat i) (option_map Z.of_nat start)
    = Some (df', option_map Z.of_nat st') /\
    view_inv N st' df'.
Proof.
  induction rest as [|p rest IH]; intros i start df Hskip Hi Hinv.
  - assert (i = N).
    { apply (f_equal (@length Qc)) in Hskip. rewrite length_skipn in Hskip.
      cbn in Hskip. unfold N in *. lia. }
    subst i. exists df, start. auto.
  - destruct (skipn_cons_inv _ _ Hskip) as [Hp Hrest].
    assert (HiN : i < N).
    { unfold N. rewrite <- same_length. apply nth_error_Some. congruence. }
    assert (Hbelow : below totals i = Num.ltb p two_GW)
      by (unfold below; now rewrite Hp).
    cbn [scan].
    replace (Z.of_nat i + 1)%Z with (Z.of_nat (S i)) by lia.
    destruct start as [s|]; cbn [option_map].
    + unfold Num.geb. destruct (Num.ltb p two_GW) eqn:E; cbn [negb].
      * apply (IH (S i) (Some s) df); auto. now apply view_inv_extend.
      * pose proof (view_open Hinv) as (Hsi & Hrows & Hstart).
        pose proof (view_length Hinv) as Hlen.
        destruct (0 <? Z.of_nat s)%Z eqn:Es.
        -- apply Z.ltb_lt in Es.
           destruct (@repair_interior_view_rows df s i) as
             (df1 & prior & post & Hprior & Hpost & Hrep & Hlen1 & Hrows1);
             try lia.
           rewrite Hrep. cbn [Py.obind].
           apply (IH (S i) None df1); auto.
           apply (view_inv_close Hinv); auto; try congruence.
           ++ intros r Hr Hn. rewrite Hrows1.
              replace (in_range s (i - s) r) with false
                by (symmetry; apply in_range_false; lia).
              replace (r =? s - 1) with false; auto.
              symmetry. apply Nat.eqb_neq. apply Hn. lia.
           ++ repeat split; try lia.
              intros _ _ r Hr. exists prior, post.
              rewrite <- !(view_ahead Hinv) by (cbn [low]; lia).
              rewrite Hrows1.
              replace (in_range s (i - s) r) with true; auto.
              symmetry. apply in_range_true. lia.
           ++ intros _ _. exists prior, post.
              rewrite <- !(view_ahead Hinv) by (cbn [low]; lia).
              rewrite Hrows1.
              replace (in_range s (i - s) (s - 1)) with false
                by (symmetry; apply in_range_false; lia).
              rewrite Nat.eqb_refl. auto.
        -- apply Z.ltb_ge in Es. assert (s = 0) by lia. subst s.
           destruct (@repair_leading df i) as (df1 & Hrep & Hlen1 & Hrows1);
             try lia.
           change (Z.of_nat 0) with 0%Z.
           rewrite repair_fill_access, Hrep. cbn [Py.obind].
           apply (IH (S i) None df1); auto.
           apply (view_inv_close Hinv); auto; try congruence.
           ++ intros r Hr _. rewrite Hrows1.
              replace (in_range 0 i r) with false; auto.
              symmetry. apply in_range_false. lia.
           ++ repeat split; try lia.
              intros _ _ r Hr.
              rewrite <- (view_ahead Hinv i) by (cbn [low]; lia).
              rewrite Hrows1.
              replace (in_range 0 i r) with true; auto.
              symmetry. apply in_range_true. lia.
           ++ intros Hs. lia.
    + destruct (Num.ltb p two_GW) eqn:E.
      * apply (IH (S i) (Some i) df); auto. now apply view_inv_open.
      * apply (IH (S i) None df); auto. now apply view_inv_skip.
Qed.

(** The whole function through a view: the frame it returns, by runs. *)
Lemma repair_missing_periods_view_spec :
  exists df',
    repair_missing_periods View orig totals = Some df' /\
    length df' = N /\
    (forall r, below totals r = false -> ~ before_run N r ->
               nth_error df' r = nth_error orig r) /\
    (forall s e, run orig totals s e ->
                 repaired orig df' s e /\ carried df' s e).
Proof.
  destruct (@scan_view_spec totals 0 None orig eq_refl (Nat.le_0_l _)
              view_inv_init)
    as (df1 & st & Hscan & Hinv).
  unfold repair_missing_periods. cbn [option_map] in Hscan.
  change (Z.of_nat 0) with 0%Z in Hscan. rewrite Hscan. cbn [Py.obind].
  pose proof (view_length Hinv) as Hlen.
  destruct st as [s|]; cbn [option_map].
  - pose proof (view_open Hinv) as (HsN & Hrows & Hstart).
    assert (Hrun : run orig totals s N) by (repeat split; auto; fold N; lia).
    rewrite same_length. fold N. rewrite <- Hlen.
    rewrite repair_fill_access.
    destruct (Nat.eq_dec s 0) as [-> | Hs].
    + destruct (@repair_whole df1) as (df2 & Hrep & Hlen2); [lia|].
      change (Z.of_nat 0) with 0%Z. rewrite Hrep.
      exists df2. split; [reflexivity|]. split; [congruence|]. split.
      * intros r Hr _. destruct (le_lt_dec N r) as [Hge | Hlt].
        -- transitivity (@None row); [apply nth_error_None; lia|].
           symmetry. apply nth_error_None. unfold N in Hge. lia.
        -- rewrite Hrows in Hr by lia. discriminate.
      * intros s e H.
        assert (Hse : s < e <= N) by (destruct H as (? & _); exact H).
        destruct (@run_unique orig totals same_length 0 N s e (e - 1) Hrun H)
          as [<- <-]; try lia.
        split; [repeat split; intros; lia | intros ? ?; lia].
    + destruct (@repair_trailing df1 s) as (df2 & Hrep & Hlen2 & Hrows2);
        try lia.
      rewrite Hrep. exists df2. split; auto. split; [congruence|].
      assert (Hout : forall r, ~ (s <= r < N) ->
                               nth_error df2 r = nth_error df1 r).
      { intros r Hr. rewrite Hrows2.
        replace (in_range s (length df1 - s) r) with false; auto.
        symmetry. apply in_range_false. lia. }
      split.
      * intros r Hr Hn. rewrite Hout.
        -- apply (view_above Hinv); auto. cbn [low]. intros Hb. apply Hn.
           apply (@before_run_mono s); [lia | exact Hb].
        -- intros Hin. rewrite Hrows in Hr by lia. discriminate.
      * intros s' e' Hrun'.
        destruct (le_lt_dec e' s) as [Hle | Hgt].
        -- destruct (view_closed Hinv Hrun' Hle) as [Hr' Hc'].
           assert (Hs' : s' < e') by (destruct Hrun' as ((? & ?) & _); lia).
           split.
           ++ apply (@repaired_ext orig totals same_length df1); [|exact Hr'].
              intros r Hr. apply Hout. lia.
           ++ apply (@carried_ext df1); [|exact Hc'].
              intros _. apply Hout. lia.
        -- assert (Hs' : s' < e' <= N) by (destruct Hrun' as (? & _); lia).
           destruct (@run_unique orig totals same_length s N s' e' (e' - 1) Hrun Hrun')
             as [<- <-]; try lia.
           split; [|intros ? ?; lia].
           repeat split; try lia.
           intros _ _ r Hr. rewrite Hrows2.
           replace (in_range s (length df1 - s) r) with true
             by (symmetry; apply in_range_true; lia).
           apply (view_ahead Hinv). cbn [low]. lia.
  - exists df1. split; [reflexivity|]. split; [exact Hlen|]. split.
    + intros r Hr Hn. apply (view_above Hinv); auto.
    + intros s e H. apply (view_closed Hinv); auto.
      destruct H as ((? & ?) & _). cbn [low]. lia.
Qed.

End ViewScan.

(** Gap repair where [accums_GW] is a view of the frame (pandas without
    copy-on-write): for a frame and as many row totals, the function
    returns a frame of the same height in which the rows of the runs hold
    what they hold with a detached Series (the interpolated values for an
    interior run, the row [e] for a leading run, the row [s-1] for a
    trailing run that does not start at row 0), and the row [s-1] before
    every interior run [s, e) holds the values of the row [e]: the
    accumulator after the last step, written through the view. The rows at
    or above the threshold that are before no interior run are unchanged. *)
Theorem gap_repair_view (orig : frame) (totals : list Qc) :
  length totals = length orig ->
  exists df',
    repair_missing_periods View orig totals = Some df' /\
    length df' = length orig /\
    (forall r,
       below totals r = false ->
       (forall s e, run orig totals s e -> 0 < s -> e < length orig ->
                    r <> s - 1) ->
       nth_error df' r = nth_error orig r) /\
    (forall s e r c a b,
       run orig totals s e -> 0 < s -> e < length orig -> s <= r < e ->
       cell orig (s - 1) c = Some a -> cell orig e c = Some b ->
       cell df' r c
       = Some (a + Num.of_Z (Z.of_nat r - Z.of_nat s)
                   * ((b - a) / Num.of_Z (Z.of_nat e - Z.of_nat s)))%Qc) /\
    (forall e r,
       run orig totals 0 e -> e < length orig -> r < e ->
       nth_error df' r = nth_error orig e) /\
    (forall s r,
       run orig totals s (length orig) -> 0 < s -> s <= r < length orig ->
       nth_error df' r = nth_error orig (s - 1)) /\
    (forall s e c a b,
       run orig totals s e -> 0 < s -> e < length orig ->
       cell orig (s - 1) c = Some a -> cell orig e c = Some b ->
       cell df' (s - 1) c = Some b).
Proof.
  intros Hlen.
  destruct (@repair_missing_periods_view_spec orig totals Hlen)
    as (df' & H1 & H2 & H3 & H4).
  exists df'. split; [exact H1|]. split; [exact H2|].
  split; [|split; [|split; [|split]]].
  - intros r Hr Hn. apply H3; auto.
    intros (s & e & R & Hs & He & _ & ->). now apply (Hn s e).
  - intros s e r c a b Hrun Hs He Hr Ha Hb.
    destruct (H4 s e Hrun) as ((P1 & _ & _) & _).
    destruct (P1 Hs He r Hr) as (prior & post & E1 & E2 & E3).
    unfold cell in *. rewrite E1 in Ha. rewrite E2 in Hb. rewrite E3.
    rewrite (nth_error_steps (r - s) _ _ c Ha
               (nth_error_deltas _ _ (Z.of_nat e - Z.of_nat s) c Ha Hb)).
    replace (Z.of_nat (r - s)) with (Z.of_nat r - Z.of_nat s)%Z by lia.
    reflexivity.
  - intros e r Hrun He Hr. destruct (H4 0 e Hrun) as ((_ & P2 & _) & _). auto.
  - intros s r Hrun Hs Hr. destruct (H4 s _ Hrun) as ((_ & _ & P3) & _). auto.
  - intros s e c a b Hrun Hs He Ha Hb.
    destruct (H4 s e Hrun) as (_ & P).
    destruct (P Hs He) as (prior & post & E1 & E2 & E3).
    assert (Hse : s < e) by (destruct Hrun as ((? & ?) & _); lia).
    unfold cell in *. rewrite E1 in Ha. rewrite E2 in Hb. rewrite E3.
    rewrite (nth_error_steps (e - s) _ _ c Ha
               (nth_error_deltas _ _ (Z.of_nat e - Z.of_nat s) c Ha Hb)).
    f_equal.
    replace (Z.of_nat (e - s)) with (Z.of_nat e - Z.of_nat s)%Z by lia.
    field. apply Num.of_Z_neq_0. lia.
Qed.

Lemma gap_repair_view_witness :
  exists df',
    repair_missing_periods View
      (rows [(10, 70); (20, 60); (1, 1); (2, 2); (3, 3); (80, 0); (90, 5)]%Z)
      (GW [5; 5; 1; 1; 1; 6; 6]%Z) = Some df' /\
    length df' = 7.
Proof.
  destruct (@gap_repair_view
              (rows [(10, 70); (20, 60); (1, 1); (2, 2); (3, 3); (80, 0);
                     (90, 5)]%Z)
              (GW [5; 5; 1; 1; 1; 6; 6]%Z) eq_refl) as (df' & H1 & H2 & _).
  exists df'. split; [exact H1 | exact H2].
Defined.

(** C1. Gap repair with the threshold 2.0, on the totals
    [5, 5, 1, 1, 1, 6, 6] and a frame of two columns, with [accums_GW] the
    view of the frame that [df_MW.iloc[prior, :]] is without copy-on-write:
    rows 2 to 4 are the one gap run, bounded by rows 1 and 5, and they
    receive the values interpolated from row 1 to row 5 in three steps;
    row 1, which is outside the run and at the threshold or above, does
    not keep its values (20, 60): it ends with the values (80, 0) of row
    5. The other rows outside the run are unchanged, and with a Series
    detached from the frame row 1 keeps its values. *)
Theorem gap_repair_overwrites_prior :
  let df :=
    rows [(10, 70); (20, 60); (1, 1); (2, 2); (3, 3); (80, 0); (90, 5)]%Z in
  let totals := GW [5; 5; 1; 1; 1; 6; 6]%Z in
  run df totals 2 5 /\ below totals 1 = false /\
  fractions (Some df)
  = Some [[10 # 1; 70 # 1]; [20 # 1; 60 # 1];
          [1 # 1; 1 # 1]; [2 # 1; 2 # 1]; [3 # 1; 3 # 1];
          [80 # 1; 0 # 1]; [90 # 1; 5 # 1]]%Q /\
  fractions (repair_missing_periods View df totals)
  = Some [[10 # 1; 70 # 1]; [80 # 1; 0 # 1];
          [20 # 1; 60 # 1]; [40 # 1; 40 # 1]; [60 # 1; 20 # 1];
          [80 # 1; 0 # 1]; [90 # 1; 5 # 1]]%Q /\
  option_map (map this) (nth_error df 1) = Some [20 # 1; 60 # 1]%Q /\
  option_map (fun df' => option_map (map this) (nth_error df' 1))
    (repair_missing_periods View df totals)
  = Some (Some [80 # 1; 0 # 1]%Q) /\
  option_map (fun df' => option_map (map this) (nth_error df' 1))
    (repair_missing_periods Detached df totals)
  = Some (Some [20 # 1; 60 # 1]%Q).
Proof.
  cbv zeta. split; [|split; [|split; [|split; [|split; [|split]]]]].
  - split; [cbn; lia|]. split; [|split].
    + intros r Hr.
      assert (r = 2 \/ r = 3 \/ r = 4) as [-> | [-> | ->]] by lia;
        reflexivity.
    + right. reflexivity.
    + right. reflexivity.
  - reflexivity.
  - vm_compute. reflexivity.
  - vm_compute. reflexivity.
  - vm_compute. reflexivity.
  - vm_compute. reflexivity.
  - vm_compute. reflexivity.
Qed.

End Repair.

(** ** Resampler ([NEMWeb.add_rooftop_solar_data]) *)

Module Resample.

Import Repair.
Local Open Scope Qc_scope.

(** A dataframe: the column labels [axes[1]] and the rows. *)
Record dataframe : Type := mkdf { labels : list string; values : frame }.

(** [l.index(x)]; [ValueError] when [x] is not in the list. *)
Fixpoint index_of (x : string) (l : list string) : option nat :=
  match l with
  | [] => None
  | h :: t => if String.eqb h x then Some O
              else option_map S (index_of x t)
  end.

(** The values of the column [df[label]], from the first row down. *)
Definition column (df : dataframe) (label : string) : option (list Qc) :=
  let? c := index_of label (labels df) in
  Some (map (fun r => nth c r 0) (values df)).

(** [nwdf.iloc[dst_row, dst_col] = y]. *)
Definition iloc_set_cell (df : frame) (dst_row : Z) (dst_col : nat) (y : Qc)
  : option frame :=
  let? r := Py.getitem df dst_row in
  let? r := Py.setitem r (Z.of_nat dst_col) y in
  Py.setitem df dst_row r.

Definition nonzero (x : Qc) : bool := negb (Num.eqb x 0).

(** [[
    y = start_power
    dy = (end_power - start_power) / 6
    for dst_row in range(row6, row6 + 6):
        nwdf.iloc[dst_row, dst_col] = y
        y += dy
]] *)
Fixpoint write_block (df : frame) (dst_row : Z) (dst_col : nat) (count : nat)
    (y dy : Qc) : option frame :=
  match count with
  | O => Some df
  | S count' =>
      let? df := iloc_set_cell df dst_row dst_col y in
      write_block df (dst_row + 1) dst_col count' (y + dy) dy
  end.

(** The body of [for row6 in range(0, len(nwdf.axes[0]) - 1, 6)]:
[[
    end_power = next(rt_iter)
    if end_power != 0:
        num_data_points += 1
        if start_power != 0:
            ... interpolate 5-minute intervals ...
    start_power = end_power
]]
    [next] on an exhausted iterator raises [StopIteration]. *)
Fixpoint blocks (df : frame) (dst_col : nat) (rt_iter : list Qc) (row6 : Z)
    (nblocks : nat) (start_power : Qc) (num_data_points : Z) {struct nblocks}
  : option (frame * Z) :=
  match nblocks with
  | O => Some (df, num_data_points)
  | S nblocks' =>
      match rt_iter with
      | [] => None
      | end_power :: rt_iter' =>
          let? (df, num_data_points) :=
            (if nonzero end_power then
               let num_data_points := (num_data_points + 1)%Z in
               if nonzero start_power then
                 let? df :=
                   write_block df row6 dst_col 6 start_power
                     ((end_power - start_power) / Num.of_Z 6) in
                 Some (df, num_data_points)
               else Some (df, num_data_points)
             else Some (df, num_data_points)) in
          blocks df dst_col rt_iter' (row6 + 6) nblocks' end_power
                 num_data_points
      end
  end.

(** [len(range(0, n - 1, 6))]. *)
Definition block_count (n : nat) : nat := Z.to_nat ((Z.of_nat n + 4) / 6).

(** One round of the loop over the regions, for the column [rt_column] of
    the thirty-minute frame and the column [dst_col] of the main frame. *)
Definition add_region (nwdf : frame) (dst_col : nat) (rt_column : list Qc)
    (num_data_points : Z) : option (frame * Z) :=
  match rt_column with
  | [] => None
  | start_power :: rt_iter =>
      let num_data_points :=
        if nonzero start_power then (num_data_points + 1)%Z
        else num_data_points in
      blocks nwdf dst_col rt_iter 0 (block_count (length nwdf)) start_power
             num_data_points
  end.

(** The loop over [rtdf.axes[1]]. *)
Fixpoint add_regions (rtdf nwdf : dataframe) (region_ids : list string)
    (num_data_points : Z) : option (dataframe * Z) :=
  match region_ids with
  | [] => Some (nwdf, num_data_points)
  | region_id :: rest =>
      let? rt_column := column rtdf region_id in
      let? dst_col := index_of region_id (labels nwdf) in
      let? (df, num_data_points) :=
        add_region (values nwdf) dst_col rt_column num_data_points in
      add_regions rtdf (mkdf (labels nwdf) df) rest num_data_points
  end.

(** [add_rooftop_solar_data]: the main frame after the call, and
    [rooftop_pv.num_data_points]. *)
Definition add_rooftop_solar_data (rtdf nwdf : dataframe)
  : option (dataframe * Z) :=
  add_regions rtdf nwdf (labels rtdf) 0.

Definition zeros (rows cols : nat) : frame := repeat (repeat 0 cols) rows.

Example block_10_16 :
  fractions (option_map fst
    (add_region (zeros 6 1) 0 [Num.of_Z 10; Num.of_Z 16] 0))
  = Some [[10 # 1]; [11 # 1]; [12 # 1]; [13 # 1]; [14 # 1]; [15 # 1]]%Q.
Proof. vm_compute. reflexivity. Qed.

Example block_0_16 :
  fractions (option_map fst
    (add_region (zeros 6 1) 0 [Num.of_Z 0; Num.of_Z 16] 0))
  = Some [[0 # 1]; [0 # 1]; [0 # 1]; [0 # 1]; [0 # 1]; [0 # 1]]%Q.
Proof. vm_compute. reflexivity. Qed.

Example block_10_0 :
  fractions (option_map fst
    (add_region (zeros 6 1) 0 [Num.of_Z 10; Num.of_Z 0] 0))
  = Some [[0 # 1]; [0 # 1]; [0 # 1]; [0 # 1]; [0 # 1]; [0 # 1]]%Q.
Proof. vm_compute. reflexivity. Qed.

Example two_regions :
  option_map (fun r => (map (map this) (values (fst r)), snd r))
    (add_rooftop_solar_data
       (mkdf ["NSW1"; "QLD1"]
             [[Num.of_Z 6; Num.of_Z 0]; [Num.of_Z 12; Num.of_Z 3]])
       (mkdf ["A"; "NSW1"; "QLD1"] (zeros 6 3)))
  = Some ([[0 # 1; 6 # 1; 0 # 1]; [0 # 1; 7 # 1; 0 # 1];
           [0 # 1; 8 # 1; 0 # 1]; [0 # 1; 9 # 1; 0 # 1];
           [0 # 1; 10 # 1; 0 # 1]; [0 # 1; 11 # 1; 0 # 1]]%Q, 3%Z).
Proof. vm_compute. reflexivity. Qed.


(** *** The cells written by a block *)

Local Open Scope nat_scope.

Definition has_column (df : frame) (c : nat) : Prop :=
  forall r values, nth_error df r = Some values -> c < length values.

Lemma iloc_set_cell_nat (df : frame) r c y :
  r < length df -> has_column df c ->
  exists df',
    iloc_set_cell df (Z.of_nat r) c y = Some df' /\
    length df' = length df /\ has_column df' c /\
    forall r' c', cell df' r' c'
                  = if (r' =? r) && (c' =? c) then Some y else cell df r' c'.
Proof.
  intros Hr Hc. unfold iloc_set_cell, Py.getitem, Py.setitem.
  rewrite Py.py_index_of_nat by lia.
  destruct (nth_error df r) as [row|] eqn:E; [|apply nth_error_None in E; lia].
  pose proof (Hc r row E) as Hlen.
  cbn [Py.obind]. rewrite Py.py_index_of_nat by lia. cbn [Py.obind].
  eexists. split; [reflexivity|]. split; [apply Py.length_set_nth|]. split.
  - intros r' row' H'. rewrite nth_error_set_nth in H' by lia.
    destruct (r' =? r).
    + injection H' as <-. now rewrite Py.length_set_nth.
    + eauto.
  - intros r' c'. unfold cell. rewrite nth_error_set_nth by lia.
    destruct (Nat.eqb_spec r' r) as [-> | Hne]; cbn [andb]; [|reflexivity].
    rewrite E. destruct (Nat.eqb_spec c' c) as [-> | Hne].
    + now apply Py.nth_error_set_nth_eq.
    + apply Py.nth_error_set_nth_ne. congruence.
Qed.

Lemma write_block_spec count : forall (df : frame) s c y dy,
  s + count <= length df -> has_column df c ->
  exists df',
    write_block df (Z.of_nat s) c count y dy = Some df' /\
    length df' = length df /\ has_column df' c /\
    forall r' c',
      cell df' r' c'
      = if in_range s count r' && (c' =? c)
        then Some (y + Num.of_Z (Z.of_nat (r' - s)) * dy)%Qc
        else cell df r' c'.
Proof.
  induction count as [|count IH]; intros df s c y dy Hlen Hc.
  - exists df. repeat split; auto. intros r' c'.
    replace (in_range s 0 r') with false; auto.
    symmetry. apply in_range_false. lia.
  - cbn [write_block].
    destruct (@iloc_set_cell_nat df s c y) as (df1 & H1 & L1 & C1 & E1);
      auto; try lia.
    rewrite H1. cbn [Py.obind].
    replace (Z.of_nat s + 1)%Z with (Z.of_nat (S s)) by lia.
    destruct (IH df1 (S s) c (y + dy)%Qc dy) as (df' & H2 & L2 & C2 & E2);
      auto; try lia.
    exists df'. rewrite H2. repeat split; auto; try congruence.
    intros r' c'. rewrite E2, E1.
    destruct (Nat.eqb_spec c' c) as [-> | Hne]; rewrite ?andb_false_r; auto.
    rewrite !andb_true_r.
    destruct (Nat.eqb_spec r' s) as [-> | Hne].
    + replace (in_range (S s) count s) with false
        by (symmetry; apply in_range_false; lia).
      replace (in_range s (S count) s) with true
        by (symmetry; apply in_range_true; lia).
      rewrite Nat.sub_diag. f_equal. change (Z.of_nat 0) with 0%Z.
      rewrite Num.of_Z_0. ring.
    + destruct (in_range (S s) count r') eqn:R1.
      * apply in_range_true in R1.
        replace (in_range s (S count) r') with true
          by (symmetry; apply in_range_true; lia).
        f_equal. replace (r' - s) with (S (r' - S s)) by lia.
        rewrite Nat2Z.inj_succ, <- Z.add_1_r, Num.of_Z_succ. ring.
      * apply in_range_false in R1.
        replace (in_range s (S count) r') with false
          by (symmetry; apply in_range_false; lia).
        reflexivity.
Qed.

(** The frame after the first block of a round. *)
Lemma first_block (df : frame) c b0 sp e num :
  6 * b0 + 6 <= length df -> has_column df c ->
  exists df1 num1,
    (if nonzero e then
       if nonzero sp then
         let? df := write_block df (Z.of_nat (6 * b0)) c 6 sp
                      ((e - sp) / Num.of_Z 6)%Qc in
         Some (df, (num + 1)%Z)
       else Some (df, (num + 1)%Z)
     else Some (df, num)) = Some (df1, num1) /\
    length df1 = length df /\ has_column df1 c /\
    forall r c',
      cell df1 r c'
      = if (nonzero sp && nonzero e) && (in_range (6 * b0) 6 r && (c' =? c))
        then Some (sp + Num.of_Z (Z.of_nat (r - 6 * b0))
                        * ((e - sp) / Num.of_Z 6))%Qc
        else cell df r c'.
Proof.
  intros Hlen Hc. destruct (nonzero e) eqn:Ee; cbv zeta.
  - destruct (nonzero sp) eqn:Es.
    + destruct (@write_block_spec 6 df (6 * b0) c sp
                  ((e - sp) / Num.of_Z 6)%Qc) as (df1 & H1 & L1 & C1 & E1);
        auto.
      rewrite H1. cbn [Py.obind]. exists df1, (num + 1)%Z.
      repeat split; auto.
    + exists df, (num + 1)%Z. repeat split; auto.
  - exists df, num. repeat split; auto. intros r c'.
    now rewrite andb_false_r.
Qed.

Lemma blocks_spec nblocks : forall (df : frame) c it b0 sp num,
  6 * b0 + 6 * nblocks <= length df -> nblocks <= length it ->
  has_column df c ->
  exists df' num',
    blocks df c it (Z.of_nat (6 * b0)) nblocks sp num = Some (df', num') /\
    length df' = length df /\ has_column df' c /\
    (forall k i v0 v1,
       k < nblocks -> i < 6 ->
       nth_error (sp :: it) k = Some v0 -> nth_error it k = Some v1 ->
       cell df' (6 * (b0 + k) + i) c
       = if nonzero v0 && nonzero v1
         then Some (v0 + Num.of_Z (Z.of_nat i) * ((v1 - v0) / Num.of_Z 6))%Qc
         else cell df (6 * (b0 + k) + i) c) /\
    (forall r c',
       c' <> c \/ r < 6 * b0 \/ 6 * b0 + 6 * nblocks <= r ->
       cell df' r c' = cell df r c').
Proof.
  induction nblocks as [|n IH]; intros df c it b0 sp num Hlen Hit Hc.
  - exists df, num. split; [reflexivity|]. repeat split; auto. intros; lia.
  - destruct it as [|e it']; [cbn in Hit; lia|].
    cbn [blocks].
    destruct (@first_block df c b0 sp e num) as (df1 & num1 & H1 & L1 & C1 & E1);
      auto; try lia.
    rewrite H1. cbn [Py.obind].
    replace (Z.of_nat (6 * b0) + 6)%Z with (Z.of_nat (6 * (b0 + 1))) by lia.
    destruct (IH df1 c it' (b0 + 1) e num1) as (df' & num' & H2 & L2 & C2 & E2 & U2);
      auto; try (cbn in Hit; lia).
    exists df', num'. rewrite H2. repeat split; auto; try congruence.
    + intros k i v0 v1 Hk Hi Hv0 Hv1. destruct k as [|k].
      * cbn in Hv0, Hv1. injection Hv0 as <-. injection Hv1 as <-.
        rewrite U2 by lia. rewrite E1.
        replace (in_range (6 * b0) 6 (6 * (b0 + 0) + i)) with true
          by (symmetry; apply in_range_true; lia).
        rewrite Nat.eqb_refl, andb_true_r.
        replace (6 * (b0 + 0) + i - 6 * b0) with i by lia. reflexivity.
      * cbn in Hv0, Hv1.
        replace (6 * (b0 + S k) + i) with (6 * (b0 + 1 + k) + i) by lia.
        rewrite (E2 k i v0 v1) by (auto; lia).
        rewrite E1.
        replace (in_range (6 * b0) 6 (6 * (b0 + 1 + k) + i)) with false
          by (symmetry; apply in_range_false; lia).
        now rewrite andb_false_r.
    + intros r c' Hr. rewrite U2 by lia. rewrite E1.
      destruct (Nat.eqb_spec c' c) as [-> | Hne];
        rewrite ?andb_false_r; auto.
      replace (in_range (6 * b0) 6 r) with false
        by (symmetry; apply in_range_false; lia).
      now rewrite andb_false_r.
Qed.

(** C2, as amended. Resampler block law, for one region column of a main
    frame of 6 * n rows and the n + 1 samples of the region: for every
    pair of consecutive samples (v0 at the start of the block, v1 at its
    end) and its six destination rows, if v0 and v1 are both non-zero then
    row i of the block receives v0 + i * (v1 - v0) / 6 for i = 0 .. 5 (v1
    itself is written by no block for this pair; it is v0 of the next), and
    if v0 or v1 is zero the six rows are left as they were; no other column
    is written. *)
Theorem resampler_block_law (nwdf : frame) (dst_col n : nat)
    (rt_column : list Qc) (num_data_points : Z) :
  length nwdf = 6 * n -> length rt_column = S n -> has_column nwdf dst_col ->
  exists df' num',
    add_region nwdf dst_col rt_column num_data_points = Some (df', num') /\
    length df' = length nwdf /\
    (forall k i v0 v1,
       k < n -> i < 6 ->
       nth_error rt_column k = Some v0 ->
       nth_error rt_column (S k) = Some v1 ->
       cell df' (6 * k + i) dst_col
       = if nonzero v0 && nonzero v1
         then Some (v0 + Num.of_Z (Z.of_nat i) * ((v1 - v0) / Num.of_Z 6))%Qc
         else cell nwdf (6 * k + i) dst_col) /\
    (forall r c, c <> dst_col -> cell df' r c = cell nwdf r c).
Proof.
  intros Hlen Hsrc Hc. unfold add_region.
  destruct rt_column as [|sp it]; [discriminate|].
  assert (Hn : block_count (length nwdf) = n).
  { unfold block_count. rewrite Hlen.
    replace (Z.of_nat (6 * n) + 4)%Z with (4 + Z.of_nat n * 6)%Z by lia.
    rewrite Z.div_add by lia. change (4 / 6)%Z with 0%Z. lia. }
  rewrite Hn.
  destruct (@blocks_spec n nwdf dst_col it 0 sp
              (if nonzero sp then (num_data_points + 1)%Z else num_data_points))
    as (df' & num' & H1 & L1 & C1 & E1 & U1); auto; try lia.
  { cbn in Hsrc. lia. }
  exists df', num'. cbn [Nat.mul] in H1. change (Z.of_nat 0) with 0%Z in H1.
  repeat split; auto.
Qed.

Lemma resampler_block_law_witness :
  exists df' num',
    add_region (zeros 12 2) 1 [Num.of_Z 10; Num.of_Z 16; Num.of_Z 0] 0
    = Some (df', num') /\
    length df' = 12.
Proof.
  destruct (@resampler_block_law (zeros 12 2) 1 2
              [Num.of_Z 10; Num.of_Z 16; Num.of_Z 0] 0 eq_refl eq_refl)
    as (df' & num' & H1 & H2 & _).
  - intros r row Hr. apply nth_error_In in Hr.
    apply repeat_spec in Hr. subst row. cbn. lia.
  - exists df', num'. split; [exact H1 | exact H2].
Defined.

(** C2, as stated, fails: a non-zero [v0] followed by a zero [v1] writes
    nothing, where the claim has the rows decay from [v0]. *)
Lemma resampler_needs_both_samples :
  ~ (forall (v0 v1 : Qc) (i : nat),
       nonzero v0 = true -> i < 6 ->
       option_map (fun r => cell (fst r) i 0)
         (add_region (zeros 6 1) 0 [v0; v1] 0)
       = Some (Some (v0 + Num.of_Z (Z.of_nat i)
                          * ((v1 - v0) / Num.of_Z 6))%Qc)).
Proof.
  intros H. specialize (H (Num.of_Z 10) (Num.of_Z 0) 0 eq_refl).
  assert (L : 0 < 6) by lia. specialize (H L).
  vm_compute in H. discriminate H.
Qed.

End Resample.

(** ** Aggregator ([NEMWeb.build_cat_and_in_out_dfs]) *)

Module Tally.

Import Repair Resample.
Local Open Scope Qc_scope.

(** [m[r, c] += v] on a numpy matrix; [IndexError] outside the matrix. *)
Definition add_cell (m : frame) (r c : nat) (v : Qc) : option frame :=
  let? values := nth_error m r in
  let? x := nth_error values c in
  Some (Py.set_nth m r (Py.set_nth values c (x + v))).

(** The body of the loop over the rows of a column. The result carries
    [false] when an index was outside [cat_MW] or [in_out_MW]: the
    exception leaves the loop over the rows. *)
Definition tally_value (num_cat cat_col : nat) (batt_load : bool)
    (src_col row : nat) (srcval : Qc) (cat_MW in_out_MW : frame)
  : frame * frame * bool :=
  if nonzero srcval then
    let srcval := if batt_load then - srcval else srcval in
    if Num.ltb srcval 0 then
      match add_cell cat_MW row cat_col srcval with
      | None => (cat_MW, in_out_MW, false)
      | Some cat_MW =>
          match add_cell in_out_MW src_col 0 srcval with
          | None => (cat_MW, in_out_MW, false)
          | Some in_out_MW => (cat_MW, in_out_MW, true)
          end
      end
    else
      match add_cell cat_MW row (num_cat + cat_col) srcval with
      | None => (cat_MW, in_out_MW, false)
      | Some cat_MW =>
          match add_cell in_out_MW src_col 1 srcval with
          | None => (cat_MW, in_out_MW, false)
          | Some in_out_MW => (cat_MW, in_out_MW, true)
          end
      end
  else (cat_MW, in_out_MW, true).

(** [[
    try:
        for row, srcval in enumerate(df_five_minute[duid]): ...
    except Exception:
        print("\nException!", end="")
]] *)
Fixpoint tally_column (num_cat cat_col : nat) (batt_load : bool)
    (src_col : nat) (srcvals : list Qc) (row : nat) (cat_MW in_out_MW : frame)
  : frame * frame :=
  match srcvals with
  | [] => (cat_MW, in_out_MW)
  | srcval :: rest =>
      match tally_value num_cat cat_col batt_load src_col row srcval
                        cat_MW in_out_MW with
      | (cat_MW, in_out_MW, true) =>
          tally_column num_cat cat_col batt_load src_col rest (S row)
                       cat_MW in_out_MW
      | (cat_MW, in_out_MW, false) => (cat_MW, in_out_MW)
      end
  end.

Record tallies : Type := mktallies {
  cat_MW : frame;
  in_out_MW : frame;
  unknown_duids : list string
}.

Section Aggregate.

(** The category map of ['DUID Categories.csv']: [duid_catidx[duid]] is
    [(cat_index, batt_load)], and a missing key raises [KeyError]. *)
Variable duid_catidx : string -> option (nat * bool).
Variable cat_list : list string.
Variable df_five_minute : dataframe.

(** The values of the column at position [src_col]. The labels of the
    main frame are distinct (a set of DUIDs and the five region ids), so
    this is [df_five_minute[duid]] for the label at that position. *)
Definition column_at (src_col : nat) : list Qc :=
  map (fun r => nth src_col r 0) (values df_five_minute).

(** [[
    try:
        cat_col, batt_load = duid_catidx[duid]
    except KeyError:
        cat_col, batt_load = num_cat - 1, False
        unknown_duids.append(duid)
]] *)
Definition category (num_cat : nat) (duid : string) : nat * bool :=
  match duid_catidx duid with
  | Some entry => entry
  | None => (num_cat - 1, false)%nat
  end.

Fixpoint tally_columns (num_cat : nat) (duids : list string) (src_col : nat)
    (t : tallies) : tallies :=
  match duids with
  | [] => t
  | duid :: rest =>
      let '(cat_col, batt_load) := category num_cat duid in
      let unknown :=
        match duid_catidx duid with
        | Some _ => unknown_duids t
        | None => unknown_duids t ++ [duid]
        end in
      let '(cat, in_out) :=
        tally_column num_cat cat_col batt_load src_col (column_at src_col) 0
                     (cat_MW t) (in_out_MW t) in
      tally_columns num_cat rest (S src_col) (mktallies cat in_out unknown)
  end.

(** The matrices after the loop over the columns. *)
Definition tally : tallies :=
  let num_cat := (length cat_list + 1)%nat in
  let row_count := length (values df_five_minute) in
  tally_columns num_cat (labels df_five_minute) 0
    (mktallies (zeros row_count (num_cat * 2))
               (zeros (length (labels df_five_minute)) 3) []).

(** [in_out_MW /= row_count]. *)
Definition averages (row_count : nat) (in_out : frame) : frame :=
  map (map (fun x => x / Num.of_Z (Z.of_nat row_count))) in_out.

(** [[
    if -in_out_MW[i, 0] > 0.1:
        in_out_MW[i, 2] = in_out_MW[i, 1] / -in_out_MW[i, 0]
]] *)
Definition threshold : Qc := Q2Qc (1 # 10).

Definition turnaround (r : row) : row :=
  if Num.ltb threshold (- nth 0 r 0)
  then Py.set_nth r 2 (nth 1 r 0 / - nth 0 r 0)
  else r.

(** The empty columns of 'Unknown':
    [concatenate((cat_MW[:, :num_cat - 1],
                  cat_MW[:, num_cat:2 * num_cat - 1]), axis=1)]. *)
Definition without_unknown (num_cat : nat) (r : row) : row :=
  firstn (num_cat - 1) r ++ skipn num_cat (firstn (2 * num_cat - 1) r).

(** [build_cat_and_in_out_dfs]: [df_categories] and [df_in_out]. *)
Definition build_cat_and_in_out_dfs : dataframe * dataframe :=
  let num_cat := (length cat_list + 1)%nat in
  let row_count := length (values df_five_minute) in
  let t := tally in
  let in_out := averages row_count (in_out_MW t) in
  let '(cats, cat) :=
    if (0 <? length (unknown_duids t))%nat
    then (cat_list ++ ["Unknown"], cat_MW t)
    else (cat_list, map (without_unknown num_cat) (cat_MW t)) in
  let in_out := map turnaround in_out in
  (mkdf (map (append "-") cats ++ map (append "+") cats) cat,
   mkdf ["In"; "Out"; "Out/In"] in_out).

End Aggregate.

Definition example_map (duid : string) : option (nat * bool) :=
  if String.eqb duid "BATT_LOAD" then Some (0%nat, true)
  else if String.eqb duid "BATT_GEN" then Some (0%nat, false)
  else if String.eqb duid "HYDRO" then Some (1%nat, false)
  else None.

Example tally_example :
  let r := build_cat_and_in_out_dfs example_map ["Battery"; "Hydro"]
             (mkdf ["BATT_GEN"; "BATT_LOAD"; "HYDRO"]
                [[Num.of_Z (-30); Num.of_Z 50; Num.of_Z 0];
                 [Num.of_Z 40; Num.of_Z 0; Num.of_Z 7]]) in
  (labels (fst r), map (map this) (values (fst r)),
   map (map this) (values (snd r)))
  = (["-Battery"; "-Hydro"; "+Battery"; "+Hydro"],
     [[-80 # 1; 0 # 1; 0 # 1; 0 # 1]; [0 # 1; 0 # 1; 40 # 1; 7 # 1]],
     [[-15 # 1; 20 # 1; 4 # 3]; [-25 # 1; 0 # 1; 0 # 1];
      [0 # 1; 7 # 2; 0 # 1]])%Q.
Proof. vm_compute. reflexivity. Qed.


(** *** Matrices of a given shape, read with a default *)

Local Open Scope nat_scope.

Definition get (m : frame) (r c : nat) : Qc := nth c (nth r m []) 0%Qc.

Definition shape (m : frame) (nr nc : nat) : Prop :=
  length m = nr /\ forall values, In values m -> length values = nc.

Definition sumQ (l : list Qc) : Qc := fold_right Qcplus 0%Qc l.

Lemma sumQ_app l1 l2 : sumQ (l1 ++ l2) = (sumQ l1 + sumQ l2)%Qc.
Proof.
  induction l1 as [|x l1 IH].
  - cbn [app]. unfold sumQ at 2. cbn [fold_right]. now rewrite Qcplus_0_l.
  - cbn [app]. unfold sumQ at 1 2. cbn [fold_right]. fold (sumQ (l1 ++ l2)).
    fold (sumQ l1). rewrite IH. apply Qcplus_assoc.
Qed.

Lemma sumQ_zero {A} (f : A -> Qc) l :
  (forall x, In x l -> f x = 0%Qc) -> sumQ (map f l) = 0%Qc.
Proof.
  induction l as [|x l IH]; intros H; [reflexivity|].
  cbn [map]. unfold sumQ. cbn [fold_right]. fold (sumQ (map f l)).
  rewrite H by (now left). rewrite IH by (intros; apply H; now right).
  apply Qcplus_0_l.
Qed.

Lemma shape_zeros nr nc : shape (zeros nr nc) nr nc.
Proof.
  unfold zeros, shape. split; [apply repeat_length|].
  intros r Hr. apply repeat_spec in Hr. subst. apply repeat_length.
Qed.

Lemma nth_repeat_0 n c : nth c (repeat 0%Qc n) 0%Qc = 0%Qc.
Proof.
  revert c. induction n as [|n IH]; intros [|c]; cbn; auto.
Qed.

Lemma get_zeros nr nc r c : get (zeros nr nc) r c = 0%Qc.
Proof.
  unfold get, zeros. revert r.
  induction nr as [|nr IH]; intros [|r]; cbn; auto using nth_repeat_0.
  - now destruct c.
  - now destruct c.
Qed.

Lemma nth_set_nth {A} (l : list A) i x n d :
  i < length l -> nth n (Py.set_nth l i x) d = if n =? i then x else nth n l d.
Proof.
  revert i n. induction l as [|h t IH]; intros [|i] [|n] H; cbn in *;
    try lia; auto.
  apply IH. lia.
Qed.

Lemma cell_get (m : frame) nr nc r c :
  shape m nr nc -> r < nr -> c < nc -> cell m r c = Some (get m r c).
Proof.
  intros [Hl Hw] Hr Hc. unfold cell, get.
  destruct (nth_error m r) as [values|] eqn:E;
    [|apply nth_error_None in E; lia].
  rewrite (nth_error_nth _ _ _ E).
  pose proof (Hw _ (nth_error_In _ _ E)) as Hlen.
  apply nth_error_nth'. lia.
Qed.

Lemma add_cell_spec (m : frame) nr nc r c v :
  shape m nr nc -> r < nr -> c < nc ->
  exists m',
    add_cell m r c v = Some m' /\ shape m' nr nc /\
    forall r' c',
      get m' r' c'
      = (get m r' c' + (if (r' =? r) && (c' =? c) then v else 0))%Qc.
Proof.
  intros [Hl Hw] Hr Hc. unfold add_cell.
  destruct (nth_error m r) as [values|] eqn:E;
    [|apply nth_error_None in E; lia].
  pose proof (Hw _ (nth_error_In _ _ E)) as Hlen.
  destruct (nth_error values c) as [x|] eqn:Ex;
    [|apply nth_error_None in Ex; lia].
  cbn [Py.obind]. rewrite Ex. cbn [Py.obind].
  eexists. split; [reflexivity|]. split.
  - split; [rewrite Py.length_set_nth; auto|].
    intros values' Hin. apply In_nth_error in Hin. destruct Hin as [k Hk].
    rewrite nth_error_set_nth in Hk by lia.
    destruct (k =? r).
    + injection Hk as <-. now rewrite Py.length_set_nth.
    + apply Hw. eapply nth_error_In; eauto.
  - intros r' c'. unfold get. rewrite nth_set_nth by lia.
    destruct (Nat.eqb_spec r' r) as [-> | Hne]; cbn [andb].
    + rewrite (nth_error_nth _ _ _ E). rewrite nth_set_nth by lia.
      destruct (Nat.eqb_spec c' c) as [-> | Hne].
      * now rewrite (nth_error_nth _ _ _ Ex).
      * ring.
    + ring.
Qed.

(** *** What a value contributes *)

(** The value used for a channel: negated for a battery load. *)
Definition used (batt_load : bool) (v : Qc) : Qc :=
  if batt_load then (- v)%Qc else v.

Definition neg_part (x : Qc) : Qc := if Num.ltb x 0%Qc then x else 0%Qc.
Definition pos_part (x : Qc) : Qc := if Num.ltb x 0%Qc then 0%Qc else x.

(** The contribution of the used value [x] of a channel of category
    [cat_col] to column [c] of a row of [cat_MW], and to column [c] of the
    channel's row of [in_out_MW]. *)
Definition to_cat (num_cat cat_col : nat) (x : Qc) (c : nat) : Qc :=
  if c =? cat_col then neg_part x
  else if c =? num_cat + cat_col then pos_part x else 0%Qc.

Definition to_in_out (x : Qc) (c : nat) : Qc :=
  if c =? 0 then neg_part x else if c =? 1 then pos_part x else 0%Qc.

Lemma used_zero b v : nonzero v = false -> used b v = 0%Qc.
Proof.
  unfold nonzero. rewrite negb_false_iff, Num.eqb_eq. intros ->.
  destruct b; cbn; auto.
Qed.

Lemma parts_of_zero : neg_part 0%Qc = 0%Qc /\ pos_part 0%Qc = 0%Qc.
Proof. split; reflexivity. Qed.

Lemma tally_value_spec num_cat cat_col batt src_col row v cat io nr nio :
  shape cat nr (num_cat * 2) -> shape io nio 3 ->
  row < nr -> cat_col < num_cat -> src_col < nio ->
  exists cat' io',
    tally_value num_cat cat_col batt src_col row v cat io = (cat', io', true) /\
    shape cat' nr (num_cat * 2) /\ shape io' nio 3 /\
    (forall r c,
       get cat' r c
       = (get cat r c
          + (if r =? row then to_cat num_cat cat_col (used batt v) c else 0))%Qc) /\
    (forall s c,
       get io' s c
       = (get io s c
          + (if s =? src_col then to_in_out (used batt v) c else 0))%Qc).
Proof.
  intros Hcat Hio Hrow Hcc Hsc. unfold tally_value.
  destruct (nonzero v) eqn:Ev.
  - fold (used batt v). set (x := used batt v).
    destruct (Num.ltb x 0%Qc) eqn:Ex.
    + destruct (@add_cell_spec cat nr (num_cat * 2) row cat_col x)
        as (cat' & H1 & S1 & G1); auto; try lia.
      destruct (@add_cell_spec io nio 3 src_col 0 x)
        as (io' & H2 & S2 & G2); auto; try lia.
      rewrite H1, H2. exists cat', io'. repeat split; try apply S1; try apply S2.
      * intros r c. rewrite G1. f_equal. unfold to_cat, neg_part, pos_part.
        rewrite Ex.
        destruct (Nat.eqb_spec r row), (Nat.eqb_spec c cat_col); cbn [andb]; auto.
        now destruct (c =? num_cat + cat_col).
      * intros s c. rewrite G2. f_equal. unfold to_in_out, neg_part, pos_part.
        rewrite Ex.
        destruct (Nat.eqb_spec s src_col), (Nat.eqb_spec c 0); cbn [andb]; auto.
        now destruct (c =? 1).
    + destruct (@add_cell_spec cat nr (num_cat * 2) row (num_cat + cat_col) x)
        as (cat' & H1 & S1 & G1); auto; try lia.
      destruct (@add_cell_spec io nio 3 src_col 1 x)
        as (io' & H2 & S2 & G2); auto; try lia.
      rewrite H1, H2. exists cat', io'. repeat split; try apply S1; try apply S2.
      * intros r c. rewrite G1. f_equal. unfold to_cat, neg_part, pos_part.
        rewrite Ex.
        destruct (Nat.eqb_spec r row), (Nat.eqb_spec c (num_cat + cat_col));
          cbn [andb]; auto.
        -- subst c. replace (num_cat + cat_col =? cat_col) with false; auto.
           symmetry. apply Nat.eqb_neq. lia.
        -- now destruct (c =? cat_col).
      * intros s c. rewrite G2. f_equal. unfold to_in_out, neg_part, pos_part.
        rewrite Ex.
        destruct (Nat.eqb_spec s src_col), (Nat.eqb_spec c 1); cbn [andb]; auto.
        -- subst c. reflexivity.
        -- now destruct (c =? 0).
  - exists cat, io. repeat split; try apply Hcat; try apply Hio.
    + intros r c. rewrite (@used_zero batt v Ev). unfold to_cat.
      destruct parts_of_zero as [-> ->].
      destruct (r =? row), (c =? cat_col), (c =? num_cat + cat_col);
        now rewrite Qcplus_0_r.
    + intros r c. rewrite (@used_zero batt v Ev). unfold to_in_out.
      destruct parts_of_zero as [-> ->].
      destruct (r =? src_col), (c =? 0), (c =? 1); now rewrite Qcplus_0_r.
Qed.

Lemma tally_column_spec num_cat cat_col batt src_col nr nio :
  cat_col < num_cat -> src_col < nio ->
  forall srcvals row0 cat io,
    shape cat nr (num_cat * 2) -> shape io nio 3 ->
    row0 + length srcvals <= nr ->
    exists cat' io',
      tally_column num_cat cat_col batt src_col srcvals row0 cat io
      = (cat', io') /\
      shape cat' nr (num_cat * 2) /\ shape io' nio 3 /\
      (forall r c,
         get cat' r c
         = (get cat r c
            + (if in_range row0 (length srcvals) r
               then to_cat num_cat cat_col
                      (used batt (nth (r - row0) srcvals 0%Qc)) c
               else 0))%Qc) /\
      (forall s c,
         get io' s c
         = (get io s c
            + (if s =? src_col
               then sumQ (map (fun v => to_in_out (used batt v) c) srcvals)
               else 0))%Qc).
Proof.
  intros Hcc Hsc. induction srcvals as [|v rest IH];
    intros row0 cat io Hcat Hio Hlen.
  - exists cat, io. split; [reflexivity|]. repeat split;
      try apply Hcat; try apply Hio.
    + intros r c. replace (in_range row0 (length (@nil Qc)) r) with false
        by (symmetry; apply in_range_false; cbn; lia).
      now rewrite Qcplus_0_r.
    + intros r c. cbn. destruct (r =? src_col); now rewrite Qcplus_0_r.
  - cbn [length] in Hlen. cbn [tally_column].
    destruct (@tally_value_spec num_cat cat_col batt src_col row0 v cat io
                nr nio) as (cat1 & io1 & H1 & S1 & T1 & G1 & K1);
      auto; try lia.
    rewrite H1.
    destruct (IH (S row0) cat1 io1 S1 T1) as (cat' & io' & H2 & S2 & T2 & G2 & K2);
      try lia.
    exists cat', io'. split; [exact H2|]. repeat split;
      try apply S2; try apply T2.
    + intros r c. rewrite G2, G1. cbn [length].
      destruct (Nat.eqb_spec r row0) as [-> | Hne].
      * replace (in_range (S row0) (length rest) row0) with false
          by (symmetry; apply in_range_false; lia).
        replace (in_range row0 (S (length rest)) row0) with true
          by (symmetry; apply in_range_true; lia).
        rewrite Nat.sub_diag. cbn [nth]. now rewrite Qcplus_0_r.
      * destruct (in_range (S row0) (length rest) r) eqn:R.
        -- apply in_range_true in R.
           replace (in_range row0 (S (length rest)) r) with true
             by (symmetry; apply in_range_true; lia).
           replace (r - row0) with (S (r - S row0)) by lia. cbn [nth].
           now rewrite Qcplus_0_r.
        -- apply in_range_false in R.
           replace (in_range row0 (S (length rest)) r) with false
             by (symmetry; apply in_range_false; lia).
           now rewrite !Qcplus_0_r.
    + intros s c. rewrite K2, K1. cbn [map]. unfold sumQ at 2.
      cbn [fold_right]. fold (sumQ (map (fun v0 => to_in_out (used batt v0) c) rest)).
      destruct (s =? src_col); ring.
Qed.

(** *** The tallies after the loop over the columns *)

Lemma sumQ_cons x l : sumQ (x :: l) = (x + sumQ l)%Qc.
Proof. reflexivity. Qed.

Lemma sumQ_filter {A} (f : A -> bool) (g : A -> Qc) l :
  sumQ (map (fun x => if f x then g x else 0%Qc) l) = sumQ (map g (filter f l)).
Proof.
  induction l as [|x l IH]; [reflexivity|].
  cbn [map filter]. rewrite sumQ_cons, IH. destruct (f x).
  - cbn [map]. now rewrite sumQ_cons.
  - apply Qcplus_0_l.
Qed.

Lemma sumQ_ext {A} (f g : A -> Qc) l :
  (forall x, In x l -> f x = g x) -> sumQ (map f l) = sumQ (map g l).
Proof.
  induction l as [|x l IH]; intros H; [reflexivity|].
  cbn [map]. rewrite !sumQ_cons, IH by (intros; apply H; now right).
  now rewrite H by now left.
Qed.

(** The category column and the load flag the loop uses for a channel. *)
Definition cat_of (duid_catidx : string -> option (nat * bool))
    (cat_list : list string) (duid : string) : nat :=
  fst (category duid_catidx (length cat_list + 1) duid).

Definition is_load (duid_catidx : string -> option (nat * bool))
    (cat_list : list string) (duid : string) : bool :=
  snd (category duid_catidx (length cat_list + 1) duid).

(** [|x|]. *)
Definition abs (x : Qc) : Qc := if Num.ltb x 0%Qc then (- x)%Qc else x.

Lemma neg_part_le x : (neg_part x <= 0)%Qc.
Proof.
  unfold neg_part. destruct (Num.ltb x 0%Qc) eqn:E.
  - apply Num.ltb_lt in E. now apply Qclt_le_weak.
  - apply Qcle_refl.
Qed.

Lemma sumQ_nonpos {A} (f : A -> Qc) l :
  (forall x, (f x <= 0)%Qc) -> (sumQ (map f l) <= 0)%Qc.
Proof.
  intros H. induction l as [|x l IH]; [apply Qcle_refl|].
  cbn [map]. rewrite sumQ_cons.
  replace 0%Qc with (0 + 0)%Qc by ring. now apply Qcplus_le_compat.
Qed.

Lemma abs_nonpos x : (x <= 0)%Qc -> abs x = (- x)%Qc.
Proof.
  intros H. unfold abs. destruct (Num.ltb x 0%Qc) eqn:E; auto.
  apply Num.ltb_ge in E. assert (x = 0%Qc) as -> by now apply Qcle_antisym.
  ring.
Qed.

Lemma of_nat_pos n : 0 < n -> (0 < Num.of_Z (Z.of_nat n))%Qc.
Proof.
  intros H. unfold Qclt, Num.of_Z, Q2Qc. cbn [this].
  rewrite !Qred_correct. unfold Qlt. cbn. lia.
Qed.

Lemma div_nonpos x n : 0 < n -> (x <= 0)%Qc -> (x / Num.of_Z (Z.of_nat n) <= 0)%Qc.
Proof.
  intros Hn Hx. pose proof (of_nat_pos Hn) as Hp.
  apply (@Qcmult_lt_0_le_reg_r _ _ (Num.of_Z (Z.of_nat n)) Hp).
  replace (x / Num.of_Z (Z.of_nat n) * Num.of_Z (Z.of_nat n))%Qc with x.
  - now replace (0 * Num.of_Z (Z.of_nat n))%Qc with 0%Qc by ring.
  - field. intros E. rewrite E in Hp. now apply Qclt_not_eq in Hp.
Qed.

Lemma row_of_three (m : frame) nio j :
  shape m nio 3 -> j < nio ->
  nth_error m j = Some [get m j 0; get m j 1; get m j 2].
Proof.
  intros [Hl Hw] Hj. unfold get.
  destruct (nth_error m j) as [r|] eqn:E; [|apply nth_error_None in E; lia].
  rewrite (nth_error_nth _ _ _ E).
  pose proof (Hw _ (nth_error_In _ _ E)) as Hlen.
  destruct r as [|a [|b [|c [|d r]]]]; try discriminate. reflexivity.
Qed.

Section AggregateFacts.

Variable duid_catidx : string -> option (nat * bool).
Variable cat_list : list string.
Variable df : dataframe.

(** The category indices of ['DUID Categories.csv'] are positions in
    [cat_list]. *)
Hypothesis known_categories :
  forall duid c b, duid_catidx duid = Some (c, b) -> c < length cat_list.

Local Abbreviation num_cat := (length cat_list + 1).
Local Abbreviation nr := (length (values df)).
Local Abbreviation category_of := (cat_of duid_catidx cat_list).
Local Abbreviation load := (is_load duid_catidx cat_list).

Lemma category_lt duid : category_of duid < num_cat.
Proof.
  unfold cat_of, category.
  destruct (duid_catidx duid) as [[c b]|] eqn:E; cbn [fst].
  - apply known_categories in E. lia.
  - lia.
Qed.

Lemma nth_column_at r j : nth r (column_at df j) 0%Qc = get (values df) r j.
Proof.
  unfold column_at, get.
  rewrite <- (map_nth (fun values : row => nth j values 0%Qc)).
  f_equal. now destruct j.
Qed.

Lemma length_column_at j : length (column_at df j) = nr.
Proof. unfold column_at. apply length_map. Qed.

Lemma tally_columns_spec nio :
  forall duids j0 t,
    shape (cat_MW t) nr (num_cat * 2) -> shape (in_out_MW t) nio 3 ->
    j0 + length duids <= nio ->
    let t' := tally_columns duid_catidx df num_cat duids j0 t in
    shape (cat_MW t') nr (num_cat * 2) /\ shape (in_out_MW t') nio 3 /\
    (forall r c,
       r < nr ->
       get (cat_MW t') r c
       = (get (cat_MW t) r c
          + sumQ (map (fun p => to_cat num_cat (category_of (fst p))
                                  (used (load (fst p))
                                        (get (values df) r (snd p))) c)
                      (combine duids (seq j0 (length duids)))))%Qc) /\
    (forall s c,
       get (in_out_MW t') s c
       = (get (in_out_MW t) s c
          + (if in_range j0 (length duids) s
             then sumQ (map (fun v => to_in_out
                                        (used (load (nth (s - j0) duids "")) v) c)
                            (column_at df s))
             else 0))%Qc).
Proof.
  induction duids as [|d rest IH]; intros j0 t Hc Hio Hlen.
  - cbn [tally_columns length combine map]. repeat split;
      try apply Hc; try apply Hio.
    + intros r c _. change (sumQ []) with 0%Qc. now rewrite Qcplus_0_r.
    + intros s c. replace (in_range j0 0 s) with false
        by (symmetry; apply in_range_false; lia).
      now rewrite Qcplus_0_r.
  - cbn [length] in Hlen. cbn [tally_columns].
    pose proof (category_lt d) as Hcc.
    assert (Ecc : fst (category duid_catidx num_cat d) = category_of d)
      by reflexivity.
    assert (Ebl : snd (category duid_catidx num_cat d) = load d)
      by reflexivity.
    destruct (category duid_catidx num_cat d) as [cc bl]. cbn [fst snd] in *.
    subst cc bl.
    destruct (@tally_column_spec num_cat (category_of d) (load d) j0 nr nio
                Hcc ltac:(lia) (column_at df j0) 0 (cat_MW t) (in_out_MW t)
                Hc Hio) as (cat' & io' & H & S1 & S2 & G & K).
    { rewrite length_column_at. lia. }
    rewrite H.
    match goal with
    | |- context [tally_columns _ _ _ rest (S j0) ?t1] =>
        destruct (IH (S j0) t1) as (T1 & T2 & G2 & K2);
          [exact S1 | exact S2 | lia |]
    end.
    cbn [cat_MW in_out_MW] in *. cbv zeta in *.
    split; [exact T1|]. split; [exact T2|]. split.
    + intros r c Hr. rewrite G2, G by exact Hr.
      rewrite length_column_at.
      replace (in_range 0 nr r) with true
        by (symmetry; apply in_range_true; lia).
      rewrite Nat.sub_0_r, nth_column_at.
      cbn [length seq combine map fst snd]. rewrite sumQ_cons.
      now rewrite Qcplus_assoc.
    + intros s c. rewrite K2, K. cbn [length].
      destruct (Nat.eqb_spec s j0) as [-> | Hne].
      * replace (in_range (S j0) (length rest) j0) with false
          by (symmetry; apply in_range_false; lia).
        replace (in_range j0 (S (length rest)) j0) with true
          by (symmetry; apply in_range_true; lia).
        rewrite Nat.sub_diag. cbn [nth]. now rewrite Qcplus_0_r.
      * destruct (in_range (S j0) (length rest) s) eqn:R.
        -- apply in_range_true in R.
           replace (in_range j0 (S (length rest)) s) with true
             by (symmetry; apply in_range_true; lia).
           replace (s - j0) with (S (s - S j0)) by lia. cbn [nth].
           now rewrite Qcplus_0_r.
        -- apply in_range_false in R.
           replace (in_range j0 (S (length rest)) s) with false
             by (symmetry; apply in_range_false; lia).
           now rewrite !Qcplus_0_r.
Qed.

(** The matrices of [tally]: every cell is the sum of what the channels
    contribute to it. *)
Lemma tally_spec :
  let t := tally duid_catidx cat_list df in
  shape (cat_MW t) nr (num_cat * 2) /\
  shape (in_out_MW t) (length (labels df)) 3 /\
  (forall r c,
     r < nr ->
     get (cat_MW t) r c
     = sumQ (map (fun p => to_cat num_cat (category_of (fst p))
                             (used (load (fst p))
                                   (get (values df) r (snd p))) c)
                 (combine (labels df) (seq 0 (length (labels df)))))) /\
  (forall j duid c,
     nth_error (labels df) j = Some duid ->
     get (in_out_MW t) j c
     = sumQ (map (fun v => to_in_out (used (load duid) v) c)
                 (column_at df j))).
Proof.
  unfold tally.
  destruct (@tally_columns_spec (length (labels df)) (labels df) 0
              (mktallies (zeros nr (num_cat * 2))
                         (zeros (length (labels df)) 3) []))
    as (T1 & T2 & G & K); cbn [cat_MW in_out_MW];
    try apply shape_zeros; try lia.
  cbn [cat_MW in_out_MW] in G, K.
  cbv zeta. split; [exact T1|]. split; [exact T2|]. split.
  - intros r c Hr. rewrite G by exact Hr. rewrite get_zeros.
    apply Qcplus_0_l.
  - intros j duid c Hj. rewrite K. rewrite get_zeros, Qcplus_0_l.
    assert (j < length (labels df))
      by (apply nth_error_Some; congruence).
    replace (in_range 0 (length (labels df)) j) with true
      by (symmetry; apply in_range_true; lia).
    rewrite Nat.sub_0_r. now rewrite (nth_error_nth _ _ _ Hj).
Qed.

End AggregateFacts.

Definition example_frame : dataframe :=
  mkdf ["BATT_GEN"; "BATT_LOAD"; "HYDRO"]
    [[Num.of_Z (-30); Num.of_Z 50; Num.of_Z 0];
     [Num.of_Z 40; Num.of_Z 0; Num.of_Z 7]].

Lemma example_map_known duid c b :
  example_map duid = Some (c, b) -> c < length ["Battery"; "Hydro"].
Proof.
  unfold example_map. intros H.
  destruct (String.eqb duid "BATT_LOAD");
    [injection H as <- _; cbn; lia|].
  destruct (String.eqb duid "BATT_GEN");
    [injection H as <- _; cbn; lia|].
  destruct (String.eqb duid "HYDRO");
    [injection H as <- _; cbn; lia | discriminate].
Qed.

(** C5. Aggregation sign law. The value used for a channel is the value of
    the main frame, negated when the channel's load flag is set. In the
    tallies after the loop, the negative column of a category holds at each
    row the sum of the negative used values of the channels of the
    category, and the positive column the sum of the others; the negative
    and positive totals of a channel are the sums of its negative and of
    its other used values over the rows. A value of zero adds nothing; a
    load channel reporting +50 adds -50 to the negative column, and a
    channel that is no load reporting -30 adds -30 to it. The category
    indices of the category map are positions in the category list. *)
Theorem aggregation_sign_law (duid_catidx : string -> option (nat * bool))
    (cat_list : list string) (df : dataframe) :
  (forall duid c b, duid_catidx duid = Some (c, b) -> c < length cat_list) ->
  let t := tally duid_catidx cat_list df in
  let num_cat := length cat_list + 1 in
  let channels := combine (labels df) (seq 0 (length (labels df))) in
  let used_at r (p : string * nat) :=
    used (is_load duid_catidx cat_list (fst p)) (get (values df) r (snd p)) in
  let of_category k (p : string * nat) :=
    cat_of duid_catidx cat_list (fst p) =? k in
  (forall r k,
     r < length (values df) -> k < num_cat ->
     cell (cat_MW t) r k
     = Some (sumQ (map (fun p => neg_part (used_at r p))
                       (filter (of_category k) channels))) /\
     cell (cat_MW t) r (num_cat + k)
     = Some (sumQ (map (fun p => pos_part (used_at r p))
                       (filter (of_category k) channels)))) /\
  (forall j duid,
     nth_error (labels df) j = Some duid ->
     cell (in_out_MW t) j 0
     = Some (sumQ (map (fun v => neg_part
                                   (used (is_load duid_catidx cat_list duid) v))
                       (column_at df j))) /\
     cell (in_out_MW t) j 1
     = Some (sumQ (map (fun v => pos_part
                                   (used (is_load duid_catidx cat_list duid) v))
                       (column_at df j)))) /\
  (forall v, used true v = (- v)%Qc /\ used false v = v) /\
  (forall x, (x < 0)%Qc -> neg_part x = x /\ pos_part x = 0%Qc) /\
  (forall x, (0 <= x)%Qc -> neg_part x = 0%Qc /\ pos_part x = x) /\
  (forall b, neg_part (used b 0%Qc) = 0%Qc /\ pos_part (used b 0%Qc) = 0%Qc) /\
  neg_part (used true (Num.of_Z 50)) = Num.of_Z (-50) /\
  pos_part (used true (Num.of_Z 50)) = 0%Qc /\
  neg_part (used false (Num.of_Z (-30))) = Num.of_Z (-30) /\
  pos_part (used false (Num.of_Z (-30))) = 0%Qc.
Proof.
  intros Hknown t num_cat channels used_at of_category.
  destruct (@tally_spec duid_catidx cat_list df Hknown) as (S1 & S2 & G & K).
  fold t in S1, S2, G, K.
  split; [|split; [|split; [|split; [|split; [|split]]]]].
  - intros r k Hr Hk. split.
    + rewrite (@cell_get _ _ _ r k S1) by (auto; lia). f_equal.
      rewrite G by exact Hr. fold channels. rewrite <- sumQ_filter.
      apply sumQ_ext. intros p Hp. unfold to_cat, of_category, used_at.
      pose proof (@category_lt duid_catidx cat_list Hknown (fst p)) as Hlt.
      rewrite (Nat.eqb_sym (cat_of duid_catidx cat_list (fst p)) k).
      destruct (Nat.eqb_spec k (cat_of duid_catidx cat_list (fst p)));
        [reflexivity|].
      replace (k =? length cat_list + 1 + cat_of duid_catidx cat_list (fst p))
        with false; [reflexivity|].
      symmetry. apply Nat.eqb_neq. unfold num_cat in Hk. lia.
    + rewrite (@cell_get _ _ _ r (num_cat + k) S1) by (auto; unfold num_cat; lia).
      f_equal. rewrite G by exact Hr. fold channels. rewrite <- sumQ_filter.
      apply sumQ_ext. intros p Hp. unfold to_cat, of_category, used_at.
      pose proof (@category_lt duid_catidx cat_list Hknown (fst p)) as Hlt.
      replace (num_cat + k =? cat_of duid_catidx cat_list (fst p)) with false
        by (symmetry; apply Nat.eqb_neq; unfold num_cat; lia).
      rewrite (Nat.eqb_sym (cat_of duid_catidx cat_list (fst p)) k).
      destruct (Nat.eqb_spec k (cat_of duid_catidx cat_list (fst p))) as [E|E].
      * replace (num_cat + k
                 =? length cat_list + 1 + cat_of duid_catidx cat_list (fst p))
          with true; [reflexivity|].
        symmetry. apply Nat.eqb_eq. unfold num_cat. lia.
      * replace (num_cat + k
                 =? length cat_list + 1 + cat_of duid_catidx cat_list (fst p))
          with false; [reflexivity|].
        symmetry. apply Nat.eqb_neq. unfold num_cat. lia.
  - intros j duid Hj.
    assert (j < length (labels df)) by (apply nth_error_Some; congruence).
    split.
    + rewrite (@cell_get _ _ _ j 0 S2) by (auto; lia). f_equal.
      now rewrite (K j duid 0 Hj).
    + rewrite (@cell_get _ _ _ j 1 S2) by (auto; lia). f_equal.
      now rewrite (K j duid 1 Hj).
  - intros v. split; reflexivity.
  - intros x Hx. apply Num.ltb_lt in Hx. unfold neg_part, pos_part.
    now rewrite Hx.
  - intros x Hx. apply Num.ltb_ge in Hx. unfold neg_part, pos_part.
    now rewrite Hx.
  - intros b. rewrite (@used_zero b 0%Qc) by reflexivity.
    exact parts_of_zero.
  - repeat split; apply Num.this_inj; vm_compute; reflexivity.
Qed.

Lemma aggregation_sign_law_witness :
  let t := tally example_map ["Battery"; "Hydro"] example_frame in
  option_map this (cell (cat_MW t) 0 0) = Some (-80 # 1)%Q /\
  option_map this (cell (in_out_MW t) 1 0) = Some (-50 # 1)%Q.
Proof.
  destruct (@aggregation_sign_law example_map ["Battery"; "Hydro"]
              example_frame example_map_known) as (H1 & H2 & _).
  split.
  - destruct (H1 0 0) as [E _]; [cbn; lia | cbn; lia |].
    rewrite E. vm_compute. reflexivity.
  - destruct (H2 1 "BATT_LOAD" eq_refl) as [E _].
    rewrite E. vm_compute. reflexivity.
Defined.

Lemma row_of_turnaround (m : frame) j n a b c :
  nth_error m j = Some [a; b; c] ->
  let count := Num.of_Z (Z.of_nat n) in
  nth_error (map turnaround (averages n m)) j
  = Some (turnaround [a / count; b / count; c / count]%Qc).
Proof.
  intros H count. unfold averages. rewrite !nth_error_map.
  unfold row in H. rewrite H. reflexivity.
Qed.

(** A value exceeds the threshold after the division by the row count
    when the value exceeds the row count times the threshold. *)
Lemma threshold_of_average (x count : Qc) :
  (0 < count)%Qc ->
  (Num.ltb threshold (x / count) = true <-> (threshold * count < x)%Qc).
Proof.
  intros Hc. rewrite Num.ltb_lt.
  assert (Hne : count <> 0%Qc).
  { intros E. apply Qclt_not_eq in Hc. congruence. }
  assert (Hx : (x / count * count = x)%Qc) by (field; exact Hne).
  split; intros H.
  - rewrite <- Hx. now apply Qcmult_lt_compat_r.
  - apply Qcnot_le_lt. intros Hle.
    apply (Qcmult_le_compat_r _ _ count) in Hle; [|now apply Qclt_le_weak].
    rewrite Hx in Hle. now apply Qcle_not_lt in Hle.
Qed.

(** A frame of two rows with the one channel [BATT_GEN], a generator of
    the first category. *)
Definition two_rows (first second : Qc) : dataframe :=
  mkdf ["BATT_GEN"] [[first]; [second]].

(** C6, as amended. Ratio threshold. After the running totals of a channel
    are divided by the row count, its row of the result holds the averages
    In and Out, and its Out/In ratio is Out / |In| when the average |In|
    exceeds the threshold 0.1, that is when the absolute negative total
    exceeds 0.1 times the row count, and is left at zero otherwise; where
    the negative total is not zero, Out / |In| is the positive total over
    the absolute negative total, the row count cancelling. A row with
    In = -0.05 keeps the ratio 0, and one with In = -5 and Out = 4 gets the
    ratio 0.8: over two rows these are the channels with the totals -0.1,
    and -10 and 8. The frame has at least one row. *)
Theorem ratio_threshold (duid_catidx : string -> option (nat * bool))
    (cat_list : list string) (df : dataframe) :
  (forall duid c b, duid_catidx duid = Some (c, b) -> c < length cat_list) ->
  0 < length (values df) ->
  let df_in_out :=
    values (snd (build_cat_and_in_out_dfs duid_catidx cat_list df)) in
  let row_count := Num.of_Z (Z.of_nat (length (values df))) in
  (forall j duid,
     nth_error (labels df) j = Some duid ->
     let negative_total :=
       sumQ (map (fun v => neg_part (used (is_load duid_catidx cat_list duid) v))
                 (column_at df j)) in
     let positive_total :=
       sumQ (map (fun v => pos_part (used (is_load duid_catidx cat_list duid) v))
                 (column_at df j)) in
     let In := (negative_total / row_count)%Qc in
     let Out := (positive_total / row_count)%Qc in
     cell df_in_out j 0 = Some In /\
     cell df_in_out j 1 = Some Out /\
     cell df_in_out j 2
     = Some (if Num.ltb threshold (abs In) then (Out / abs In)%Qc else 0%Qc) /\
     (negative_total <> 0%Qc ->
      (Out / abs In = positive_total / abs negative_total)%Qc) /\
     (Num.ltb threshold (abs In) = true <->
      (threshold * row_count < abs negative_total)%Qc)) /\
  (forall Out,
     map this (turnaround [Q2Qc (-5 # 100); Out; 0%Qc])
     = map this [Q2Qc (-5 # 100); Out; 0%Qc]) /\
  map this (turnaround [Num.of_Z (-5); Num.of_Z 4; 0%Qc])
  = [-5 # 1; 4 # 1; 4 # 5]%Q /\
  map (map this)
    (values (snd (build_cat_and_in_out_dfs example_map ["Battery"; "Hydro"]
                    (two_rows (Q2Qc (-1 # 10)) 0%Qc))))
  = [[-1 # 20; 0 # 1; 0 # 1]]%Q /\
  map (map this)
    (values (snd (build_cat_and_in_out_dfs example_map ["Battery"; "Hydro"]
                    (two_rows (Num.of_Z (-10)) (Num.of_Z 8)))))
  = [[-5 # 1; 4 # 1; 4 # 5]]%Q.
Proof.
  intros Hknown Hrows df_in_out row_count.
  split; [|split; [intros Out; reflexivity
                  |split; [|split]; vm_compute; reflexivity]].
  intros j duid Hj negative_total positive_total In Out.
  destruct (@tally_spec duid_catidx cat_list df Hknown) as (_ & S2 & _ & K).
  assert (Hlt : j < length (labels df)) by (apply nth_error_Some; congruence).
  pose proof (row_of_three S2 Hlt) as Hrow.
  rewrite (K j duid 0 Hj), (K j duid 1 Hj), (K j duid 2 Hj) in Hrow.
  rewrite (@sumQ_zero _ (fun v => to_in_out
                                   (used (is_load duid_catidx cat_list duid) v)
                                   2)) in Hrow by (intros; reflexivity).
  change (sumQ (map (fun v => to_in_out
                                (used (is_load duid_catidx cat_list duid) v) 0)
                    (column_at df j))) with negative_total in Hrow.
  change (sumQ (map (fun v => to_in_out
                                (used (is_load duid_catidx cat_list duid) v) 1)
                    (column_at df j))) with positive_total in Hrow.
  assert (Hneg : (negative_total <= 0)%Qc)
    by (apply sumQ_nonpos; intros; apply neg_part_le).
  assert (HIn : (In <= 0)%Qc) by (now apply div_nonpos).
  assert (Hzero : (0 / row_count)%Qc = 0%Qc)
    by (unfold Qcdiv; apply Qcmult_0_l).
  assert (Hfinal :
    nth_error df_in_out j
    = Some (turnaround [In; Out; 0%Qc])).
  { unfold df_in_out, build_cat_and_in_out_dfs. cbv zeta.
    destruct (0 <? length (unknown_duids (tally duid_catidx cat_list df)));
      cbn [snd values];
      rewrite (@row_of_turnaround _ _ (length (values df)) _ _ _ Hrow);
      fold row_count; rewrite Hzero; reflexivity. }
  assert (Hturn :
    turnaround [In; Out; 0%Qc]
    = [In; Out;
       if Num.ltb threshold (abs In) then (Out / abs In)%Qc else 0%Qc]).
  { unfold turnaround. cbn [nth]. rewrite (abs_nonpos HIn).
    now destruct (Num.ltb threshold (- In)). }
  unfold cell. rewrite Hfinal, Hturn. cbn [nth_error].
  assert (Hrc : row_count <> 0%Qc).
  { intros E. pose proof (of_nat_pos Hrows) as Hp. fold row_count in Hp.
    rewrite E in Hp. now apply Qclt_not_eq in Hp. }
  split; [reflexivity|]. split; [reflexivity|]. split; [reflexivity|].
  split.
  - intros Hne. rewrite (abs_nonpos HIn), (abs_nonpos Hneg).
    assert (Hopp : (- negative_total)%Qc <> 0%Qc).
    { intros E. apply Hne.
      replace negative_total with (- - negative_total)%Qc by ring.
      rewrite E. ring. }
    unfold In, Out. field. repeat split; assumption.
  - rewrite (abs_nonpos HIn), (abs_nonpos Hneg).
    replace (- In)%Qc with (- negative_total / row_count)%Qc
      by (unfold In; field; exact Hrc).
    apply threshold_of_average. apply (of_nat_pos Hrows).
Qed.

Lemma ratio_threshold_witness :
  option_map this
    (cell (values (snd (build_cat_and_in_out_dfs example_map
                          ["Battery"; "Hydro"] example_frame))) 0 2)
  = Some (4 # 3)%Q.
Proof.
  destruct (@ratio_threshold example_map ["Battery"; "Hydro"] example_frame
              example_map_known) as (H & _); [cbn; lia|].
  destruct (H 0 "BATT_GEN" eq_refl) as (_ & _ & E & _).
  rewrite E. vm_compute. reflexivity.
Defined.

(** C6, as stated, fails: the threshold is not compared with the negative
    total. A generator with the values -0.15 and 4 over two rows has the
    negative total -0.15, beyond the threshold, and the positive total 4;
    its average In is -0.075 and the ratio is left at zero, where the
    claim has 4 / 0.15. *)
Lemma ratio_threshold_not_on_totals :
  ~ (forall (duid_catidx : string -> option (nat * bool))
            (cat_list : list string) (df : dataframe) (j : nat)
            (duid : string),
       (forall duid c b,
          duid_catidx duid = Some (c, b) -> c < length cat_list) ->
       0 < length (values df) ->
       nth_error (labels df) j = Some duid ->
       let negative_total :=
         sumQ (map (fun v =>
                      neg_part (used (is_load duid_catidx cat_list duid) v))
                   (column_at df j)) in
       let positive_total :=
         sumQ (map (fun v =>
                      pos_part (used (is_load duid_catidx cat_list duid) v))
                   (column_at df j)) in
       cell (values (snd (build_cat_and_in_out_dfs duid_catidx cat_list df)))
            j 2
       = Some (if Num.ltb threshold (abs negative_total)
               then (positive_total / abs negative_total)%Qc else 0%Qc)).
Proof.
  intros H.
  specialize (H example_map ["Battery"; "Hydro"]
                (two_rows (Q2Qc (-3 # 20)) (Num.of_Z 4)) 0 "BATT_GEN"
                example_map_known).
  assert (L : 0 < 2) by lia. specialize (H L eq_refl).
  vm_compute in H. discriminate H.
Qed.

End Tally.

(** ** Reading the payloads of an archive
    ([load_nem_data_file], [parse_csvfile], [finalise_data_MW]) *)

Module Parse.

Import Repair Resample Tally.
Local Open Scope nat_scope.

(** A record of a payload, as the [csv.reader] yields it, and a payload:
    the name of the CSV member and its records. The archive is given as
    the list of its CSV payloads in reading order (the members whose names
    end in [.zip], and in them those that end in [.csv]). *)
Definition record : Type := list string.
Definition payload : Type := string * list record.

(** A plain decimal literal ([-12.5], [0.10], [7]) as a fraction. The
    examples read their values with it; the theorems hold for any reading
    of [float(power)]. *)
Fixpoint split_at_dot (s : string) : string * option string :=
  match s with
  | EmptyString => (EmptyString, None)
  | String c r =>
      if Ascii.eqb c "."%char then (EmptyString, Some r)
      else let '(a, b) := split_at_dot r in (String c a, b)
  end.

Definition decimal (s : string) : option Qc :=
  let '(negative, body) :=
    match s with
    | String c r => if Ascii.eqb c "-"%char then (true, r) else (false, s)
    | EmptyString => (false, s)
    end in
  let '(whole, fraction) := split_at_dot body in
  let? w := Py.py_int whole in
  let? x :=
    match fraction with
    | None => Some (Num.of_Z w)
    | Some f =>
        let? n := Py.py_int f in
        let scale := Pos.pow 10 (Pos.of_nat (String.length f)) in
        Some (Q2Qc ((w * Z.pos scale + n) # scale))
    end in
  Some (if negative then (- x)%Qc else x).

Example decimal_examples :
  option_map this (decimal "0.10") = Some (1 # 10)%Q /\
  option_map this (decimal "-12.5") = Some (-25 # 2)%Q /\
  option_map this (decimal "3088.502") = Some (1544251 # 500)%Q /\
  decimal "BARCSF1" = None /\ decimal EmptyString = None.
Proof. repeat split; vm_compute; reflexivity. Qed.

(** A reading of [datetime.strptime(s, '%Y/%m/%d %H:%M:%S')] good enough
    to tell a stamp from another field: four digits, then five groups of
    two digits with their separators. *)
Definition is_stamp (s : string) : bool :=
  match Py.py_int (Py.slice s 0 4), Py.py_int (Py.slice s 5 7),
        Py.py_int (Py.slice s 8 10), Py.py_int (Py.slice s 11 13),
        Py.py_int (Py.slice s 14 16), Py.py_int (Py.slice s 17 19) with
  | Some _, Some mo, Some d, Some h, Some mi, Some sec =>
      (String.length s =? 19)
      && String.eqb (Py.slice s 4 5) "/" && String.eqb (Py.slice s 7 8) "/"
      && String.eqb (Py.slice s 10 11) " " && String.eqb (Py.slice s 13 14) ":"
      && String.eqb (Py.slice s 16 17) ":"
      && (1 <=? mo)%Z && (mo <=? 12)%Z && (1 <=? d)%Z && (d <=? 31)%Z
      && (h <=? 23)%Z && (mi <=? 59)%Z && (sec <=? 61)%Z
  | _, _, _, _, _, _ => false
  end.

End Parse.

(** *** The daily feed ([DispatchSCADA]) *)

Module Scada.

Import Repair Resample Tally Parse.
Local Open Scope nat_scope.

(** The attributes [load.timedate_col], [load.duid_col] and [load.MW_col],
    which a fresh [Blank()] does not have. *)
Record columns : Type := mkcolumns {
  timedate_col : nat;
  duid_col : nat;
  MW_col : nat
}.

(** [self.load] while an archive is read. [data_MW] is the list of rows of
    [initialise_data_MW], [None] for an interval no payload has filled. *)
Record load : Type := mkload {
  cols : option columns;
  duid_list : list string;
  data_MW : list (option row)
}.

Definition initialise_data_MW : load :=
  mkload None [] (repeat None (Z.to_nat (Feed.INTERVALS_PER_FILE Feed.DispatchSCADA))).

Section Reader.

(** [float(power)], [None] for [ValueError]; and whether
    [datetime.strptime(row[4], '%Y/%m/%d %H:%M:%S')] returns. *)
Variable float : string -> option Qc.
Variable strptime : string -> bool.

(** [[
    if duid in load.duid_list:
        duid_index = load.duid_list.index(duid)
    else:  # new duid
        duid_index = len(load.duid_list)
        load.duid_list.append(duid)
        interval_MW.append(0.0)
]] *)
Definition locate (ld : load) (interval_MW : row) (duid : string)
  : nat * load * row :=
  match index_of duid (duid_list ld) with
  | Some duid_index => (duid_index, ld, interval_MW)
  | None =>
      (length (duid_list ld),
       mkload (cols ld) (duid_list ld ++ [duid]) (data_MW ld),
       interval_MW ++ [0%Qc])
  end.

(** The body of the loop of [parse_csvfile] over the records, for
    [load.validate = False] (the only value [load_nem_data] passes). An
    empty record ([row[0]]), a data record before any header
    ([load.MW_col]), a header without one of the three names
    ([row.index]), a record too short for a position, and a data record
    with a field 4 that is no stamp end the run with an exception. *)
Definition parse_record (ld : load) (interval_MW : row) (r : record)
  : option (load * row) :=
  let? tag := nth_error r 0 in
  if String.eqb tag "C" then Some (ld, interval_MW)
  else if String.eqb tag "I" then
    match cols ld with
    | Some _ => Some (ld, interval_MW)
    | None =>
        let? t := index_of "SETTLEMENTDATE" r in
        let? d := index_of "DUID" r in
        let? m := index_of "SCADAVALUE" r in
        Some (mkload (Some (mkcolumns t d m)) (duid_list ld) (data_MW ld),
              interval_MW)
    end
  else if String.eqb tag "D" then
    let? k := cols ld in
    let? power := nth_error r (MW_col k) in
    if String.eqb power "0" then Some (ld, interval_MW)
    else
      let? stamp := nth_error r 4 in
      if strptime stamp then
        let? duid := nth_error r (duid_col k) in
        let '(duid_index, ld, interval_MW) := locate ld interval_MW duid in
        match float power with
        | Some v =>
            let? interval_MW := Py.setitem interval_MW (Z.of_nat duid_index) v in
            Some (ld, interval_MW)
        | None => Some (ld, interval_MW)
        end
      else None
  else Some (ld, interval_MW).

Fixpoint parse_records (ld : load) (interval_MW : row) (rs : list record)
  : option (load * row) :=
  match rs with
  | [] => Some (ld, interval_MW)
  | r :: rest =>
      let? (ld, interval_MW) := parse_record ld interval_MW r in
      parse_records ld interval_MW rest
  end.

(** [parse_csvfile(load, csvreader)] with [load.interval = interval]. *)
Definition parse_csvfile (ld : load) (interval : Z) (rs : list record)
  : option load :=
  let interval_MW := repeat 0%Qc (length (duid_list ld)) in
  let? (ld, interval_MW) := parse_records ld interval_MW rs in
  let? data := Py.setitem (data_MW ld) interval (Some interval_MW) in
  Some (mkload (cols ld) (duid_list ld) data).

(** [read_interval_zip] for the CSV member of an inner archive. *)
Definition read_interval_zip (filename : string) (ld : load) (p : payload)
  : option load :=
  let? interval := Feed.interval_of Feed.DispatchSCADA filename (fst p) in
  parse_csvfile ld interval (snd p).

Fixpoint read_payloads (filename : string) (ld : load) (ps : list payload)
  : option load :=
  match ps with
  | [] => Some ld
  | p :: rest =>
      let? ld := read_interval_zip filename ld p in
      read_payloads filename ld rest
  end.

(** [[
    for col, power in enumerate(row_data):
        new_data_MW[row, col] = power
]] on the row [row] of [new_data_MW]. *)
Fixpoint copy_powers (col : nat) (row_data new_row : row) : option row :=
  match row_data with
  | [] => Some new_row
  | power :: rest =>
      let? new_row := Py.setitem new_row (Z.of_nat col) power in
      copy_powers (S col) rest new_row
  end.

(** The loop of [finalise_data_MW] over [enumerate(self.load.data_MW)]. *)
Fixpoint copy_rows (r : nat) (data : list (option row)) (new_data_MW : frame)
  : option frame :=
  match data with
  | [] => Some new_data_MW
  | None :: rest => copy_rows (S r) rest new_data_MW
  | Some row_data :: rest =>
      let? new_row := Py.getitem new_data_MW (Z.of_nat r) in
      let? new_row := copy_powers 0 row_data new_row in
      let? new_data_MW := Py.setitem new_data_MW (Z.of_nat r) new_row in
      copy_rows (S r) rest new_data_MW
  end.

Definition finalise_data_MW (ld : load) : option frame :=
  copy_rows 0 (data_MW ld)
    (zeros (Z.to_nat (Feed.INTERVALS_PER_FILE Feed.DispatchSCADA))
           (length (duid_list ld))).

(** [load_nem_data_file]: the frame [load.nem_MW_df] of the archive, and
    the load it was built from. *)
Definition load_nem_data_file (filename : string) (ps : list payload)
  : option (dataframe * load) :=
  let? _ := Feed.start_stamp Feed.DispatchSCADA filename in
  let? ld := read_payloads filename initialise_data_MW ps in
  let? data := finalise_data_MW ld in
  Some (mkdf (duid_list ld) data, ld).

End Reader.

Definition heading : record :=
  ["I"; "DISPATCH"; "UNIT_SCADA"; "1"; "SETTLEMENTDATE"; "DUID"; "SCADAVALUE"].

(** A later layout of the same fields. *)
Definition heading' : record :=
  ["I"; "DISPATCH"; "UNIT_SCADA"; "1"; "SETTLEMENTDATE"; "SCADAVALUE"; "DUID"].

Definition archive : list payload :=
  [("PUBLIC_DISPATCHSCADA_202407250005_0000000367567721.CSV",
    [["C"; "NEMP.WORLD"; "DISPATCHSCADA"; "AEMO"; "PUBLIC"];
     heading;
     ["D"; "DISPATCH"; "UNIT_SCADA"; "1"; "2024/07/25 00:05:00"; "BARCSF1"; "0.10"];
     ["D"; "DISPATCH"; "UNIT_SCADA"; "1"; "2024/07/25 00:05:00"; "ARWF1"; "0"];
     ["C"; "END OF REPORT"; "5"]]);
   ("PUBLIC_DISPATCHSCADA_202407250015_0000000367567799.CSV",
    [heading;
     ["D"; "DISPATCH"; "UNIT_SCADA"; "1"; "2024/07/25 00:15:00"; "ARWF1"; "12.5"];
     ["D"; "DISPATCH"; "UNIT_SCADA"; "1"; "2024/07/25 00:15:00"; "BARCSF1"; "-0.25"]])].

Example daily_archive_frame :
  option_map (fun r => (labels (fst r),
                        map (map this) (firstn 3 (values (fst r))),
                        length (values (fst r))))
    (load_nem_data_file decimal is_stamp "PUBLIC_DISPATCHSCADA_20240725.zip"
       archive)
  = Some (["BARCSF1"; "ARWF1"],
          [[1 # 10; 0 # 1]; [0 # 1; 0 # 1]; [-1 # 4; 25 # 2]]%Q, 288).
Proof. vm_compute. reflexivity. Qed.


(** *** Header records *)

Definition is_header (r : record) : bool :=
  match r with
  | tag :: _ => String.eqb tag "I"
  | [] => false
  end.

(** The load without its column positions, as a fresh [Blank()] has it. *)
Definition forget (ld : load) : load :=
  mkload None (duid_list ld) (data_MW ld).

(** An archive whose second payload lists the value before the channel:
    the positions of the first payload are used for it, so the value is
    taken for the channel and the channel for an unreadable value. *)
Definition relaid_archive : list payload :=
  [("PUBLIC_DISPATCHSCADA_202407250005_0000000367567721.CSV",
    [heading;
     ["D"; "DISPATCH"; "UNIT_SCADA"; "1"; "2024/07/25 00:05:00"; "BARCSF1"; "0.10"]]);
   ("PUBLIC_DISPATCHSCADA_202407250010_0000000367567755.CSV",
    [heading';
     ["D"; "DISPATCH"; "UNIT_SCADA"; "1"; "2024/07/25 00:10:00"; "0.20"; "BARCSF1"]])].

Example relaid_archive_frame :
  option_map (fun r => (labels (fst r),
                        map (map this) (firstn 2 (values (fst r))),
                        cols (snd r)))
    (load_nem_data_file decimal is_stamp "PUBLIC_DISPATCHSCADA_20240725.zip"
       relaid_archive)
  = Some (["BARCSF1"; "0.20"], [[1 # 10; 0 # 1]; [0 # 1; 0 # 1]]%Q,
          Some (mkcolumns 4 5 6)).
Proof. vm_compute. reflexivity. Qed.

Section HeaderFacts.

Variable float : string -> option Qc.
Variable strptime : string -> bool.

Lemma is_header_tag r :
  is_header r = true <-> nth_error r 0 = Some "I".
Proof.
  destruct r as [|tag r]; cbn; [split; discriminate|].
  rewrite String.eqb_eq. split; [now intros -> | now intros [= ->]].
Qed.

Lemma parse_record_header_fresh ld interval_MW r :
  cols ld = None -> is_header r = true ->
  parse_record float strptime ld interval_MW r
  = (let? t := index_of "SETTLEMENTDATE" r in
     let? d := index_of "DUID" r in
     let? m := index_of "SCADAVALUE" r in
     Some (mkload (Some (mkcolumns t d m)) (duid_list ld) (data_MW ld),
           interval_MW)).
Proof.
  intros Hc Hh. apply is_header_tag in Hh. unfold parse_record.
  rewrite Hh, Hc. reflexivity.
Qed.

Lemma parse_record_header_kept ld k interval_MW r :
  cols ld = Some k -> is_header r = true ->
  parse_record float strptime ld interval_MW r = Some (ld, interval_MW).
Proof.
  intros Hc Hh. apply is_header_tag in Hh. unfold parse_record.
  rewrite Hh, Hc. reflexivity.
Qed.

Lemma locate_cols ld interval_MW duid :
  cols (snd (fst (locate ld interval_MW duid))) = cols ld.
Proof. unfold locate. now destruct (index_of duid (duid_list ld)). Qed.

(** Once set, the positions stay. *)
Lemma parse_record_cols ld interval_MW r ld' interval_MW' k :
  parse_record float strptime ld interval_MW r = Some (ld', interval_MW') ->
  cols ld = Some k -> cols ld' = Some k.
Proof.
  unfold parse_record. intros H Hc. rewrite Hc in H.
  destruct (nth_error r 0) as [tag|]; [|discriminate]. cbn [Py.obind] in H.
  destruct (String.eqb tag "C"); [now injection H as <- <-|].
  destruct (String.eqb tag "I"); [now injection H as <- <-|].
  destruct (String.eqb tag "D"); [|now injection H as <- <-].
  cbn [Py.obind] in H.
  destruct (nth_error r (MW_col k)) as [power|]; [|discriminate].
  cbn [Py.obind] in H.
  destruct (String.eqb power "0"); [now injection H as <- <-|].
  destruct (nth_error r 4) as [stamp|]; [|discriminate]. cbn [Py.obind] in H.
  destruct (strptime stamp); [|discriminate].
  destruct (nth_error r (duid_col k)) as [duid|]; [|discriminate].
  cbn [Py.obind] in H.
  pose proof (locate_cols ld interval_MW duid) as Hl.
  destruct (locate ld interval_MW duid) as [[duid_index ld1] im1].
  cbn [fst snd] in Hl.
  destruct (float power) as [v|].
  - destruct (Py.setitem im1 (Z.of_nat duid_index) v); [|discriminate].
    cbn [Py.obind] in H. injection H as <- <-. congruence.
  - injection H as <- <-. congruence.
Qed.

Lemma parse_records_cols rs :
  forall ld interval_MW ld' interval_MW' k,
    parse_records float strptime ld interval_MW rs = Some (ld', interval_MW') ->
    cols ld = Some k -> cols ld' = Some k.
Proof.
  induction rs as [|r rs IH]; intros ld im ld' im' k H Hc.
  - cbn in H. injection H as <- <-. exact Hc.
  - cbn [parse_records] in H.
    destruct (parse_record float strptime ld im r) as [[ld1 im1]|] eqn:E;
      [|discriminate].
    cbn [Py.obind] in H. eapply IH; eauto. eapply parse_record_cols; eauto.
Qed.

Lemma parse_records_skip_headers rs :
  forall ld interval_MW k,
    cols ld = Some k ->
    parse_records float strptime ld interval_MW rs
    = parse_records float strptime ld interval_MW
        (filter (fun r => negb (is_header r)) rs).
Proof.
  induction rs as [|r rs IH]; intros ld im k Hc; [reflexivity|].
  cbn [filter]. destruct (is_header r) eqn:Eh; cbn [negb].
  - cbn [parse_records]. rewrite (@parse_record_header_kept ld k im r Hc Eh).
    cbn [Py.obind]. now apply IH with k.
  - cbn [parse_records].
    destruct (parse_record float strptime ld im r) as [[ld1 im1]|] eqn:E;
      [|reflexivity].
    cbn [Py.obind]. apply IH with k. eapply parse_record_cols; eauto.
Qed.

Lemma parse_csvfile_cols ld interval rs ld' k :
  parse_csvfile float strptime ld interval rs = Some ld' ->
  cols ld = Some k -> cols ld' = Some k.
Proof.
  unfold parse_csvfile. intros H Hc.
  destruct (parse_records float strptime ld
              (repeat 0%Qc (length (duid_list ld))) rs)
    as [[ld1 im1]|] eqn:E; [|discriminate].
  cbn [Py.obind] in H.
  destruct (Py.setitem (data_MW ld1) interval (Some im1)); [|discriminate].
  cbn [Py.obind] in H. injection H as <-. cbn [cols].
  eapply parse_records_cols; eauto.
Qed.

Lemma read_payloads_cols filename ps :
  forall ld ld' k,
    read_payloads float strptime filename ld ps = Some ld' ->
    cols ld = Some k -> cols ld' = Some k.
Proof.
  induction ps as [|p ps IH]; intros ld ld' k H Hc.
  - cbn in H. now injection H as <-.
  - cbn [read_payloads] in H.
    destruct (read_interval_zip float strptime filename ld p) as [ld1|] eqn:E;
      [|discriminate].
    cbn [Py.obind] in H. eapply IH; eauto.
    unfold read_interval_zip in E.
    destruct (Feed.interval_of Feed.DispatchSCADA filename (fst p));
      [|discriminate].
    cbn [Py.obind] in E. eapply parse_csvfile_cols; eauto.
Qed.

End HeaderFacts.

(** C7, as amended. Header resolution happens once for an outer archive:
    while the load has no column positions, a header record sets them to
    the positions of the names SETTLEMENTDATE, DUID and SCADAVALUE in that
    record; once the load has them, every header record is passed over, so
    a payload is parsed as if it had no header records, and the positions
    stay the same to the end of the payload and of the archive. A data
    record takes its value from the position of SCADAVALUE and its channel
    from the position of DUID so resolved, and its stamp from the fixed
    position 4. *)
Theorem header_resolved_once (float : string -> option Qc)
    (strptime : string -> bool) :
  (forall ld interval_MW r,
     cols ld = None -> is_header r = true ->
     parse_record float strptime ld interval_MW r
     = (let? t := index_of "SETTLEMENTDATE" r in
        let? d := index_of "DUID" r in
        let? m := index_of "SCADAVALUE" r in
        Some (mkload (Some (mkcolumns t d m)) (duid_list ld) (data_MW ld),
              interval_MW))) /\
  (forall ld k interval_MW r,
     cols ld = Some k -> is_header r = true ->
     parse_record float strptime ld interval_MW r = Some (ld, interval_MW)) /\
  (forall ld k interval rs,
     cols ld = Some k ->
     parse_csvfile float strptime ld interval rs
     = parse_csvfile float strptime ld interval
         (filter (fun r => negb (is_header r)) rs) /\
     forall ld',
       parse_csvfile float strptime ld interval rs = Some ld' ->
       cols ld' = Some k) /\
  (forall filename ld k ps ld',
     cols ld = Some k ->
     read_payloads float strptime filename ld ps = Some ld' ->
     cols ld' = Some k) /\
  (forall ld k interval_MW r power stamp duid,
     cols ld = Some k -> nth_error r 0 = Some "D" ->
     nth_error r (MW_col k) = Some power -> power <> "0" ->
     nth_error r 4 = Some stamp -> strptime stamp = true ->
     nth_error r (duid_col k) = Some duid ->
     parse_record float strptime ld interval_MW r
     = (let '(duid_index, ld, interval_MW) := locate ld interval_MW duid in
        match float power with
        | Some v =>
            let? interval_MW :=
              Py.setitem interval_MW (Z.of_nat duid_index) v in
            Some (ld, interval_MW)
        | None => Some (ld, interval_MW)
        end)).
Proof.
  split; [|split; [|split; [|split]]].
  - intros. now apply parse_record_header_fresh.
  - intros. eapply parse_record_header_kept; eauto.
  - intros ld k interval rs Hc. split.
    + unfold parse_csvfile.
      now rewrite (@parse_records_skip_headers float strptime rs ld _ k Hc).
    + intros ld' H. eapply parse_csvfile_cols; eauto.
  - intros filename ld k ps ld' Hc H. eapply read_payloads_cols; eauto.
  - intros ld k im r power stamp duid Hc Htag Hp Hne Hs Ht Hd.
    unfold parse_record. rewrite Htag, Hc. cbn [Py.obind].
    change (String.eqb "D" "C") with false.
    change (String.eqb "D" "I") with false.
    change (String.eqb "D" "D") with true. cbv iota.
    rewrite Hp. cbn [Py.obind].
    replace (String.eqb power "0") with false
      by (symmetry; now apply String.eqb_neq).
    rewrite Hs. cbn [Py.obind]. rewrite Ht, Hd. reflexivity.
Qed.

Lemma header_resolved_once_witness :
  let ld := mkload (Some (mkcolumns 4 5 6)) ["BARCSF1"] (repeat None 288) in
  parse_record decimal is_stamp ld [0%Qc] heading' = Some (ld, [0%Qc]).
Proof.
  intros ld.
  destruct (header_resolved_once decimal is_stamp) as (_ & H & _).
  apply (H ld (mkcolumns 4 5 6) [0%Qc] heading'); reflexivity.
Defined.

(** C7, as stated, fails: a payload with a header record of its own is
    parsed with the positions the load already has, not with those of its
    own header. *)
Lemma header_not_re_resolved :
  ~ (forall (float : string -> option Qc) (strptime : string -> bool)
            (ld : load) (interval : Z) (header : record) (rs : list record),
       is_header header = true ->
       index_of "SETTLEMENTDATE" header <> None ->
       index_of "DUID" header <> None ->
       index_of "SCADAVALUE" header <> None ->
       parse_csvfile float strptime ld interval (header :: rs)
       = parse_csvfile float strptime (forget ld) interval (header :: rs)).
Proof.
  intros H.
  specialize (H decimal is_stamp
                (mkload (Some (mkcolumns 4 5 6)) ["BARCSF1"] (repeat None 2))
                1%Z heading'
                [["D"; "DISPATCH"; "UNIT_SCADA"; "1"; "2024/07/25 00:10:00";
                  "0.20"; "BARCSF1"]]
                eq_refl).
  assert (A : forall n : nat, Some n <> None) by discriminate.
  specialize (H (A _) (A _) (A _)).
  apply (f_equal (option_map duid_list)) in H.
  vm_compute in H. discriminate H.
Qed.

End Scada.

(** *** The weekly feed ([RooftopPV]) *)

Module Rooftop.

Import Repair Resample Tally Parse.
Local Open Scope nat_scope.

Definition REGION_IDS : list string := ["NSW1"; "QLD1"; "SA1"; "TAS1"; "VIC1"].

(** The attributes [load.interval_col], [load.regionid_col] and
    [load.power_col]. *)
Record columns : Type := mkcolumns {
  interval_col : nat;
  regionid_col : nat;
  power_col : nat
}.

(** [self.load]: [data_MW] is the array of [initialise_data_MW]. What
    [load.track] holds only decides what is printed. *)
Record load : Type := mkload {
  cols : option columns;
  data_MW : frame
}.

Definition initialise_data_MW : load :=
  mkload None
    (zeros (Z.to_nat (Feed.INTERVALS_PER_FILE Feed.RooftopPV))
           (length REGION_IDS)).

Section Reader.

Variable float : string -> option Qc.

(** The body of the loop of [parse_csvfile] over the records, with
    [load.interval = interval]. *)
Definition parse_record (ld : load) (interval : Z) (r : record)
  : option load :=
  let? tag := nth_error r 0 in
  if String.eqb tag "C" then Some ld
  else if String.eqb tag "I" then
    match cols ld with
    | Some _ => Some ld
    | None =>
        let? i := index_of "INTERVAL_DATETIME" r in
        let? g := index_of "REGIONID" r in
        let? p := index_of "POWER" r in
        Some (mkload (Some (mkcolumns i g p)) (data_MW ld))
    end
  else if String.eqb tag "D" then
    let? k := cols ld in
    let? o := nth_error r (regionid_col k) in
    match index_of o REGION_IDS with
    | None => Some ld
    | Some state_index =>
        let? power := nth_error r (power_col k) in
        if String.eqb power "0" then Some ld
        else if String.eqb power EmptyString then Some ld
        else
          let value :=
            match float power with
            | Some v => v
            | None => 0%Qc
            end in
          let? data := iloc_set_cell (data_MW ld) interval state_index value in
          Some (mkload (cols ld) data)
    end
  else Some ld.

Fixpoint parse_csvfile (ld : load) (interval : Z) (rs : list record)
  : option load :=
  match rs with
  | [] => Some ld
  | r :: rest =>
      let? ld := parse_record ld interval r in
      parse_csvfile ld interval rest
  end.

Definition read_interval_zip (filename : string) (ld : load) (p : payload)
  : option load :=
  let? interval := Feed.interval_of Feed.RooftopPV filename (fst p) in
  parse_csvfile ld interval (snd p).

Fixpoint read_payloads (filename : string) (ld : load) (ps : list payload)
  : option load :=
  match ps with
  | [] => Some ld
  | p :: rest =>
      let? ld := read_interval_zip filename ld p in
      read_payloads filename ld rest
  end.

(** [load_nem_data_file]; [finalise_data_MW] names the columns. *)
Definition load_nem_data_file (filename : string) (ps : list payload)
  : option (dataframe * load) :=
  let? _ := Feed.start_stamp Feed.RooftopPV filename in
  let? ld := read_payloads filename initialise_data_MW ps in
  Some (mkdf REGION_IDS (data_MW ld), ld).

End Reader.

Definition heading : record :=
  ["I"; "ROOFTOP"; "ACTUAL"; "2"; "INTERVAL_DATETIME"; "REGIONID"; "POWER";
   "QI"; "TYPE"; "LASTCHANGED"].

Definition archive : list payload :=
  [("PUBLIC_ROOFTOP_PV_ACTUAL_MEASUREMENT_20240118003000_0000000408687300.csv",
    [heading;
     ["D"; "ROOFTOP"; "ACTUAL"; "2"; "2024/01/18 00:00:00"; "NSW1"; "0";
      "1"; "MEASUREMENT"; "2024/01/18 00:19:17"];
     ["D"; "ROOFTOP"; "ACTUAL"; "2"; "2024/01/18 00:00:00"; "QLD1"; "3088.502";
      "1"; "MEASUREMENT"; "2024/01/18 00:19:17"];
     ["D"; "ROOFTOP"; "ACTUAL"; "2"; "2024/01/18 00:00:00"; "SA1"; EmptyString;
      "1"; "MEASUREMENT"; "2024/01/18 00:19:17"];
     ["D"; "ROOFTOP"; "ACTUAL"; "2"; "2024/01/18 00:00:00"; "TAS1"; "n/a";
      "1"; "MEASUREMENT"; "2024/01/18 00:19:17"];
     ["D"; "ROOFTOP"; "ACTUAL"; "2"; "2024/01/18 00:00:00"; "NT1"; "5";
      "1"; "MEASUREMENT"; "2024/01/18 00:19:17"]])].

Example weekly_archive_frame :
  option_map (fun r => (labels (fst r),
                        map (map this) (firstn 2 (values (fst r))),
                        length (values (fst r))))
    (load_nem_data_file decimal
       "PUBLIC_ROOFTOP_PV_ACTUAL_MEASUREMENT_20240118.zip" archive)
  = Some (REGION_IDS,
          [[0 # 1; 0 # 1; 0 # 1; 0 # 1; 0 # 1];
           [0 # 1; 1544251 # 500; 0 # 1; 0 # 1; 0 # 1]]%Q, 336).
Proof. vm_compute. reflexivity. Qed.

End Rooftop.

(** ** The main frame ([NEMWeb.build_df_five_minute]) *)

Module Grid.

Import Repair Resample Tally.
Local Open Scope nat_scope.

(** A frame of [ds.nem_MW_df_list] with
    [(df.axes[0][0] - start_timestamp).days], the whole days from the start
    of the window to its first row. *)
Definition period : Type := (Z * dataframe)%type.

(** [[
    all_sorted_ids = (list(set([duid for item in ds.nem_MW_df_list
                                     for duid in item.axes[1]]))
                      + self.rooftop_pv.REGION_IDS)
    all_sorted_ids.sort()
]] *)
Definition all_sorted_ids (frames : list period) : list string :=
  Listing.sort
    (nodup string_dec (concat (map (fun p => labels (snd p)) frames))
     ++ Rooftop.REGION_IDS).

(** [[
    for i, power in enumerate(df[duid]):
        if power != 0:
            all_data_MW[first_row + i, col] = power
            num_data_points += 1
]] *)
Fixpoint copy_powers (all_data_MW : frame) (first_row : Z) (col : nat)
    (powers : list Qc) (i : nat) (num_data_points : Z) : option (frame * Z) :=
  match powers with
  | [] => Some (all_data_MW, num_data_points)
  | power :: rest =>
      if nonzero power then
        let? all_data_MW :=
          iloc_set_cell all_data_MW (first_row + Z.of_nat i) col power in
        copy_powers all_data_MW first_row col rest (S i) (num_data_points + 1)
      else copy_powers all_data_MW first_row col rest (S i) num_data_points
  end.

(** The loop over [df.axes[1]]; the column labels of a frame are distinct,
    so [df[duid]] is the column at the position of [duid]. *)
Fixpoint copy_columns (ids : list string) (df : dataframe) (first_row : Z)
    (duids : list string) (j : nat) (all_data_MW : frame)
    (num_data_points : Z) : option (frame * Z) :=
  match duids with
  | [] => Some (all_data_MW, num_data_points)
  | duid :: rest =>
      let? col := index_of duid ids in
      let? (all_data_MW, num_data_points) :=
        copy_powers all_data_MW first_row col (column_at df j) 0
                    num_data_points in
      copy_columns ids df first_row rest (S j) all_data_MW num_data_points
  end.

Fixpoint copy_frames (ids : list string) (frames : list period)
    (all_data_MW : frame) (num_data_points : Z) : option (frame * Z) :=
  match frames with
  | [] => Some (all_data_MW, num_data_points)
  | (days, df) :: rest =>
      let first_row :=
        (days * Feed.INTERVALS_PER_FILE Feed.DispatchSCADA)%Z in
      let? (all_data_MW, num_data_points) :=
        copy_columns ids df first_row (labels df) 0 all_data_MW
                     num_data_points in
      copy_frames ids rest all_data_MW num_data_points
  end.

(** [build_df_five_minute] for a window of [window_days] days: the frame
    and [num_data_points]. *)
Definition build_df_five_minute (window_days : nat) (frames : list period)
  : option (dataframe * Z) :=
  let periods :=
    window_days * Z.to_nat (Feed.INTERVALS_PER_FILE Feed.DispatchSCADA) in
  let ids := all_sorted_ids frames in
  let all_data_MW := zeros periods (length ids) in
  let? (all_data_MW, num_data_points) :=
    copy_frames ids frames all_data_MW 0 in
  Some (mkdf ids all_data_MW, num_data_points).

End Grid.

(** ** Cells that no record has set *)

Module Dense.

Import Repair Resample Tally Parse.
Local Open Scope nat_scope.

(** *** Writes of single cells *)

Lemma py_index_of_nat_inv len c n :
  Py.py_index len (Z.of_nat c) = Some n -> n = c /\ c < len.
Proof.
  unfold Py.py_index.
  destruct ((0 <=? Z.of_nat c) && (Z.of_nat c <? Z.of_nat len))%Z eqn:E.
  - intros [= <-]. apply andb_true_iff in E. destruct E as [_ E].
    apply Z.ltb_lt in E. lia.
  - destruct ((- Z.of_nat len <=? Z.of_nat c) && (Z.of_nat c <? 0))%Z eqn:E2;
      [|discriminate].
    apply andb_true_iff in E2. destruct E2 as [_ E2].
    apply Z.ltb_lt in E2. lia.
Qed.

Lemma iloc_set_cell_get (m : frame) i c y m' :
  iloc_set_cell m i c y = Some m' ->
  exists r,
    Py.py_index (length m) i = Some r /\
    length m' = length m /\
    (forall nr nc, shape m nr nc -> shape m' nr nc) /\
    forall r' c',
      get m' r' c' = if (r' =? r) && (c' =? c) then y else get m r' c'.
Proof.
  unfold iloc_set_cell, Py.getitem, Py.setitem. intros H.
  destruct (Py.py_index (length m) i) as [r|] eqn:Er; [|discriminate].
  pose proof (Py.py_index_lt _ _ Er) as Hr.
  destruct (nth_error m r) as [values|] eqn:Ev; [|discriminate].
  cbn [Py.obind] in H.
  destruct (Py.py_index (length values) (Z.of_nat c)) as [n|] eqn:Ec;
    [|discriminate].
  apply py_index_of_nat_inv in Ec. destruct Ec as [-> Hc].
  cbn [Py.obind] in H. injection H as <-.
  exists r. split; [reflexivity|]. split; [apply Py.length_set_nth|]. split.
  - intros nr nc [Hl Hw]. split; [now rewrite Py.length_set_nth|].
    intros v Hin. apply In_nth_error in Hin. destruct Hin as [k Hk].
    rewrite nth_error_set_nth in Hk by lia.
    destruct (k =? r).
    + injection Hk as <-. rewrite Py.length_set_nth.
      apply Hw. eapply nth_error_In; eauto.
    + apply Hw. eapply nth_error_In; eauto.
  - intros r' c'. unfold get. rewrite nth_set_nth by lia.
    destruct (Nat.eqb_spec r' r) as [-> | Hne]; cbn [andb]; [|reflexivity].
    rewrite (nth_error_nth _ _ _ Ev). rewrite nth_set_nth by lia.
    now destruct (c' =? c).
Qed.

(** Every cell in which [m'] differs from [m] has a source. *)
Definition changed (Src : nat -> nat -> Qc -> Prop) (m m' : frame) : Prop :=
  forall r c, get m' r c <> get m r c -> Src r c (get m' r c).

Lemma changed_refl Src m : changed Src m m.
Proof. intros r c H. now contradiction H. Qed.

Lemma changed_trans Src m1 m2 m3 :
  changed Src m1 m2 -> changed Src m2 m3 -> changed Src m1 m3.
Proof.
  intros H12 H23 r c H.
  destruct (Qc_eq_dec (get m3 r c) (get m2 r c)) as [E|E].
  - rewrite E. apply H12. now rewrite <- E.
  - now apply H23.
Qed.

Lemma changed_weaken (Src Src' : nat -> nat -> Qc -> Prop) m m' :
  (forall r c v, Src r c v -> Src' r c v) ->
  changed Src m m' -> changed Src' m m'.
Proof. intros Hw H r c Hne. apply Hw. now apply H. Qed.

Lemma changed_zeros Src nr nc m r c :
  changed Src (zeros nr nc) m -> get m r c <> 0%Qc -> Src r c (get m r c).
Proof. intros H Hne. apply H. now rewrite get_zeros. Qed.

Lemma nonzero_true x : nonzero x = true <-> x <> 0%Qc.
Proof.
  unfold nonzero. rewrite negb_true_iff. apply Num.eqb_neq.
Qed.

(** *** The main frame *)

Section GridFacts.

Variable ids : list string.

Lemma copy_powers_changed first_row col powers :
  forall all_data_MW i n all' n',
    Grid.copy_powers all_data_MW first_row col powers i n = Some (all', n') ->
    length all' = length all_data_MW /\
    (forall nr nc, shape all_data_MW nr nc -> shape all' nr nc) /\
    changed (fun r c v =>
               c = col /\
               exists i', i <= i' /\
                 Py.py_index (length all_data_MW) (first_row + Z.of_nat i')
                 = Some r /\
                 nth_error powers (i' - i) = Some v /\ v <> 0%Qc)
            all_data_MW all'.
Proof.
  induction powers as [|power rest IH]; intros m i n m' n' H.
  - cbn in H. injection H as <- <-.
    split; [reflexivity|]. split; [auto | apply changed_refl].
  - cbn [Grid.copy_powers] in H. destruct (nonzero power) eqn:Enz.
    + destruct (iloc_set_cell m (first_row + Z.of_nat i) col power)
        as [m1|] eqn:E1; [|discriminate].
      cbn [Py.obind] in H. apply IH in H. destruct H as (L2 & S2 & C2).
      apply iloc_set_cell_get in E1.
      destruct E1 as (r0 & Er & L1 & S1 & G1).
      split; [congruence|]. split; [auto|].
      eapply changed_trans.
      * intros r c Hne. rewrite G1 in Hne |- *.
        destruct ((r =? r0) && (c =? col)) eqn:Eb; [|now contradiction Hne].
        apply andb_true_iff in Eb. destruct Eb as [Eb1 Eb2].
        apply Nat.eqb_eq in Eb1, Eb2. subst r c. split; [reflexivity|].
        exists i. rewrite Nat.sub_diag. cbn [nth_error].
        repeat split; auto. now apply nonzero_true.
      * eapply changed_weaken; [|exact C2].
        intros r c v (Hc & i' & Hi & Hp & Hn & Hv). split; [exact Hc|].
        exists i'. rewrite L1 in Hp. repeat split; auto; try lia.
        replace (i' - i) with (S (i' - S i)) by lia. exact Hn.
    + apply IH in H. destruct H as (L2 & S2 & C2).
      split; [exact L2|]. split; [auto|].
      eapply changed_weaken; [|exact C2].
      intros r c v (Hc & i' & Hi & Hp & Hn & Hv). split; [exact Hc|].
      exists i'. repeat split; auto; try lia.
      replace (i' - i) with (S (i' - S i)) by lia. exact Hn.
Qed.


(** A cell of the main frame that a frame of the list has set: the source
    is a value other than zero, at row [i] of the column [duid] of a
    frame. *)
Definition copied (frames : list Grid.period) (periods : nat)
    (r c : nat) (v : Qc) : Prop :=
  exists days df j duid i,
    In (days, df) frames /\
    nth_error (labels df) j = Some duid /\
    index_of duid ids = Some c /\
    Py.py_index periods
      (days * Feed.INTERVALS_PER_FILE Feed.DispatchSCADA + Z.of_nat i)
    = Some r /\
    nth_error (column_at df j) i = Some v /\ v <> 0%Qc.

Lemma copy_columns_changed df first_row duids :
  forall j all_data_MW n all' n',
    Grid.copy_columns ids df first_row duids j all_data_MW n
    = Some (all', n') ->
    length all' = length all_data_MW /\
    (forall nr nc, shape all_data_MW nr nc -> shape all' nr nc) /\
    changed (fun r c v =>
               exists j' duid i,
                 j <= j' /\ nth_error duids (j' - j) = Some duid /\
                 index_of duid ids = Some c /\
                 Py.py_index (length all_data_MW) (first_row + Z.of_nat i)
                 = Some r /\
                 nth_error (column_at df j') i = Some v /\ v <> 0%Qc)
            all_data_MW all'.
Proof.
  induction duids as [|duid rest IH]; intros j m n m' n' H.
  - cbn in H. injection H as <- <-.
    split; [reflexivity|]. split; [auto | apply changed_refl].
  - cbn [Grid.copy_columns] in H.
    destruct (index_of duid ids) as [col|] eqn:Ecol; [|discriminate].
    cbn [Py.obind] in H.
    destruct (Grid.copy_powers m first_row col (column_at df j) 0 n)
      as [[m1 n1]|] eqn:E1; [|discriminate].
    cbn [Py.obind] in H. apply IH in H. destruct H as (L2 & S2 & C2).
    apply copy_powers_changed in E1. destruct E1 as (L1 & S1 & C1).
    split; [congruence|]. split; [auto|].
    eapply changed_trans.
    + eapply changed_weaken; [|exact C1].
      intros r c v (Hc & i' & Hi & Hp & Hn & Hv). subst c.
      exists j, duid, i'. rewrite Nat.sub_diag, Nat.sub_0_r in *.
      cbn [nth_error]. repeat split; auto.
    + eapply changed_weaken; [|exact C2].
      intros r c v (j' & d & i & Hj & Hd & Hc & Hp & Hn & Hv).
      exists j', d, i. rewrite L1 in Hp. repeat split; auto; try lia.
      replace (j' - j) with (S (j' - S j)) by lia. exact Hd.
Qed.

Lemma copy_frames_changed frames :
  forall all_data_MW n all' n',
    Grid.copy_frames ids frames all_data_MW n = Some (all', n') ->
    length all' = length all_data_MW /\
    (forall nr nc, shape all_data_MW nr nc -> shape all' nr nc) /\
    changed (copied frames (length all_data_MW)) all_data_MW all'.
Proof.
  induction frames as [|[days df] rest IH]; intros m n m' n' H.
  - cbn in H. injection H as <- <-.
    split; [reflexivity|]. split; [auto | apply changed_refl].
  - cbn [Grid.copy_frames] in H. cbv zeta in H.
    destruct (Grid.copy_columns ids df
                (days * Feed.INTERVALS_PER_FILE Feed.DispatchSCADA)
                (labels df) 0 m n) as [[m1 n1]|] eqn:E1; [|discriminate].
    cbn [Py.obind] in H. apply IH in H. destruct H as (L2 & S2 & C2).
    apply copy_columns_changed in E1. destruct E1 as (L1 & S1 & C1).
    split; [congruence|]. split; [auto|].
    eapply changed_trans.
    + eapply changed_weaken; [|exact C1].
      intros r c v (j' & d & i & Hj & Hd & Hc & Hp & Hn & Hv).
      rewrite Nat.sub_0_r in Hd.
      exists days, df, j', d, i. repeat split; auto. now left.
    + eapply changed_weaken; [|exact C2].
      intros r c v (days' & df' & j' & d & i & Hin & Hd & Hc & Hp & Hn & Hv).
      exists days', df', j', d, i. rewrite L1 in Hp.
      repeat split; auto. now right.
Qed.

End GridFacts.

(** The main frame has a row for every five minutes of the window and a
    column for every id, and a cell that is not zero was copied from a
    frame of the list. *)
Lemma build_df_five_minute_dense window_days frames df n :
  Grid.build_df_five_minute window_days frames = Some (df, n) ->
  let periods := window_days * 288 in
  shape (values df) periods (length (labels df)) /\
  forall r c,
    get (values df) r c <> 0%Qc ->
    copied (labels df) frames periods r c (get (values df) r c).
Proof.
  unfold Grid.build_df_five_minute. intros H. cbv zeta in H.
  change (Z.to_nat (Feed.INTERVALS_PER_FILE Feed.DispatchSCADA)) with 288 in H.
  destruct (Grid.copy_frames (Grid.all_sorted_ids frames) frames
              (zeros (window_days * 288)
                     (length (Grid.all_sorted_ids frames))) 0)
    as [[m n1]|] eqn:E; [|discriminate].
  cbn [Py.obind] in H. injection H as <- <-. cbn [values labels].
  apply copy_frames_changed in E. destruct E as (L & S & C).
  split.
  - apply S, shape_zeros.
  - intros r c Hne. unfold zeros in C at 1. rewrite repeat_length in C.
    eapply changed_zeros; eauto.
Qed.

Lemma index_of_Some x l i : index_of x l = Some i -> nth_error l i = Some x.
Proof.
  revert i. induction l as [|h t IH]; intros i H; [discriminate|].
  cbn [index_of] in H. destruct (String.eqb_spec h x) as [-> | Hne].
  - now injection H as <-.
  - destruct (index_of x t) as [n|]; [|discriminate].
    cbn in H. injection H as <-. cbn. now apply IH.
Qed.

(** *** The weekly feed *)

(** A cell of the weekly frame that a data record has set: the record of
    a payload of the archive whose interval is the row, whose region is the
    column and whose power reads as the value. *)
Definition measured (float : string -> option Qc) (filename : string)
    (ps : list payload) (ld : Rooftop.load) (r c : nat) (v : Qc) : Prop :=
  exists k csv_filename rs rec interval region power,
    Rooftop.cols ld = Some k /\
    In (csv_filename, rs) ps /\ In rec rs /\
    nth_error rec 0 = Some "D" /\
    Feed.interval_of Feed.RooftopPV filename csv_filename = Some interval /\
    Py.py_index 336 interval = Some r /\
    nth_error rec (Rooftop.regionid_col k) = Some region /\
    nth_error Rooftop.REGION_IDS c = Some region /\
    nth_error rec (Rooftop.power_col k) = Some power /\
    float power = Some v.

Section RooftopFacts.

Variable float : string -> option Qc.

(** What a record can set, seen from the load [lf] at the end. *)
Definition record_sets (lf : Rooftop.load) (rows : nat) (interval : Z)
    (rec : record) (r c : nat) (v : Qc) : Prop :=
  v = 0%Qc \/
  exists k region power,
    Rooftop.cols lf = Some k /\
    nth_error rec 0 = Some "D" /\
    Py.py_index rows interval = Some r /\
    nth_error rec (Rooftop.regionid_col k) = Some region /\
    nth_error Rooftop.REGION_IDS c = Some region /\
    nth_error rec (Rooftop.power_col k) = Some power /\
    float power = Some v.

Lemma rooftop_record ld interval rec ld' :
  Rooftop.parse_record float ld interval rec = Some ld' ->
  (forall k, Rooftop.cols ld = Some k -> Rooftop.cols ld' = Some k) /\
  length (Rooftop.data_MW ld') = length (Rooftop.data_MW ld) /\
  (forall nr nc, shape (Rooftop.data_MW ld) nr nc ->
                 shape (Rooftop.data_MW ld') nr nc) /\
  forall lf,
    (forall k, Rooftop.cols ld' = Some k -> Rooftop.cols lf = Some k) ->
    changed (record_sets lf (length (Rooftop.data_MW ld)) interval rec)
            (Rooftop.data_MW ld) (Rooftop.data_MW ld').
Proof.
  unfold Rooftop.parse_record. intros H.
  assert (Same : Some ld = Some ld' ->
    (forall k, Rooftop.cols ld = Some k -> Rooftop.cols ld' = Some k) /\
    length (Rooftop.data_MW ld') = length (Rooftop.data_MW ld) /\
    (forall nr nc, shape (Rooftop.data_MW ld) nr nc ->
                   shape (Rooftop.data_MW ld') nr nc) /\
    forall lf,
      (forall k, Rooftop.cols ld' = Some k -> Rooftop.cols lf = Some k) ->
      changed (record_sets lf (length (Rooftop.data_MW ld)) interval rec)
              (Rooftop.data_MW ld) (Rooftop.data_MW ld')).
  { intros [= <-]. split; [auto|]. split; [reflexivity|]. split; [auto|].
    intros. apply changed_refl. }
  destruct (nth_error rec 0) as [tag|] eqn:Etag; [|discriminate].
  cbn [Py.obind] in H.
  destruct (String.eqb tag "C"); [now apply Same|].
  destruct (String.eqb tag "I").
  { destruct (Rooftop.cols ld) as [k|] eqn:Ek; [now apply Same|].
    destruct (index_of "INTERVAL_DATETIME" rec); [|discriminate].
    destruct (index_of "REGIONID" rec); [|discriminate].
    destruct (index_of "POWER" rec); [|discriminate].
    cbn [Py.obind] in H. injection H as <-. cbn [Rooftop.data_MW].
    split; [discriminate|]. split; [reflexivity|]. split; [auto|].
    intros. apply changed_refl. }
  destruct (String.eqb_spec tag "D") as [-> | _]; [|now apply Same].
  destruct (Rooftop.cols ld) as [k|] eqn:Ek; [|discriminate].
  cbn [Py.obind] in H.
  destruct (nth_error rec (Rooftop.regionid_col k)) as [o|] eqn:Eo;
    [|discriminate].
  cbn [Py.obind] in H.
  destruct (index_of o Rooftop.REGION_IDS) as [state_index|] eqn:Ei;
    [|now apply Same].
  destruct (nth_error rec (Rooftop.power_col k)) as [power|] eqn:Ep;
    [|discriminate].
  cbn [Py.obind] in H.
  destruct (String.eqb power "0"); [now apply Same|].
  destruct (String.eqb power EmptyString); [now apply Same|].
  cbv zeta in H.
  destruct (iloc_set_cell (Rooftop.data_MW ld) interval state_index
              match float power with Some v => v | None => 0%Qc end)
    as [data|] eqn:Ed; [|discriminate].
  cbn [Py.obind] in H. injection H as <-.
  cbn [Rooftop.cols Rooftop.data_MW].
  apply iloc_set_cell_get in Ed. destruct Ed as (r0 & Er & L & S & G).
  split; [auto|]. split; [exact L|]. split; [exact S|].
  intros lf Hlf r c Hne. rewrite G in Hne |- *.
  destruct ((r =? r0) && (c =? state_index)) eqn:Eb;
    [|now contradiction Hne].
  apply andb_true_iff in Eb. destruct Eb as [Eb1 Eb2].
  apply Nat.eqb_eq in Eb1, Eb2. subst r c.
  destruct (float power) as [v|] eqn:Ef; [|now left].
  right. exists k, o, power. repeat split; auto.
  now apply index_of_Some.
Qed.

Lemma rooftop_records interval rs :
  forall ld ld',
    Rooftop.parse_csvfile float ld interval rs = Some ld' ->
    (forall k, Rooftop.cols ld = Some k -> Rooftop.cols ld' = Some k) /\
    length (Rooftop.data_MW ld') = length (Rooftop.data_MW ld) /\
    (forall nr nc, shape (Rooftop.data_MW ld) nr nc ->
                   shape (Rooftop.data_MW ld') nr nc) /\
    forall lf,
      (forall k, Rooftop.cols ld' = Some k -> Rooftop.cols lf = Some k) ->
      changed (fun r c v =>
                 exists rec, In rec rs /\
                   record_sets lf (length (Rooftop.data_MW ld)) interval
                               rec r c v)
              (Rooftop.data_MW ld) (Rooftop.data_MW ld').
Proof.
  induction rs as [|rec rest IH]; intros ld ld' H.
  - cbn in H. injection H as <-.
    split; [auto|]. split; [auto|]. split; [auto|].
    intros. apply changed_refl.
  - cbn [Rooftop.parse_csvfile] in H.
    destruct (Rooftop.parse_record float ld interval rec) as [ld1|] eqn:E1;
      [|discriminate].
    cbn [Py.obind] in H. apply IH in H. destruct H as (M2 & L2 & S2 & C2).
    apply rooftop_record in E1. destruct E1 as (M1 & L1 & S1 & C1).
    split; [auto|]. split; [congruence|]. split; [auto|].
    intros lf Hlf. eapply changed_trans.
    + eapply changed_weaken; [|apply (C1 lf); auto].
      intros r c v Hs. exists rec. split; [now left | exact Hs].
    + eapply changed_weaken; [|apply (C2 lf); auto].
      intros r c v (rec' & Hin & Hs). exists rec'.
      rewrite L1 in Hs. split; [now right | exact Hs].
Qed.

Lemma rooftop_payloads filename ps :
  forall ld ld',
    Rooftop.read_payloads float filename ld ps = Some ld' ->
    length (Rooftop.data_MW ld) = 336 ->
    (forall k, Rooftop.cols ld = Some k -> Rooftop.cols ld' = Some k) /\
    length (Rooftop.data_MW ld') = 336 /\
    (forall nr nc, shape (Rooftop.data_MW ld) nr nc ->
                   shape (Rooftop.data_MW ld') nr nc) /\
    forall lf,
      (forall k, Rooftop.cols ld' = Some k -> Rooftop.cols lf = Some k) ->
      changed (fun r c v => v = 0%Qc \/ measured float filename ps lf r c v)
              (Rooftop.data_MW ld) (Rooftop.data_MW ld').
Proof.
  induction ps as [|[csv_filename rs] rest IH]; intros ld ld' H Hlen.
  - cbn in H. injection H as <-.
    split; [auto|]. split; [auto|]. split; [auto|].
    intros. apply changed_refl.
  - cbn [Rooftop.read_payloads] in H.
    destruct (Rooftop.read_interval_zip float filename ld (csv_filename, rs))
      as [ld1|] eqn:E1; [|discriminate].
    cbn [Py.obind] in H. unfold Rooftop.read_interval_zip in E1.
    cbn [fst snd] in E1.
    destruct (Feed.interval_of Feed.RooftopPV filename csv_filename)
      as [interval|] eqn:Ei; [|discriminate].
    cbn [Py.obind] in E1.
    apply rooftop_records in E1. destruct E1 as (M1 & L1 & S1 & C1).
    apply IH in H; [|congruence]. destruct H as (M2 & L2 & S2 & C2).
    split; [auto|]. split; [exact L2|]. split; [auto|].
    intros lf Hlf. eapply changed_trans.
    + eapply changed_weaken; [|apply (C1 lf); auto].
      intros r c v (rec & Hin & [Hz | Hs]); [now left|]. right.
      destruct Hs as (k & region & power & Hk & Ht & Hp & Hr & Hc & Hw & Hf).
      rewrite Hlen in Hp.
      exists k, csv_filename, rs, rec, interval, region, power.
      repeat split; auto. now left.
    + eapply changed_weaken; [|apply (C2 lf); auto].
      intros r c v [Hz | Hs]; [now left|]. right.
      destruct Hs as (k & csv' & rs' & rec & i & region & power & Hk & Hin
                      & Hrest).
      exists k, csv', rs', rec, i, region, power.
      split; [exact Hk|]. split; [now right | exact Hrest].
Qed.

(** The weekly frame has 336 rows and the five regions, and a cell that
    is not zero was set by a data record. *)
Lemma rooftop_dense filename ps df ld :
  Rooftop.load_nem_data_file float filename ps = Some (df, ld) ->
  labels df = Rooftop.REGION_IDS /\
  shape (values df) 336 5 /\
  forall r c,
    get (values df) r c <> 0%Qc ->
    measured float filename ps ld r c (get (values df) r c).
Proof.
  unfold Rooftop.load_nem_data_file. intros H.
  destruct (Feed.start_stamp Feed.RooftopPV filename); [|discriminate].
  cbn [Py.obind] in H.
  destruct (Rooftop.read_payloads float filename Rooftop.initialise_data_MW ps)
    as [ld1|] eqn:E; [|discriminate].
  cbn [Py.obind] in H. injection H as <- <-. cbn [labels values].
  apply rooftop_payloads in E; [|apply repeat_length].
  destruct E as (M & L & S & C).
  split; [reflexivity|]. split.
  - apply S. apply (shape_zeros 336 5).
  - intros r c Hne.
    destruct (@changed_zeros _ 336 5 (Rooftop.data_MW ld1) r c
                (C ld1 (fun k H => H)) Hne) as [Hz | Hs];
      [contradiction | exact Hs].
Qed.

End RooftopFacts.

(** *** The daily feed *)

(** A cell of the daily frame that a data record has set: the record of a
    payload of the archive whose interval is the row, whose channel is the
    column and whose value reads as the cell. *)
Definition reported (float : string -> option Qc) (filename : string)
    (ps : list payload) (ld : Scada.load) (r c : nat) (v : Qc) : Prop :=
  exists k csv_filename rs rec interval duid power,
    Scada.cols ld = Some k /\
    In (csv_filename, rs) ps /\ In rec rs /\
    nth_error rec 0 = Some "D" /\
    Feed.interval_of Feed.DispatchSCADA filename csv_filename = Some interval /\
    Py.py_index 288 interval = Some r /\
    nth_error rec (Scada.duid_col k) = Some duid /\
    nth_error (Scada.duid_list ld) c = Some duid /\
    nth_error rec (Scada.MW_col k) = Some power /\
    float power = Some v.

(** Every entry in which the row [im'] differs from [im] has a source. *)
Definition changed1 (Src : nat -> Qc -> Prop) (im im' : row) : Prop :=
  forall c, nth c im' 0%Qc <> nth c im 0%Qc -> Src c (nth c im' 0%Qc).

Lemma changed1_refl Src im : changed1 Src im im.
Proof. intros c H. now contradiction H. Qed.

Lemma changed1_trans Src a b c :
  changed1 Src a b -> changed1 Src b c -> changed1 Src a c.
Proof.
  intros H12 H23 i H.
  destruct (Qc_eq_dec (nth i c 0%Qc) (nth i b 0%Qc)) as [E|E].
  - rewrite E. apply H12. now rewrite <- E.
  - now apply H23.
Qed.

Lemma changed1_weaken (Src Src' : nat -> Qc -> Prop) im im' :
  (forall c v, Src c v -> Src' c v) ->
  changed1 Src im im' -> changed1 Src' im im'.
Proof. intros Hw H c Hne. apply Hw. now apply H. Qed.

Lemma nth_app_zero (im : row) c : nth c (im ++ [0%Qc]) 0%Qc = nth c im 0%Qc.
Proof.
  destruct (Nat.lt_ge_cases c (length im)) as [H|H].
  - now apply app_nth1.
  - rewrite app_nth2 by exact H. rewrite (nth_overflow im) by exact H.
    destruct (c - length im) as [|[|n]]; reflexivity.
Qed.

Lemma nth_error_set_nth_any {A} (l : list A) n v m :
  n < length l ->
  nth_error (Py.set_nth l n v) m = if m =? n then Some v else nth_error l m.
Proof.
  intros H. destruct (Nat.eqb_spec m n) as [-> | Hne].
  - now apply Py.nth_error_set_nth_eq.
  - apply Py.nth_error_set_nth_ne. congruence.
Qed.

Lemma setitem_nat {A} (l : list A) i v l' :
  Py.setitem l (Z.of_nat i) v = Some l' ->
  i < length l /\ l' = Py.set_nth l i v.
Proof.
  unfold Py.setitem. intros H.
  destruct (Py.py_index (length l) (Z.of_nat i)) as [n|] eqn:E;
    [|discriminate].
  apply py_index_of_nat_inv in E. destruct E as [-> Hi].
  injection H as <-. auto.
Qed.

(** The load [lf] is [ld] or a later state of it: the positions are kept
    and channels are only added. *)
Definition grows (ld lf : Scada.load) : Prop :=
  (forall k, Scada.cols ld = Some k -> Scada.cols lf = Some k) /\
  exists ext, Scada.duid_list lf = Scada.duid_list ld ++ ext.

Lemma grows_refl ld : grows ld ld.
Proof. split; [auto|]. exists []. now rewrite app_nil_r. Qed.

Lemma grows_trans a b c : grows a b -> grows b c -> grows a c.
Proof.
  intros [K1 [e1 E1]] [K2 [e2 E2]]. split; [auto|].
  exists (e1 ++ e2). now rewrite E2, E1, app_assoc.
Qed.

Lemma grows_channel ld lf c duid :
  grows ld lf -> nth_error (Scada.duid_list ld) c = Some duid ->
  nth_error (Scada.duid_list lf) c = Some duid.
Proof.
  intros [_ [ext E]] H. rewrite E. rewrite nth_error_app1; [exact H|].
  apply nth_error_Some. congruence.
Qed.

Lemma grows_width ld lf :
  grows ld lf -> length (Scada.duid_list ld) <= length (Scada.duid_list lf).
Proof. intros [_ [ext E]]. rewrite E, length_app. lia. Qed.

Section ScadaFacts.

Variable float : string -> option Qc.
Variable strptime : string -> bool.

(** What a record can set in the row of its interval, seen from the load
    [lf] at the end. *)
Definition record_sets1 (lf : Scada.load) (rec : record) (c : nat) (v : Qc)
  : Prop :=
  exists k duid power,
    Scada.cols lf = Some k /\
    nth_error rec 0 = Some "D" /\
    nth_error rec (Scada.duid_col k) = Some duid /\
    nth_error (Scada.duid_list lf) c = Some duid /\
    nth_error rec (Scada.MW_col k) = Some power /\
    float power = Some v.

Lemma locate_spec ld interval_MW duid duid_index ld1 im1 :
  Scada.locate ld interval_MW duid = (duid_index, ld1, im1) ->
  length interval_MW = length (Scada.duid_list ld) ->
  grows ld ld1 /\ Scada.cols ld1 = Scada.cols ld /\
  Scada.data_MW ld1 = Scada.data_MW ld /\
  length im1 = length (Scada.duid_list ld1) /\
  nth_error (Scada.duid_list ld1) duid_index = Some duid /\
  forall c, nth c im1 0%Qc = nth c interval_MW 0%Qc.
Proof.
  unfold Scada.locate. intros H Hlen.
  destruct (index_of duid (Scada.duid_list ld)) as [i|] eqn:E.
  - injection H as <- <- <-.
    split; [apply grows_refl|]. repeat split; auto.
    now apply index_of_Some.
  - injection H as <- <- <-. cbn [Scada.cols Scada.duid_list Scada.data_MW].
    split; [split; [auto | now exists [duid]]|].
    split; [reflexivity|]. split; [reflexivity|].
    split; [rewrite !length_app; cbn [length]; lia|].
    split; [|apply nth_app_zero].
    rewrite nth_error_app2 by lia. now rewrite Nat.sub_diag.
Qed.

Lemma scada_record ld interval_MW rec ld' im' :
  Scada.parse_record float strptime ld interval_MW rec = Some (ld', im') ->
  length interval_MW = length (Scada.duid_list ld) ->
  grows ld ld' /\ Scada.data_MW ld' = Scada.data_MW ld /\
  length im' = length (Scada.duid_list ld') /\
  forall lf, grows ld' lf -> changed1 (record_sets1 lf rec) interval_MW im'.
Proof.
  unfold Scada.parse_record. intros H Hlen.
  assert (Same : Some (ld, interval_MW) = Some (ld', im') ->
    grows ld ld' /\ Scada.data_MW ld' = Scada.data_MW ld /\
    length im' = length (Scada.duid_list ld') /\
    forall lf, grows ld' lf -> changed1 (record_sets1 lf rec) interval_MW im').
  { intros [= <- <-]. split; [apply grows_refl|]. split; [reflexivity|].
    split; [exact Hlen|]. intros. apply changed1_refl. }
  destruct (nth_error rec 0) as [tag|] eqn:Etag; [|discriminate].
  cbn [Py.obind] in H.
  destruct (String.eqb tag "C"); [now apply Same|].
  destruct (String.eqb tag "I").
  { destruct (Scada.cols ld) as [k|] eqn:Ek; [now apply Same|].
    destruct (index_of "SETTLEMENTDATE" rec); [|discriminate].
    destruct (index_of "DUID" rec); [|discriminate].
    destruct (index_of "SCADAVALUE" rec); [|discriminate].
    cbn [Py.obind] in H. injection H as <- <-.
    cbn [Scada.data_MW Scada.duid_list].
    split; [split; [rewrite Ek; discriminate | exists []; cbn;
                    now rewrite app_nil_r]|].
    split; [reflexivity|]. split; [exact Hlen|].
    intros. apply changed1_refl. }
  destruct (String.eqb_spec tag "D") as [-> | _]; [|now apply Same].
  destruct (Scada.cols ld) as [k|] eqn:Ek; [|discriminate].
  cbn [Py.obind] in H.
  destruct (nth_error rec (Scada.MW_col k)) as [power|] eqn:Ep;
    [|discriminate].
  cbn [Py.obind] in H.
  destruct (String.eqb power "0"); [now apply Same|].
  destruct (nth_error rec 4) as [stamp|]; [|discriminate].
  cbn [Py.obind] in H.
  destruct (strptime stamp); [|discriminate].
  destruct (nth_error rec (Scada.duid_col k)) as [duid|] eqn:Ed;
    [|discriminate].
  cbn [Py.obind] in H.
  destruct (Scada.locate ld interval_MW duid) as [[duid_index ld1] im1]
    eqn:El.
  apply locate_spec in El; [|exact Hlen].
  destruct El as (G1 & K1 & D1 & L1 & N1 & V1).
  destruct (float power) as [v|] eqn:Ef.
  - destruct (Py.setitem im1 (Z.of_nat duid_index) v) as [im2|] eqn:Es;
      [|discriminate].
    cbn [Py.obind] in H. injection H as <- <-.
    apply setitem_nat in Es. destruct Es as [Hi ->].
    split; [exact G1|]. split; [exact D1|].
    split; [now rewrite Py.length_set_nth|].
    intros lf Hlf c Hne. rewrite nth_set_nth in Hne |- * by exact Hi.
    destruct (Nat.eqb_spec c duid_index) as [Ec | Hc].
    + rewrite Ec. exists k, duid, power. repeat split; auto.
      * apply Hlf. congruence.
      * eapply grows_channel; eauto.
    + contradiction Hne. apply V1.
  - injection H as <- <-.
    split; [exact G1|]. split; [exact D1|]. split; [exact L1|].
    intros lf Hlf c Hne. contradiction Hne. apply V1.
Qed.

Lemma scada_records rs :
  forall ld interval_MW ld' im',
    Scada.parse_records float strptime ld interval_MW rs = Some (ld', im') ->
    length interval_MW = length (Scada.duid_list ld) ->
    grows ld ld' /\ Scada.data_MW ld' = Scada.data_MW ld /\
    length im' = length (Scada.duid_list ld') /\
    forall lf,
      grows ld' lf ->
      changed1 (fun c v => exists rec, In rec rs /\ record_sets1 lf rec c v)
               interval_MW im'.
Proof.
  induction rs as [|rec rest IH]; intros ld im ld' im' H Hlen.
  - cbn in H. injection H as <- <-. split; [apply grows_refl|].
    split; [reflexivity|]. split; [exact Hlen|].
    intros. apply changed1_refl.
  - cbn [Scada.parse_records] in H.
    destruct (Scada.parse_record float strptime ld im rec) as [[ld1 im1]|]
      eqn:E1; [|discriminate].
    cbn [Py.obind] in H.
    apply scada_record in E1; [|exact Hlen].
    destruct E1 as (G1 & D1 & L1 & C1).
    apply IH in H; [|exact L1]. destruct H as (G2 & D2 & L2 & C2).
    split; [eapply grows_trans; eauto|]. split; [congruence|].
    split; [exact L2|].
    intros lf Hlf. eapply changed1_trans.
    + eapply changed1_weaken; [|apply (C1 lf); eapply grows_trans; eauto].
      intros c v Hs. exists rec. split; [now left | exact Hs].
    + eapply changed1_weaken; [|apply (C2 lf); auto].
      intros c v (rec' & Hin & Hs). exists rec'. split; [now right | exact Hs].
Qed.

(** The rows of [data_MW] that are filled hold no more entries than the
    load at the end has channels, and their entries other than zero have a
    source. *)
Definition filled (Src : nat -> nat -> Qc -> Prop) (lf : Scada.load)
    (data : list (option row)) : Prop :=
  forall r d,
    nth_error data r = Some (Some d) ->
    length d <= length (Scada.duid_list lf) /\
    forall c, nth c d 0%Qc <> 0%Qc -> Src r c (nth c d 0%Qc).

Lemma filled_weaken (Src Src' : nat -> nat -> Qc -> Prop) lf data :
  (forall r c v, Src r c v -> Src' r c v) ->
  filled Src lf data -> filled Src' lf data.
Proof.
  intros Hw H r d Hd. destruct (H r d Hd) as [Hl Hs]. split; auto.
Qed.

Lemma scada_payload ld interval rs ld' :
  Scada.parse_csvfile float strptime ld interval rs = Some ld' ->
  grows ld ld' /\
  length (Scada.data_MW ld') = length (Scada.data_MW ld) /\
  forall lf Src,
    grows ld' lf ->
    filled Src lf (Scada.data_MW ld) ->
    filled (fun r c v =>
              Src r c v \/
              (Py.py_index (length (Scada.data_MW ld)) interval = Some r /\
               exists rec, In rec rs /\ record_sets1 lf rec c v))
           lf (Scada.data_MW ld').
Proof.
  unfold Scada.parse_csvfile. intros H.
  destruct (Scada.parse_records float strptime ld
              (repeat 0%Qc (length (Scada.duid_list ld))) rs)
    as [[ld1 im1]|] eqn:E; [|discriminate].
  cbn [Py.obind] in H.
  apply scada_records in E; [|apply repeat_length].
  destruct E as (G1 & D1 & L1 & C1).
  unfold Py.setitem in H. rewrite D1 in H.
  destruct (Py.py_index (length (Scada.data_MW ld)) interval) as [r0|] eqn:Er;
    [|discriminate].
  cbn [Py.obind] in H. injection H as <-.
  cbn [Scada.cols Scada.duid_list Scada.data_MW].
  pose proof (Py.py_index_lt _ _ Er) as Hr0.
  split; [exact G1|]. split; [apply Py.length_set_nth|].
  intros lf Src Hlf Hfill r d Hd.
  rewrite nth_error_set_nth_any in Hd by exact Hr0.
  destruct (Nat.eqb_spec r r0) as [-> | Hne].
  - injection Hd as <-. split.
    + rewrite L1. now apply grows_width.
    + intros c Hc. right. split; [reflexivity|].
      apply (C1 lf Hlf c). now rewrite nth_repeat_0.
  - destruct (Hfill r d Hd) as [Hl Hs]. split; [exact Hl|].
    intros c Hc. left. now apply Hs.
Qed.

Lemma scada_payloads filename ps :
  forall ld ld',
    Scada.read_payloads float strptime filename ld ps = Some ld' ->
    length (Scada.data_MW ld) = 288 ->
    grows ld ld' /\
    length (Scada.data_MW ld') = 288 /\
    forall lf Src,
      grows ld' lf ->
      filled Src lf (Scada.data_MW ld) ->
      filled (fun r c v => Src r c v \/ reported float filename ps lf r c v)
             lf (Scada.data_MW ld').
Proof.
  induction ps as [|[csv_filename rs] rest IH]; intros ld ld' H Hlen.
  - cbn in H. injection H as <-. split; [apply grows_refl|].
    split; [exact Hlen|]. intros lf Src _ Hf.
    eapply filled_weaken; [|exact Hf]. auto.
  - cbn [Scada.read_payloads] in H.
    destruct (Scada.read_interval_zip float strptime filename ld
                (csv_filename, rs)) as [ld1|] eqn:E1; [|discriminate].
    cbn [Py.obind] in H. unfold Scada.read_interval_zip in E1.
    cbn [fst snd] in E1.
    destruct (Feed.interval_of Feed.DispatchSCADA filename csv_filename)
      as [interval|] eqn:Ei; [|discriminate].
    cbn [Py.obind] in E1.
    apply scada_payload in E1. destruct E1 as (G1 & L1 & F1).
    apply IH in H; [|congruence]. destruct H as (G2 & L2 & F2).
    split; [eapply grows_trans; eauto|]. split; [exact L2|].
    intros lf Src Hlf Hf.
    assert (Hlf1 : grows ld1 lf) by (eapply grows_trans; eauto).
    pose proof (F1 lf Src Hlf1 Hf) as Hf1.
    pose proof (F2 lf _ Hlf Hf1) as Hf2.
    eapply filled_weaken; [|exact Hf2].
    intros r c v [[Hs | [Hp (rec & Hin & Hrec)]] | Hrep].
    + now left.
    + right. rewrite Hlen in Hp.
      destruct Hrec as (k & duid & power & Hk & Ht & Hd & Hc & Hw & Hv).
      exists k, csv_filename, rs, rec, interval, duid, power.
      repeat split; auto. now left.
    + right.
      destruct Hrep as (k & csv' & rs' & rec & i & duid & power & Hk & Hin
                        & Hrest).
      exists k, csv', rs', rec, i, duid, power.
      split; [exact Hk|]. split; [now right | exact Hrest].
Qed.

(** [finalise_data_MW] *)

Lemma copy_powers_changed1 row_data :
  forall col new_row row',
    Scada.copy_powers col row_data new_row = Some row' ->
    length row' = length new_row /\
    changed1 (fun c v => col <= c /\ nth_error row_data (c - col) = Some v)
             new_row row'.
Proof.
  induction row_data as [|power rest IH]; intros col new_row row' H.
  - cbn in H. injection H as <-. split; [reflexivity | apply changed1_refl].
  - cbn [Scada.copy_powers] in H.
    destruct (Py.setitem new_row (Z.of_nat col) power) as [row1|] eqn:E1;
      [|discriminate].
    cbn [Py.obind] in H. apply IH in H. destruct H as [L2 C2].
    apply setitem_nat in E1. destruct E1 as [Hc ->].
    rewrite Py.length_set_nth in L2. split; [exact L2|].
    apply changed1_trans with (b := Py.set_nth new_row col power).
    + intros c Hne. rewrite nth_set_nth in Hne |- * by exact Hc.
      destruct (Nat.eqb_spec c col) as [Ec | Hn]; [|now contradiction Hne].
      rewrite Ec, Nat.sub_diag. split; [lia | reflexivity].
    + eapply changed1_weaken; [|exact C2].
      intros c v [Hle Hn]. split; [lia|].
      replace (c - col) with (S (c - S col)) by lia. exact Hn.
Qed.

Lemma copy_rows_changed data :
  forall r0 new_data_MW m,
    Scada.copy_rows r0 data new_data_MW = Some m ->
    (forall nr nc, shape new_data_MW nr nc -> shape m nr nc) /\
    changed (fun r c v =>
               r0 <= r /\
               exists d, nth_error data (r - r0) = Some (Some d) /\
                         nth_error d c = Some v)
            new_data_MW m.
Proof.
  induction data as [|[row_data|] rest IH]; intros r0 new m H.
  - cbn in H. injection H as <-. split; [auto | apply changed_refl].
  - cbn [Scada.copy_rows] in H. unfold Py.getitem, Py.setitem in H.
    destruct (Py.py_index (length new) (Z.of_nat r0)) as [n|] eqn:En;
      [|discriminate].
    apply py_index_of_nat_inv in En. destruct En as [-> Hr0].
    destruct (nth_error new r0) as [new_row|] eqn:Erow; [|discriminate].
    cbn [Py.obind] in H.
    destruct (Scada.copy_powers 0 row_data new_row) as [row'|] eqn:Ec;
      [|discriminate].
    cbn [Py.obind] in H. apply IH in H. destruct H as [S2 C2].
    apply copy_powers_changed1 in Ec. destruct Ec as [Lc Cc].
    split.
    + intros nr nc Hs. apply S2. destruct Hs as [Hl Hw].
      split; [now rewrite Py.length_set_nth|].
      intros v Hin. apply In_nth_error in Hin. destruct Hin as [k Hk].
      rewrite nth_error_set_nth in Hk by lia.
      destruct (k =? r0).
      * injection Hk as <-. rewrite Lc.
        apply Hw. eapply nth_error_In; eauto.
      * apply Hw. eapply nth_error_In; eauto.
    + apply changed_trans with (m2 := Py.set_nth new r0 row').
      * intros r c Hne. unfold get in Hne |- *.
        rewrite nth_set_nth in Hne |- * by exact Hr0.
        destruct (Nat.eqb_spec r r0) as [Er | Hn]; [|now contradiction Hne].
        rewrite Er in Hne |- *.
        rewrite (nth_error_nth _ _ _ Erow) in Hne.
        destruct (Cc c Hne) as [_ Hv]. rewrite Nat.sub_0_r in Hv.
        split; [lia|]. exists row_data. rewrite Nat.sub_diag.
        split; [reflexivity | exact Hv].
      * eapply changed_weaken; [|exact C2].
        intros r c v (Hle & d & Hd & Hv). split; [lia|]. exists d.
        replace (r - r0) with (S (r - S r0)) by lia. split; assumption.
  - cbn [Scada.copy_rows] in H. apply IH in H. destruct H as [S2 C2].
    split; [exact S2|].
    eapply changed_weaken; [|exact C2].
    intros r c v (Hle & d & Hd & Hv). split; [lia|]. exists d.
    replace (r - r0) with (S (r - S r0)) by lia. split; assumption.
Qed.

(** The daily frame has 288 rows and a column for every channel of the
    archive, and a cell that is not zero was set by a data record. *)
Lemma scada_dense filename ps df ld :
  Scada.load_nem_data_file float strptime filename ps = Some (df, ld) ->
  labels df = Scada.duid_list ld /\
  shape (values df) 288 (length (labels df)) /\
  forall r c,
    get (values df) r c <> 0%Qc ->
    reported float filename ps ld r c (get (values df) r c).
Proof.
  unfold Scada.load_nem_data_file. intros H.
  destruct (Feed.start_stamp Feed.DispatchSCADA filename); [|discriminate].
  cbn [Py.obind] in H.
  destruct (Scada.read_payloads float strptime filename
              Scada.initialise_data_MW ps) as [ld1|] eqn:E; [|discriminate].
  cbn [Py.obind] in H.
  destruct (Scada.finalise_data_MW ld1) as [m|] eqn:Ef; [|discriminate].
  cbn [Py.obind] in H. injection H as <- <-. cbn [labels values].
  apply scada_payloads in E; [|apply repeat_length].
  destruct E as (G & L & F).
  unfold Scada.finalise_data_MW in Ef.
  change (Z.to_nat (Feed.INTERVALS_PER_FILE Feed.DispatchSCADA)) with 288 in Ef.
  apply copy_rows_changed in Ef. destruct Ef as [S C].
  split; [reflexivity|]. split; [apply S, shape_zeros|].
  intros r c Hne.
  destruct (@changed_zeros _ _ _ _ r c C Hne) as (_ & d & Hd & Hv).
  rewrite Nat.sub_0_r in Hd.
  assert (Hfill : filled (fun _ _ _ => False) ld1
                    (Scada.data_MW Scada.initialise_data_MW)).
  { intros r' d' Hd'. cbn [Scada.data_MW Scada.initialise_data_MW] in Hd'.
    apply nth_error_In, repeat_spec in Hd'. discriminate. }
  destruct (F ld1 _ (grows_refl ld1) Hfill r d Hd) as [_ Hs].
  rewrite <- (nth_error_nth _ _ 0%Qc Hv) in Hne |- *.
  destruct (Hs c Hne) as [[] | Hrep]. exact Hrep.
Qed.

End ScadaFacts.

(** C9. Dense fill. The frame of a daily archive has 288 rows and the
    frame of a weekly archive 336, whatever the payloads hold, and every
    cell of them that no data record has set is zero: a cell other than
    zero holds the value read from the power field of a data record of the
    payload whose interval is the row, for the channel or region of the
    column. Intervals without payload, channels that join later in the
    archive, and entries that are zero or do not read as a number thus
    leave zero. Likewise the main frame has 288 rows for every day of the
    window, and a cell of it other than zero was copied from a cell other
    than zero of a frame of the list, so every other cell is zero. *)
Theorem dense_fill (float : string -> option Qc) (strptime : string -> bool) :
  (forall filename ps df ld,
     Scada.load_nem_data_file float strptime filename ps = Some (df, ld) ->
     length (values df) = 288 /\
     forall r c,
       r < 288 -> c < length (labels df) ->
       exists v, cell (values df) r c = Some v /\
                 (v <> 0%Qc -> reported float filename ps ld r c v)) /\
  (forall filename ps df ld,
     Rooftop.load_nem_data_file float filename ps = Some (df, ld) ->
     length (values df) = 336 /\ labels df = Rooftop.REGION_IDS /\
     forall r c,
       r < 336 -> c < 5 ->
       exists v, cell (values df) r c = Some v /\
                 (v <> 0%Qc -> measured float filename ps ld r c v)) /\
  (forall window_days frames df n,
     Grid.build_df_five_minute window_days frames = Some (df, n) ->
     length (values df) = window_days * 288 /\
     forall r c,
       r < window_days * 288 -> c < length (labels df) ->
       exists v, cell (values df) r c = Some v /\
                 (v <> 0%Qc ->
                  copied (labels df) frames (window_days * 288) r c v)).
Proof.
  split; [|split].
  - intros filename ps df ld H. apply scada_dense in H.
    destruct H as (_ & S & Hs). split; [apply S|].
    intros r c Hr Hc. exists (get (values df) r c).
    split; [now apply (cell_get S) | apply Hs].
  - intros filename ps df ld H. apply rooftop_dense in H.
    destruct H as (Hl & S & Hs). split; [apply S|]. split; [exact Hl|].
    intros r c Hr Hc. exists (get (values df) r c).
    split; [now apply (cell_get S) | apply Hs].
  - intros window_days frames df n H. apply build_df_five_minute_dense in H.
    cbv zeta in H. destruct H as (S & Hs). split; [apply S|].
    intros r c Hr Hc. exists (get (values df) r c).
    split; [now apply (cell_get S) | apply Hs].
Qed.

Lemma dense_fill_witness :
  exists df ld,
    Scada.load_nem_data_file decimal is_stamp
      "PUBLIC_DISPATCHSCADA_20240725.zip" Scada.archive = Some (df, ld) /\
    length (values df) = 288.
Proof.
  assert (E : { p | Scada.load_nem_data_file decimal is_stamp
                      "PUBLIC_DISPATCHSCADA_20240725.zip" Scada.archive
                    = Some p }) by (eexists; vm_compute; reflexivity).
  destruct E as [[df ld] E]. exists df, ld. split; [exact E|].
  exact (proj1 (proj1 (dense_fill decimal is_stamp) _ _ _ _ E)).
Defined.

End Dense.
